(** * ai-vocab-fsrs: the spaced-repetition core, embedded in Rocq

    The development follows two source files of the repository:
    the scheduler [fsrsService.ts] (class [FSRSService]) and the in-memory
    store [LocalDatabaseService] that records reviews, selects practice
    words and counts the study streak.

    Conventions of the embedding.
    - A JavaScript number is a [number]: an exact rational for every finite
      value, or one of [PInf], [NInf], [NaN].  The special values follow
      IEEE 754 as ECMAScript prescribes; rounding of finite results and the
      sign of zero are not represented.
    - A property read from a parsed JSON object is a [value]: [undefined]
      when the key is missing, [null], or a number.
    - A point in time ([Date], ISO string) is its time value in
      milliseconds, an integer without bound.
    - The time zone of the host is a member of the class [TimeZone]:
      [setDate] works on the local time value, so the day it adds need not
      last 24 hours.  The streak and the weekly progress are taken in a zone
      with a fixed offset [tz], where a calendar day is [msPerDay] long.
    - The clock is read once per operation: every [new Date()] of one call
      is the same instant [now], an argument of the operation.
    - [Math.exp], [Math.pow] and [Math.log] are implementation-approximated
      in ECMAScript; their results on ordinary finite arguments are the
      members of the class [MathImpl].
    - [Math.random] enters only through the order in which
      [getWordsForPractice] finds its pool after sorting; that order is an
      argument, [shuffle]. *)

From Stdlib Require Import ZArith QArith Qround Qabs Qminmax Bool List String Ascii Lia Lqa
  Permutation Sorting.Sorted.
Import ListNotations.

Local Open Scope Z_scope.

(** ** JavaScript numbers and values *)

Module JS.

Inductive number : Type :=
| Fin (q : Q)
| PInf
| NInf
| NaN.

Inductive value : Type :=
| undefined
| null
| Num (n : number).

Inductive error : Type :=
| SyntaxError
| TypeError
| RangeError
| Error (message : string).

(** Outcome of evaluating code that may throw. *)
Inductive completion (A : Type) : Type :=
| Normal (a : A)
| Throw (e : error).
Arguments Normal {A} a.
Arguments Throw {A} e.

Definition Qlt_bool (a b : Q) : bool := negb (Qle_bool b a).

Definition isNaN (n : number) : bool :=
  match n with NaN => true | _ => false end.

(** ToNumber on the values that occur: [undefined] is NaN, [null] is 0. *)
Definition ToNumber (v : value) : number :=
  match v with
  | undefined => NaN
  | null => Fin 0
  | Num n => n
  end.

(** [v === n] for a number [n]. *)
Definition strict_eq (v : value) (n : number) : bool :=
  match v, n with
  | Num (Fin a), Fin b => Qeq_bool a b
  | Num PInf, PInf => true
  | Num NInf, NInf => true
  | _, _ => false
  end.

Definition num_neg (a : number) : number :=
  match a with
  | Fin q => Fin (- q)
  | PInf => NInf
  | NInf => PInf
  | NaN => NaN
  end.

Definition num_add (a b : number) : number :=
  match a, b with
  | NaN, _ | _, NaN => NaN
  | Fin x, Fin y => Fin (x + y)
  | PInf, NInf | NInf, PInf => NaN
  | PInf, _ | _, PInf => PInf
  | NInf, _ | _, NInf => NInf
  end.

Definition num_sub (a b : number) : number := num_add a (num_neg b).

(** An infinity multiplied by a finite factor: the sign follows the factor. *)
Definition scale_inf (positive : bool) (q : Q) : number :=
  if Qeq_bool q 0 then NaN
  else if Qlt_bool 0 q then (if positive then PInf else NInf)
       else (if positive then NInf else PInf).

Definition num_mul (a b : number) : number :=
  match a, b with
  | NaN, _ | _, NaN => NaN
  | Fin x, Fin y => Fin (x * y)
  | Fin x, PInf | PInf, Fin x => scale_inf true x
  | Fin x, NInf | NInf, Fin x => scale_inf false x
  | PInf, PInf | NInf, NInf => PInf
  | PInf, NInf | NInf, PInf => NInf
  end.

Definition num_div (a b : number) : number :=
  match a, b with
  | NaN, _ | _, NaN => NaN
  | Fin x, Fin y =>
      if Qeq_bool y 0
      then (if Qeq_bool x 0 then NaN
            else if Qlt_bool 0 x then PInf else NInf)
      else Fin (x / y)
  | Fin _, (PInf | NInf) => Fin 0
  | PInf, Fin y => if Qle_bool 0 y then PInf else NInf
  | NInf, Fin y => if Qle_bool 0 y then NInf else PInf
  | (PInf | NInf), (PInf | NInf) => NaN
  end.

(** [a < b]; false whenever an operand is NaN. *)
Definition num_lt (a b : number) : bool :=
  match a, b with
  | NaN, _ | _, NaN => false
  | Fin x, Fin y => Qlt_bool x y
  | NInf, (Fin _ | PInf) => true
  | Fin _, PInf => true
  | _, _ => false
  end.

(** [a <= b]; false whenever an operand is NaN. *)
Definition num_le (a b : number) : bool :=
  match a, b with
  | NaN, _ | _, NaN => false
  | Fin x, Fin y => Qle_bool x y
  | NInf, _ => true
  | _, PInf => true
  | _, _ => false
  end.

Definition num_gt (a b : number) : bool := num_lt b a.

Definition Math_max (a b : number) : number :=
  if isNaN a || isNaN b then NaN else if num_lt a b then b else a.

Definition Math_min (a b : number) : number :=
  if isNaN a || isNaN b then NaN else if num_lt b a then b else a.

(** [Math.round]: the nearest integer, ties towards +infinity. *)
Definition Qround_half_up (q : Q) : Z := Qfloor (q + (1 # 2)).

Definition Math_round (a : number) : number :=
  match a with
  | Fin q => Fin (inject_Z (Qround_half_up q))
  | _ => a
  end.

(** The implementation-approximated part of [Math]: results on finite
    arguments where ECMAScript fixes no exact value.  The one fact the
    scheduler relies on is that [Math.log(0.9)] is not zero: it divides by
    it. *)
Class MathImpl : Type := {
  exp_fin : Q -> Q;
  pow_fin : Q -> Q -> Q;
  log_fin : Q -> Q;
  log_fin_0_9 : ~ log_fin (9 # 10) == 0
}.

Section WithMath.
Context {M : MathImpl}.

Definition Math_exp (a : number) : number :=
  match a with
  | NaN => NaN
  | PInf => PInf
  | NInf => Fin 0
  | Fin q => if Qeq_bool q 0 then Fin 1 else Fin (exp_fin q)
  end.

Definition Math_log (a : number) : number :=
  match a with
  | NaN | NInf => NaN
  | PInf => PInf
  | Fin q =>
      if Qlt_bool q 0 then NaN
      else if Qeq_bool q 0 then NInf
      else if Qeq_bool q 1 then Fin 0
      else Fin (log_fin q)
  end.

Definition is_odd_integer (q : Q) : bool :=
  let r := Qred q in
  Pos.eqb (Qden r) 1 && Z.odd (Qnum r).

Definition is_integer (q : Q) : bool := Pos.eqb (Qden (Qred q)) 1.

(** [Math.pow(base, exponent)], following Number::exponentiate. *)
Definition Math_pow (base exponent : number) : number :=
  match exponent with
  | NaN => NaN
  | PInf =>
      match base with
      | NaN => NaN
      | PInf | NInf => PInf
      | Fin b =>
          if Qlt_bool 1 (Qabs b) then PInf
          else if Qeq_bool (Qabs b) 1 then NaN else Fin 0
      end
  | NInf =>
      match base with
      | NaN => NaN
      | PInf | NInf => Fin 0
      | Fin b =>
          if Qlt_bool 1 (Qabs b) then Fin 0
          else if Qeq_bool (Qabs b) 1 then NaN else PInf
      end
  | Fin e =>
      if Qeq_bool e 0 then Fin 1
      else
        match base with
        | NaN => NaN
        | PInf => if Qlt_bool 0 e then PInf else Fin 0
        | NInf =>
            if Qlt_bool 0 e
            then (if is_odd_integer e then NInf else PInf)
            else Fin 0
        | Fin b =>
            if Qeq_bool b 0 then (if Qlt_bool 0 e then Fin 0 else PInf)
            else if Qlt_bool b 0 && negb (is_integer e) then NaN
            else Fin (pow_fin b e)
        end
  end.

End WithMath.

Declare Scope js_scope.
Delimit Scope js_scope with js.
Infix "+" := num_add : js_scope.
Infix "-" := num_sub : js_scope.
Infix "*" := num_mul : js_scope.
Infix "/" := num_div : js_scope.
Infix "<?" := num_lt : js_scope.
Infix "<=?" := num_le : js_scope.
Infix ">?" := num_gt : js_scope.

End JS.

Import JS.

Local Open Scope Z_scope.

(** ** Dates *)

Definition msPerDay : Z := 1000 * 60 * 60 * 24.

(** A [Date] object: [Some t] with time value [t], or [None] for an
    Invalid Date. *)
Definition Date : Type := option Z.

Definition ToIntegerOrInfinity (q : Q) : Z :=
  if Qlt_bool q 0 then Qceiling q else Qfloor q.

(** The time zone of the host.  [LocalTime t] is the local time value of
    the instant [t] and [UTC l] the instant of the local time value [l], the
    abstract operations of these names in ECMAScript.  Where clocks are set
    back a local time occurs twice and [UTC] is the earlier of the two
    instants; where they are set forward some local times do not occur.  So
    going to local time and back never moves an instant forward. *)
Class TimeZone : Type := {
  LocalTime : Z -> Z;
  UTC : Z -> Z;
  UTC_LocalTime_le : forall t, UTC (LocalTime t) <= t
}.

(** A zone that keeps one offset from UTC, in milliseconds. *)
Definition fixedZone (tz : Z) : TimeZone.
Proof.
  refine {| LocalTime := fun t => t + tz; UTC := fun l => l - tz |}.
  intro t. lia.
Defined.

(** A zone has a fixed offset when it is a [fixedZone] on all times. *)
Definition fixed_offset (Zone : TimeZone) : Prop :=
  exists tz, (forall t, LocalTime t = t + tz) /\ (forall l, UTC l = l - tz).

(** Where nothing else is said the host runs on UTC. *)
#[global] Instance utcZone : TimeZone | 100 := fixedZone 0.

(** [d.setDate(d.getDate() + n)] for a valid date with time value [t]:
    on the local time value the calendar day moves by [n] days and the time
    within the day stays; the result is the instant of that local time.  A
    day count that is not finite leaves an Invalid Date. *)
Definition setDate_plus {Zone : TimeZone} (t : Z) (n : number) : Date :=
  match n with
  | Fin q => Some (UTC (LocalTime t + ToIntegerOrInfinity q * msPerDay))
  | _ => None
  end.

(** [d.toISOString()]: throws a RangeError on an Invalid Date.  The ISO
    string is identified with the time value it denotes. *)
Definition toISOString (d : Date) : completion Z :=
  match d with
  | Some t => Normal t
  | None => Throw RangeError
  end.

(** ** fsrsService.ts *)

Record FSRSParams : Type := {
  difficulty : value;
  stability : value;
  retrievability : value;
  last_review : option Z;
  next_review : Z;
  review_count : value
}.

Inductive ReviewResult : Type :=
| AGAIN
| HARD
| GOOD
| EASY.

Definition ReviewResult_eqb (a b : ReviewResult) : bool :=
  match a, b with
  | AGAIN, AGAIN | HARD, HARD | GOOD, GOOD | EASY, EASY => true
  | _, _ => false
  end.

Module FSRSService.
Section WithMath.
Context {M : MathImpl} {Zone : TimeZone}.

Definition INITIAL_STABILITY : number := Fin (4 # 10).
Definition DIFFICULTY_DECAY : number := Fin (- (5 # 10)).
Definition STABILITY_FACTOR : number := Fin (1 # 10).

Definition initializeParams (now : Z) : FSRSParams :=
  let nextReview := now + 1 * msPerDay in
  {| difficulty := Num (Fin 0);
     stability := Num INITIAL_STABILITY;
     retrievability := Num (Fin 1);
     last_review := None;
     next_review := nextReview;
     review_count := Num (Fin 0) |}.

Definition getDifficultyChange (result : ReviewResult) : number :=
  match result with
  | AGAIN => Fin (12 # 10)
  | HARD => Fin (3 # 10)
  | GOOD => Fin (- (1 # 10))
  | EASY => Fin (- (3 # 10))
  end.

Definition getStabilityIncrease
    (result : ReviewResult) (difficulty retrievability : number) : number :=
  let base := (Fin 1 - retrievability)%js in
  let difficultyFactor := Math_exp (DIFFICULTY_DECAY * difficulty)%js in
  match result with
  | HARD => (base * Fin (5 # 10) * difficultyFactor)%js
  | GOOD => (base * Fin 1 * difficultyFactor)%js
  | EASY => (base * Fin (15 # 10) * difficultyFactor)%js
  | AGAIN => Fin 0
  end.

Definition calculateInterval
    (stability difficulty : number) (result : ReviewResult) : number :=
  if ReviewResult_eqb result AGAIN then Fin (25 # 100)
  else
    let baseInterval :=
      (stability * Math_log (Fin (9 # 10)) / Math_log (Fin (9 # 10)))%js in
    let difficultyMultiplier := Math_exp (Fin (- (1 # 10)) * difficulty)%js in
    Math_max (Fin 1) (baseInterval * difficultyMultiplier)%js.

(** The difficulty, retrievability and stability that [calculateNextReview]
    holds in its local variables when it reaches the interval computation. *)
Definition updatedDifficulty (params : FSRSParams) (result : ReviewResult) : number :=
  Math_max (Fin 0)
    (Math_min (Fin 10) (ToNumber (difficulty params) + getDifficultyChange result)%js).

Definition updatedRetrievability (now : Z) (params : FSRSParams) : value :=
  match last_review params with
  | Some last =>
      let elapsed :=
        ((Fin (inject_Z now) - Fin (inject_Z last))
         / Fin (inject_Z (1000 * 60 * 60 * 24)))%js in
      Num (Math_pow (Fin (9 # 10)) (elapsed / ToNumber (stability params))%js)
  | None => retrievability params
  end.

Definition updatedStability
    (now : Z) (params : FSRSParams) (result : ReviewResult) : number :=
  if ReviewResult_eqb result AGAIN
  then Math_max (Fin (1 # 10)) (ToNumber (stability params) * Fin (2 # 10))%js
  else
    let stabilityIncrease :=
      getStabilityIncrease result (updatedDifficulty params result)
        (ToNumber (updatedRetrievability now params)) in
    (ToNumber (stability params) * (Fin 1 + stabilityIncrease))%js.

Definition calculateNextReview
    (now : Z) (params : FSRSParams) (result : ReviewResult)
  : completion FSRSParams :=
  let difficulty' := updatedDifficulty params result in
  let retrievability' := updatedRetrievability now params in
  let stability' := updatedStability now params result in
  let interval := calculateInterval stability' difficulty' result in
  let nextReview := setDate_plus now (Math_round interval) in
  match toISOString nextReview with
  | Throw e => Throw e
  | Normal next =>
      Normal {| difficulty := Num difficulty';
                stability := Num stability';
                retrievability := retrievability';
                last_review := Some now;
                next_review := next;
                review_count := Num (ToNumber (review_count params) + Fin 1)%js |}
  end.

End WithMath.
End FSRSService.

(** ** Stored words

    [SavedWord.fsrs_params] is a JSON text.  The embedding keeps what
    [JSON.parse] makes of such a text: either it does not parse
    ([Garbled]), or it is an object whose properties are read as an
    [FSRSParams].  The property may also be missing or the empty string, both
    falsy: [None]. *)

Inductive json_text : Type :=
| Garbled
| ObjectText (p : FSRSParams).

Definition JSON_parse (txt : json_text) : completion FSRSParams :=
  match txt with
  | Garbled => Throw SyntaxError
  | ObjectText p => Normal p
  end.

(** [JSON.stringify] writes a number that is not finite as [null] and leaves
    out a property whose value is [undefined]. *)
Definition stringify_value (v : value) : value :=
  match v with
  | Num (Fin q) => Num (Fin q)
  | Num _ => null
  | null => null
  | undefined => undefined
  end.

Definition JSON_stringify (p : FSRSParams) : json_text :=
  ObjectText
    {| difficulty := stringify_value (difficulty p);
       stability := stringify_value (stability p);
       retrievability := stringify_value (retrievability p);
       last_review := last_review p;
       next_review := next_review p;
       review_count := stringify_value (review_count p) |}.

Record SavedWord : Type := {
  id : Z;
  text : string;
  phonetic : string;
  createdAt : Z;
  fsrs_params : option json_text
}.

Definition ascii_toLowerCase (c : ascii) : ascii :=
  let n := nat_of_ascii c in
  if (Nat.leb 65 n && Nat.leb n 90)%bool then ascii_of_nat (n + 32) else c.

(** [String.prototype.toLowerCase], on ASCII letters. *)
Fixpoint toLowerCase (s : string) : string :=
  match s with
  | EmptyString => EmptyString
  | String c rest => String (ascii_toLowerCase c) (toLowerCase rest)
  end.

Inductive console_entry : Type :=
| error_word_not_found (wordId : Z)
| log_cooldown_skipped (wordId : Z)
| error_recording_review (wordId : Z) (e : error).

(** ** LocalDatabaseService

    The fields that the review, selection and streak code reads or writes:
    the word array, the id counter, what [localStorage] holds under
    ['vocabulary_words'] together with the number of times it was written,
    the number of ['datachanged'] events dispatched, and the console. *)

Record LocalDatabaseService : Type := {
  words : list SavedWord;
  nextWordId : Z;
  localStorage_words : option (list SavedWord);
  localStorage_writes : nat;
  datachanged_events : nat;
  console : list console_entry
}.

Module Db.

Definition emptyDb : LocalDatabaseService :=
  {| words := [];
     nextWordId := Z.max 0 0 + 1;
     localStorage_words := None;
     localStorage_writes := 0;
     datachanged_events := 0;
     console := [] |}.

Definition with_words (ws : list SavedWord) (db : LocalDatabaseService)
  : LocalDatabaseService :=
  {| words := ws;
     nextWordId := nextWordId db;
     localStorage_words := localStorage_words db;
     localStorage_writes := localStorage_writes db;
     datachanged_events := datachanged_events db;
     console := console db |}.

Definition console_push (e : console_entry) (db : LocalDatabaseService)
  : LocalDatabaseService :=
  {| words := words db;
     nextWordId := nextWordId db;
     localStorage_words := localStorage_words db;
     localStorage_writes := localStorage_writes db;
     datachanged_events := datachanged_events db;
     console := console db ++ [e] |}.

Definition saveToLocalStorage (db : LocalDatabaseService) : LocalDatabaseService :=
  {| words := words db;
     nextWordId := nextWordId db;
     localStorage_words := Some (words db);
     localStorage_writes := S (localStorage_writes db);
     datachanged_events := S (datachanged_events db);
     console := console db |}.

Definition find_word (wordId : Z) (ws : list SavedWord) : option SavedWord :=
  find (fun w => id w =? wordId) ws.

Definition with_fsrs_params (txt : json_text) (w : SavedWord) : SavedWord :=
  {| id := id w; text := text w; phonetic := phonetic w;
     createdAt := createdAt w; fsrs_params := Some txt |}.

(** The assignment [word.fsrs_params = ...] on the object that [find]
    returned: the first word of the array with that id. *)
Fixpoint assign_fsrs_params (wordId : Z) (txt : json_text) (ws : list SavedWord)
  : list SavedWord :=
  match ws with
  | [] => []
  | w :: rest =>
      if id w =? wordId then with_fsrs_params txt w :: rest
      else w :: assign_fsrs_params wordId txt rest
  end.

(** The object literal that [saveWord] serialises: no [review_count]. *)
Definition saveWord_params (now : Z) : FSRSParams :=
  {| difficulty := Num (Fin 0);
     stability := Num (Fin 0);
     retrievability := Num (Fin 1);
     last_review := None;
     next_review := now;
     review_count := undefined |}.

Definition saveWord (now : Z) (word phonetic : string) (db : LocalDatabaseService)
  : Z * LocalDatabaseService :=
  match find (fun w => String.eqb (toLowerCase (text w)) (toLowerCase word))
             (words db) with
  | Some existingWord => (id existingWord, db)
  | None =>
      let newWord :=
        {| id := nextWordId db;
           text := word;
           phonetic := phonetic;
           createdAt := now;
           fsrs_params := Some (JSON_stringify (saveWord_params now)) |} in
      let db1 :=
        {| words := words db ++ [newWord];
           nextWordId := nextWordId db + 1;
           localStorage_words := localStorage_words db;
           localStorage_writes := localStorage_writes db;
           datachanged_events := datachanged_events db;
           console := console db |} in
      (id newWord, saveToLocalStorage db1)
  end.

Definition updateFSRSParams (wordId : Z) (params : FSRSParams)
    (db : LocalDatabaseService) : LocalDatabaseService :=
  match find_word wordId (words db) with
  | Some _ =>
      saveToLocalStorage
        (with_words (assign_fsrs_params wordId (JSON_stringify params) (words db)) db)
  | None => db
  end.

Definition deleteWord (wordId : Z) (db : LocalDatabaseService) : LocalDatabaseService :=
  saveToLocalStorage
    (with_words (filter (fun w => negb (id w =? wordId)) (words db)) db).

Section WithMath.
Context {M : MathImpl} {Zone : TimeZone}.

(** The cooldown test of [recordReview]. *)
Definition inCooldown (now : Z) (currentParams : FSRSParams) : bool :=
  match last_review currentParams with
  | Some lastReviewDate =>
      let minutesSinceLastReview :=
        ((Fin (inject_Z now) - Fin (inject_Z lastReviewDate))
         / Fin (inject_Z (1000 * 60)))%js in
      (minutesSinceLastReview <? Fin 50)%js
  | None => false
  end.

Definition failed_to_update : error := Error "Failed to update FSRS parameters.".

(** [recordReview]: the promise resolves ([Normal tt]) or rejects
    ([Throw]); the second component is the service afterwards. *)
Definition recordReview (now : Z) (wordId : Z) (result : ReviewResult)
    (db : LocalDatabaseService) : completion unit * LocalDatabaseService :=
  match find_word wordId (words db) with
  | None => (Normal tt, console_push (error_word_not_found wordId) db)
  | Some word =>
      let parsed :=
        match fsrs_params word with
        | Some txt => JSON_parse txt
        | None => Normal (FSRSService.initializeParams now)
        end in
      match parsed with
      | Throw e =>
          (Throw failed_to_update,
           console_push (error_recording_review wordId e) db)
      | Normal currentParams =>
          if inCooldown now currentParams
          then (Normal tt, console_push (log_cooldown_skipped wordId) db)
          else
            match FSRSService.calculateNextReview now currentParams result with
            | Throw e =>
                (Throw failed_to_update,
                 console_push (error_recording_review wordId e) db)
            | Normal newParams =>
                (Normal tt, updateFSRSParams wordId newParams db)
            end
      end
  end.

End WithMath.

(** *** Practice selection *)

Inductive bucket : Type :=
| Due
| Learning
| Fresh
| Mastered.

Definition bucket_eqb (a b : bucket) : bool :=
  match a, b with
  | Due, Due | Learning, Learning | Fresh, Fresh | Mastered, Mastered => true
  | _, _ => false
  end.

(** The array a word is pushed to by the first loop of
    [getWordsForPractice]. *)
Definition bucketOf (now : Z) (word : SavedWord) : bucket :=
  match fsrs_params word with
  | Some txt =>
      match JSON_parse txt with
      | Normal params =>
          if strict_eq (stability params) (Fin 0) then Fresh
          else if next_review params <=? now then Due
          else if ((ToNumber (stability params) >? Fin 0)%js
                   && (ToNumber (stability params) <=? Fin 30)%js)%bool
               then Learning
               else Mastered
      | Throw _ => Mastered
      end
  | None => Fresh
  end.

Definition inBucket (now : Z) (b : bucket) (ws : list SavedWord) : list SavedWord :=
  filter (fun w => bucket_eqb (bucketOf now w) b) ws.

Definition pushTimes (n : nat) (ws : list SavedWord) : list SavedWord :=
  flat_map (fun w => repeat w n) ws.

Definition weightedPool (now : Z) (ws : list SavedWord) : list SavedWord :=
  pushTimes 4 (inBucket now Due ws)
  ++ pushTimes 3 (inBucket now Learning ws)
  ++ pushTimes 2 (inBucket now Fresh ws)
  ++ pushTimes 1 (inBucket now Mastered ws).

(** The last loop of [getWordsForPractice]: [finalSelection] and
    [selectedIds] are the loop's two accumulators. *)
Fixpoint pickUnique (limit : Z) (shuffledPool finalSelection : list SavedWord)
    (selectedIds : list Z) : list SavedWord :=
  match shuffledPool with
  | [] => finalSelection
  | word :: rest =>
      if existsb (Z.eqb (id word)) selectedIds
      then pickUnique limit rest finalSelection selectedIds
      else
        let finalSelection' := finalSelection ++ [word] in
        let selectedIds' := id word :: selectedIds in
        if Z.of_nat (List.length finalSelection') >=? limit
        then finalSelection'
        else pickUnique limit rest finalSelection' selectedIds'
  end.

(** [sort(() => Math.random() - 0.5)] rearranges the pool in an order the
    caller does not control: [shuffle] is that rearrangement. *)
Definition getWordsForPractice (shuffle : list SavedWord -> list SavedWord)
    (now : Z) (limit : Z) (db : LocalDatabaseService) : list SavedWord :=
  if (List.length (words db) =? 0)%nat then []
  else
    let shuffledPool := shuffle (weightedPool now (words db)) in
    pickUnique limit shuffledPool [] [].

(** *** Streak *)

Section WithZone.
(** Offset of local time from UTC, in milliseconds. *)
Variable tz : Z.

(** [toDateString()]: the local calendar day, as a day number. *)
Definition toDateString (t : Z) : Z := (t + tz) / msPerDay.

(** The [map] callback of [calculateStreakDays]. *)
Definition reviewDateOf (word : SavedWord) : option Z :=
  match fsrs_params word with
  | None => None
  | Some txt =>
      match JSON_parse txt with
      | Normal params => last_review params
      | Throw _ => None
      end
  end.

Fixpoint filter_non_null (l : list (option Z)) : list Z :=
  match l with
  | [] => []
  | Some t :: rest => t :: filter_non_null rest
  | None :: rest => filter_non_null rest
  end.

(** [Set.prototype.add] over the days, in insertion order. *)
Fixpoint addAll (days : list Z) (set : list Z) : list Z :=
  match days with
  | [] => set
  | d :: rest =>
      if existsb (Z.eqb d) set then addAll rest set
      else addAll rest (set ++ [d])
  end.

Fixpoint insert_desc (d : Z) (sorted : list Z) : list Z :=
  match sorted with
  | [] => [d]
  | x :: rest => if x <? d then d :: sorted else x :: insert_desc d rest
  end.

(** [sort((a, b) => b.getTime() - a.getTime())]. *)
Fixpoint sort_desc (l : list Z) : list Z :=
  match l with
  | [] => []
  | d :: rest => insert_desc d (sort_desc rest)
  end.

(** The [for] loop of [calculateStreakDays] from index 1 on. *)
Fixpoint countBack (uniqueDates : list Z) (currentDay : Z) (streak : Z) : Z :=
  match uniqueDates with
  | [] => streak
  | previousDay :: rest =>
      let expectedPreviousDay := currentDay - 1 in
      if previousDay =? expectedPreviousDay
      then countBack rest previousDay (streak + 1)
      else streak
  end.

Definition calculateStreakDays (now : Z) (db : LocalDatabaseService) : Z :=
  let reviewDates := filter_non_null (map reviewDateOf (words db)) in
  if (List.length reviewDates =? 0)%nat then 0
  else
    let uniqueDayStrings := addAll (map toDateString reviewDates) [] in
    let uniqueDates := sort_desc uniqueDayStrings in
    let today := toDateString now in
    let yesterday := toDateString (now - 1 * msPerDay) in
    match uniqueDates with
    | [] => 0
    | mostRecentReviewDate :: rest =>
        if (negb (mostRecentReviewDate =? today)
            && negb (mostRecentReviewDate =? yesterday))%bool
        then 0
        else countBack rest mostRecentReviewDate 1
    end.

(** The calendar days on which some stored word was last reviewed. *)
Definition reviewDays (db : LocalDatabaseService) : list Z :=
  map toDateString (filter_non_null (map reviewDateOf (words db))).

End WithZone.

End Db.

(** ** A concrete [Math]

    Truncated series, good to a few digits on the arguments the scheduler
    uses; they make the definitions above computable on examples. *)

Module SeriesMath.
Local Open Scope Q_scope.

Fixpoint exp_horner (n : nat) (k : Z) (q : Q) : Q :=
  match n with
  | O => 1
  | S n' => 1 + q / inject_Z k * exp_horner n' (k + 1)%Z q
  end.

Definition exp_series (q : Q) : Q :=
  Qred (if Qlt_bool q 0 then / exp_horner 12 1 (- q) else exp_horner 12 1 q).

Fixpoint atanh_terms (n : nat) (k : Z) (y ypow : Q) : Q :=
  match n with
  | O => 0
  | S n' => ypow / inject_Z k + atanh_terms n' (k + 2)%Z y (ypow * y * y)
  end.

Definition log_series (x : Q) : Q :=
  let y := (x - 1) / (x + 1) in
  Qred (2 * atanh_terms 4 1 y y).

Definition pow_series (b e : Q) : Q := exp_series (Qred (e * log_series b)).

#[export] Instance seriesMath : MathImpl.
Proof.
  refine {| exp_fin := exp_series;
            pow_fin := pow_series;
            log_fin := log_series |}.
  intro H. vm_compute in H. discriminate H.
Defined.

End SeriesMath.

(** ** Services the program reaches

    A service starts with an empty [localStorage] and changes through the
    operations the application calls on words and reviews, each at some
    clock reading.  ([updateFSRSParams] is called by [recordReview] only.) *)

Inductive reachable {M : MathImpl} {Zone : TimeZone} : LocalDatabaseService -> Prop :=
| reachable_empty : reachable Db.emptyDb
| reachable_saveWord (now : Z) (word phonetic : string) (db : LocalDatabaseService) :
    reachable db -> reachable (snd (Db.saveWord now word phonetic db))
| reachable_recordReview (now wordId : Z) (result : ReviewResult)
    (db : LocalDatabaseService) :
    reachable db -> reachable (snd (Db.recordReview now wordId result db))
| reachable_deleteWord (wordId : Z) (db : LocalDatabaseService) :
    reachable db -> reachable (Db.deleteWord wordId db).

(** ** The specification's vocabulary

    Definitions written after the specification's wording, to compare the
    code with. *)

Module Spec.

Definition Delta (outcome : ReviewResult) : Q :=
  match outcome with
  | AGAIN => 12 # 10
  | HARD => 3 # 10
  | GOOD => - (1 # 10)
  | EASY => - (3 # 10)
  end.

Definition clamp (x lo hi : Q) : Q := Qmax lo (Qmin hi x).

(** The interval after Again, 0.25 days, in milliseconds: 6 hours. *)
Definition Again_interval : Z := msPerDay / 4.

End Spec.

(** Strictly descending days. *)
Definition descending (l : list Z) : Prop :=
  StronglySorted (fun a b => b < a) l.

(** A stored word whose difficulty is a number between 0 and 10. *)
Definition difficulty_in_range (w : SavedWord) : Prop :=
  exists p d, fsrs_params w = Some (ObjectText p) /\
              difficulty p = Num (Fin d) /\ (0 <= d <= 10)%Q.

(** ** Sample data *)

Module Examples.
Import SeriesMath.

(** A word last reviewed at [t0], as [calculateNextReview] stores it. *)
Definition reviewedParams (t0 : Z) : FSRSParams :=
  {| difficulty := Num (Fin (3 # 10));
     stability := Num (Fin (4 # 10));
     retrievability := Num (Fin 1);
     last_review := Some t0;
     next_review := t0 + msPerDay;
     review_count := Num (Fin 1) |}.

Definition reviewedWord (t0 : Z) : SavedWord :=
  {| id := 1; text := "apple"; phonetic := "ap-l"; createdAt := 0;
     fsrs_params := Some (ObjectText (reviewedParams t0)) |}.

Definition reviewedDb (t0 : Z) : LocalDatabaseService :=
  {| words := [reviewedWord t0];
     nextWordId := 2;
     localStorage_words := Some [reviewedWord t0];
     localStorage_writes := 2;
     datachanged_events := 2;
     console := [] |}.

(** A word whose stored [fsrs_params] is not JSON. *)
Definition garbledWord : SavedWord :=
  {| id := 1; text := "apple"; phonetic := "ap-l"; createdAt := 0;
     fsrs_params := Some Garbled |}.

Definition garbledDb : LocalDatabaseService :=
  {| words := [garbledWord];
     nextWordId := 2;
     localStorage_words := Some [garbledWord];
     localStorage_writes := 1;
     datachanged_events := 1;
     console := [] |}.

(** A word stored without [fsrs_params]. *)
Definition bareWord : SavedWord :=
  {| id := 1; text := "apple"; phonetic := "ap-l"; createdAt := 0;
     fsrs_params := None |}.

Definition bareDb : LocalDatabaseService :=
  {| words := [bareWord];
     nextWordId := 2;
     localStorage_words := Some [bareWord];
     localStorage_writes := 1;
     datachanged_events := 1;
     console := [] |}.

(** A word just registered with [saveWord] at time 1000. *)
Definition freshDb : LocalDatabaseService :=
  snd (Db.saveWord 1000 "apple" "ap-l" Db.emptyDb).

(** A word last reviewed at [t]. *)
Definition wordReviewedAt (wordId t : Z) : SavedWord :=
  {| id := wordId; text := "word"; phonetic := ""; createdAt := 0;
     fsrs_params := Some (ObjectText (reviewedParams t)) |}.

Definition dbOf (ws : list SavedWord) : LocalDatabaseService :=
  {| words := ws;
     nextWordId := 10;
     localStorage_words := Some ws;
     localStorage_writes := 1;
     datachanged_events := 1;
     console := [] |}.

(** Noon of day 100, and words reviewed that day, the day before and three
    days before. *)
Definition noon100 : Z := 100 * msPerDay + 12 * 60 * 60 * 1000.

Definition streakDb : LocalDatabaseService :=
  dbOf [ wordReviewedAt 1 (noon100 - 3 * msPerDay);
         wordReviewedAt 2 (noon100 - 1000);
         wordReviewedAt 3 (noon100 - msPerDay);
         wordReviewedAt 4 (noon100 - 5000) ].

(** The zone of New York in 2024: five hours behind UTC, and four from
    10 March 07:00 UTC until 3 November 06:00 UTC.  A local time of the hour
    that occurs twice in November is taken as the earlier instant, one of the
    hour left out in March with the offset before the change. *)
Definition hour : Z := 1000 * 60 * 60.
Definition clocksForward : Z := 1710054000000.
Definition clocksBack : Z := 1730613600000.

Definition newYork_offset (t : Z) : Z :=
  if ((clocksForward <=? t) && (t <? clocksBack))%bool
  then - (4 * hour) else - (5 * hour).

Definition newYork_UTC (l : Z) : Z :=
  if ((clocksForward <=? l + 4 * hour) && (l + 4 * hour <? clocksBack))%bool
  then l + 4 * hour else l + 5 * hour.

Definition newYork2024 : TimeZone.
Proof.
  refine {| LocalTime := fun t => t + newYork_offset t; UTC := newYork_UTC |}.
  intro t; unfold newYork_UTC, newYork_offset, clocksForward, clocksBack, hour;
    destruct (Z.leb_spec 1710054000000 t); destruct (Z.ltb_spec t 1730613600000);
    cbn [andb];
    repeat match goal with
           | |- context [(?a <=? ?b) && (?c <? ?d)] =>
               destruct (Z.leb_spec a b); destruct (Z.ltb_spec c d);
               cbn [andb]
           end; lia.
Defined.

(** One word, saved in New York on 8 March 2024. *)
Definition newYorkDb : LocalDatabaseService :=
  snd (Db.saveWord 1709900000000 "apple" "ap-l" Db.emptyDb).

End Examples.

(** ** Invariants of a reachable service *)

(** The stored state of a word is an object whose difficulty, stability and
    retrievability are finite numbers. *)
Definition numeric_state (w : SavedWord) : Prop :=
  exists p d s q,
    fsrs_params w = Some (ObjectText p) /\
    difficulty p = Num (Fin d) /\
    stability p = Num (Fin s) /\
    retrievability p = Num (Fin q).

(** What the stored review counter of a word can be: absent while the word
    has no recorded review, and afterwards [null] or a whole number from 1
    on. *)
Definition counted_state (w : SavedWord) : Prop :=
  exists p,
    fsrs_params w = Some (ObjectText p) /\
    match last_review p with
    | None => review_count p = undefined
    | Some _ =>
        review_count p = null \/
        exists q n, review_count p = Num (Fin q) /\ (q == inject_Z n)%Q /\ 1 <= n
    end.

(** The key under which [saveWord] compares words. *)
Definition text_key (w : SavedWord) : string := toLowerCase (text w).

(** Words are compared field by field. *)
Definition SavedWord_eq_dec (a b : SavedWord) : {a = b} + {a <> b}.
Proof.
  repeat decide equality; try apply Z.eq_dec; try apply Pos.eq_dec.
Defined.

(** How often the weighted pool of [getWordsForPractice] holds a word of
    each of the four arrays: the bounds of the four push loops. *)
Definition pushCount (b : Db.bucket) : nat :=
  match b with
  | Db.Due => 4
  | Db.Learning => 3
  | Db.Fresh => 2
  | Db.Mastered => 1
  end.

(** ** LocalDatabaseService: the queries *)

Module DbQueries.

(** [getAllWords]: a copy of the word array. *)
Definition getAllWords (db : LocalDatabaseService) : list SavedWord := words db.

(** The [filter] callback of [getWordsForReview]. *)
Definition isDueForReview (now : Z) (word : SavedWord) : bool :=
  match fsrs_params word with
  | None => true
  | Some txt =>
      match JSON_parse txt with
      | Normal params =>
          let nextReview := next_review params in
          nextReview <=? now
      | Throw _ => true
      end
  end.

Definition getWordsForReview (now : Z) (db : LocalDatabaseService)
  : list SavedWord :=
  filter (isDueForReview now) (words db).

End DbQueries.

(** ** LocalDatabaseService: the weekly progress *)

Module WeeklyProgress.

Record entry : Type := {
  day : string;
  learned : Z;
  reviewed : Z
}.

(** [toLocaleString('en-US', { weekday: 'short' })] of a local calendar
    day, given as a day number; day 0 (1 January 1970) was a Thursday. *)
Definition weekdayShort (dayNumber : Z) : string :=
  nth (Z.to_nat ((dayNumber + 4) mod 7))
      ["Sun"; "Mon"; "Tue"; "Wed"; "Thu"; "Fri"; "Sat"]%string EmptyString.

(** [weeklyData[dayIndex].learned++] and [.reviewed++], guarded by
    [if (weeklyData[dayIndex])]: nothing happens outside the array. *)
Fixpoint updateAt (f : entry -> entry) (dayIndex : nat) (weeklyData : list entry)
  : list entry :=
  match weeklyData, dayIndex with
  | [], _ => []
  | e :: rest, O => f e :: rest
  | e :: rest, S n => e :: updateAt f n rest
  end.

Definition incLearned (e : entry) : entry :=
  {| day := day e; learned := learned e + 1; reviewed := reviewed e |}.

Definition incReviewed (e : entry) : entry :=
  {| day := day e; learned := learned e; reviewed := reviewed e + 1 |}.

(** The index a timestamp falls on: whole days elapsed until [now], counted
    back from the last slot; none outside the last seven. *)
Definition slotOf (now t : Z) : option nat :=
  let dayDiff := (now - t) / (1000 * 3600 * 24) in
  if ((dayDiff >=? 0) && (dayDiff <? 7))%bool
  then Some (Z.to_nat (6 - dayDiff))
  else None.

Definition bump (f : entry -> entry) (slot : option nat) (weeklyData : list entry)
  : list entry :=
  match slot with
  | Some dayIndex => updateAt f dayIndex weeklyData
  | None => weeklyData
  end.

Definition learnedSlot (now : Z) (word : SavedWord) : option nat :=
  slotOf now (createdAt word).

Definition reviewedSlot (now : Z) (word : SavedWord) : option nat :=
  match fsrs_params word with
  | None => None
  | Some txt =>
      match JSON_parse txt with
      | Normal params =>
          match last_review params with
          | Some lastReview => slotOf now lastReview
          | None => None
          end
      | Throw _ => None
      end
  end.

(** The body of [this.words.forEach]. *)
Definition countWord (now : Z) (weeklyData : list entry) (word : SavedWord)
  : list entry :=
  bump incReviewed (reviewedSlot now word)
       (bump incLearned (learnedSlot now word) weeklyData).

Definition slot_is (k : nat) (slot : option nat) : bool :=
  match slot with Some n => Nat.eqb n k | None => false end.

(** A timestamp lies between [6 - k] and [7 - k] whole days before [now]. *)
Definition inSlotWindow (now : Z) (k : nat) (t : Z) : bool :=
  (((6 - Z.of_nat k) * msPerDay <=? now - t)
   && (now - t <? (7 - Z.of_nat k) * msPerDay))%bool.

Definition reviewedInWindow (now : Z) (k : nat) (word : SavedWord) : bool :=
  match Db.reviewDateOf word with
  | Some t => inSlotWindow now k t
  | None => false
  end.

Section WithZone.
Variable tz : Z.

Definition last7Days (now : Z) : list Z :=
  rev (map (fun i => now - Z.of_nat i * msPerDay) (seq 0 7)).

Definition getWeeklyProgressData (now : Z) (db : LocalDatabaseService)
  : list entry :=
  let dayStrings :=
    map (fun d => weekdayShort (Db.toDateString tz d)) (last7Days now) in
  let weeklyData :=
    map (fun day => {| day := day; learned := 0; reviewed := 0 |}) dayStrings in
  fold_left (countWord now) (words db) weeklyData.

End WithZone.

End WeeklyProgress.

(** ** StatsDashboard: the figures computed from the word array *)

Module StatsDashboard.

(** [v || 0] for a property that holds a number, [null] or nothing. *)
Definition or_zero (v : value) : number :=
  match v with
  | Num (Fin q) => if Qeq_bool q 0 then Fin 0 else Fin q
  | Num PInf => PInf
  | Num NInf => NInf
  | Num NaN | null | undefined => Fin 0
  end.

Section WithZone.
Variable tz : Z.

Definition calculateTodayReviews (now : Z) (ws : list SavedWord) : nat :=
  let today := Db.toDateString tz now in
  List.length
    (filter (fun word =>
               match fsrs_params word with
               | None => false
               | Some txt =>
                   match JSON_parse txt with
                   | Normal params =>
                       match last_review params with
                       | Some t => Db.toDateString tz t =? today
                       | None => false
                       end
                   | Throw _ => false
                   end
               end) ws).

End WithZone.

(** The [reduce] callback of [calculateAverageRetention]. *)
Definition addRetention (sum : number) (word : SavedWord) : number :=
  match fsrs_params word with
  | None => sum
  | Some txt =>
      match JSON_parse txt with
      | Normal params => (sum + or_zero (retrievability params))%js
      | Throw _ => sum
      end
  end.

Definition calculateAverageRetention (ws : list SavedWord) : number :=
  if (List.length ws =? 0)%nat then Fin 0
  else
    let totalRetention := fold_left addRetention ws (Fin 0) in
    Math_round
      ((totalRetention / Fin (inject_Z (Z.of_nat (List.length ws)))) * Fin 100)%js.

Definition isMastered (word : SavedWord) : bool :=
  match fsrs_params word with
  | None => false
  | Some txt =>
      match JSON_parse txt with
      | Normal params => (ToNumber (stability params) >? Fin 30)%js
      | Throw _ => false
      end
  end.

Definition isLearning (word : SavedWord) : bool :=
  match fsrs_params word with
  | None => false
  | Some txt =>
      match JSON_parse txt with
      | Normal params =>
          ((ToNumber (stability params) >? Fin 0)%js
           && (ToNumber (stability params) <=? Fin 30)%js)%bool
      | Throw _ => false
      end
  end.

Definition isNew (word : SavedWord) : bool :=
  match fsrs_params word with
  | None => true
  | Some txt =>
      match JSON_parse txt with
      | Normal params => strict_eq (stability params) (Fin 0)
      | Throw _ => true
      end
  end.

Definition calculateMasteredWords (ws : list SavedWord) : nat :=
  List.length (filter isMastered ws).

Definition calculateLearningWords (ws : list SavedWord) : nat :=
  List.length (filter isLearning ws).

Definition calculateNewWords (ws : list SavedWord) : nat :=
  List.length (filter isNew ws).

End StatsDashboard.

(** ** KnowledgeMap: the status shown for a word *)

Module KnowledgeMap.

Inductive status : Type :=
| new
| learning
| mastered.

Definition status_eqb (a b : status) : bool :=
  match a, b with
  | new, new | learning, learning | mastered, mastered => true
  | _, _ => false
  end.

(** The status that the [map] callback of [loadWords] gives a word. *)
Definition statusOf (word : SavedWord) : status :=
  match fsrs_params word with
  | None => new
  | Some txt =>
      match JSON_parse txt with
      | Normal params =>
          let stability := StatsDashboard.or_zero (stability params) in
          if (stability >? Fin 30)%js then mastered
          else if (stability >? Fin 0)%js then learning
          else new
      | Throw _ => new
      end
  end.

End KnowledgeMap.

(** ** LocalDatabaseService: meanings and examples

    The whole service: the part above, which holds the words, together with
    the meaning and example arrays and their id counters.  What
    [localStorage] holds for meanings and examples is not tracked; the
    write and event counters of the word part count every call of
    [saveToLocalStorage]. *)

Module WordMeaning.
Record t : Type := {
  partOfSpeech : string;
  englishDefinition : string;
  koreanTranslation : string;
  exampleSentences : list string
}.
End WordMeaning.

Module SavedMeaning.
Record t : Type := {
  id : Z;
  word_id : Z;
  partOfSpeech : string;
  englishDefinition : string;
  koreanTranslation : string
}.
End SavedMeaning.

Module SavedExample.
Record t : Type := {
  id : Z;
  meaning_id : Z;
  sentence : string
}.
End SavedExample.

Module Vocabulary.

Record store : Type := {
  service : LocalDatabaseService;
  meanings : list SavedMeaning.t;
  examples : list SavedExample.t;
  nextMeaningId : Z;
  nextExampleId : Z
}.

(** [Math.max(0, ...ids)]. *)
Definition Math_max_0 (ids : list Z) : Z := fold_right Z.max 0 ids.

(** Ids are numbers, that is doubles; the embedding has the whole numbers
    among them.  Up to [Number.MAX_SAFE_INTEGER] every whole number is a
    double and adding 1 is exact. *)
Definition MAX_SAFE_INTEGER : Z := 2 ^ 53 - 1.

(** The distance between neighbouring doubles around a whole number
    [m >= 0]: 1 below 2^53, and doubling with every power of two from
    there. *)
Definition double_ulp (m : Z) : Z :=
  if m <? 2 ^ 53 then 1 else 2 ^ (Z.log2 m - 52).

(** The double nearest to a whole number [m >= 0], ties to the even
    significand. *)
Definition roundToDouble (m : Z) : Z :=
  let u := double_ulp m in
  let q := m / u in
  let r := m mod u in
  if 2 * r <? u then q * u
  else if u <? 2 * r then (q + 1) * u
  else if Z.even q then q * u else (q + 1) * u.

(** [x + 1] on a number [x >= 0] that is whole. *)
Definition Number_succ (x : Z) : Z := roundToDouble (x + 1).

(** The constructor: what [localStorage] holds under the three keys, each
    possibly missing, becomes the arrays; each counter restarts at the
    largest id plus one. *)
Definition loadFromLocalStorage
    (wordsData : option (list SavedWord))
    (meaningsData : option (list SavedMeaning.t))
    (examplesData : option (list SavedExample.t)) : store :=
  let ws := match wordsData with Some l => l | None => [] end in
  let ms := match meaningsData with Some l => l | None => [] end in
  let es := match examplesData with Some l => l | None => [] end in
  {| service :=
       {| words := ws;
          nextWordId := Number_succ (Math_max_0 (map id ws));
          localStorage_words := wordsData;
          localStorage_writes := 0;
          datachanged_events := 0;
          console := [] |};
     meanings := ms;
     examples := es;
     nextMeaningId := Number_succ (Math_max_0 (map SavedMeaning.id ms));
     nextExampleId := Number_succ (Math_max_0 (map SavedExample.id es)) |}.

Definition with_service (db : LocalDatabaseService) (s : store) : store :=
  {| service := db;
     meanings := meanings s;
     examples := examples s;
     nextMeaningId := nextMeaningId s;
     nextExampleId := nextExampleId s |}.

Definition saveToLocalStorage (s : store) : store :=
  with_service (Db.saveToLocalStorage (service s)) s.

Definition saveWord (now : Z) (word phonetic : string) (s : store) : Z * store :=
  let r := Db.saveWord now word phonetic (service s) in
  (fst r, with_service (snd r) s).

Definition saveExample (meaningId : Z) (sentence : string) (s : store) : store :=
  let newExample :=
    {| SavedExample.id := nextExampleId s;
       SavedExample.meaning_id := meaningId;
       SavedExample.sentence := sentence |} in
  saveToLocalStorage
    {| service := service s;
       meanings := meanings s;
       examples := examples s ++ [newExample];
       nextMeaningId := nextMeaningId s;
       nextExampleId := nextExampleId s + 1 |}.

Definition saveMeaning (wordId : Z) (meaning : WordMeaning.t) (s : store)
  : Z * store :=
  let newMeaning :=
    {| SavedMeaning.id := nextMeaningId s;
       SavedMeaning.word_id := wordId;
       SavedMeaning.partOfSpeech := WordMeaning.partOfSpeech meaning;
       SavedMeaning.englishDefinition := WordMeaning.englishDefinition meaning;
       SavedMeaning.koreanTranslation := WordMeaning.koreanTranslation meaning |} in
  let s1 :=
    {| service := service s;
       meanings := meanings s ++ [newMeaning];
       examples := examples s;
       nextMeaningId := nextMeaningId s + 1;
       nextExampleId := nextExampleId s |} in
  let s2 :=
    fold_left (fun acc sentence => saveExample (SavedMeaning.id newMeaning) sentence acc)
              (WordMeaning.exampleSentences meaning) s1 in
  (SavedMeaning.id newMeaning, saveToLocalStorage s2).

(** The object [getWordWithMeanings] returns: the word and, for each of its
    meanings, the meaning with the sentences of its examples. *)
Record WordWithMeanings : Type := {
  word : SavedWord;
  wordMeanings : list (SavedMeaning.t * list string)
}.

Definition examplesOf (meaning : SavedMeaning.t) (s : store) : list string :=
  map SavedExample.sentence
      (filter (fun e => SavedExample.meaning_id e =? SavedMeaning.id meaning)
              (examples s)).

Definition getWordWithMeanings (wordId : Z) (s : store)
  : option WordWithMeanings :=
  match Db.find_word wordId (words (service s)) with
  | None => None
  | Some w =>
      let wordMeanings :=
        filter (fun m => SavedMeaning.word_id m =? wordId) (meanings s) in
      Some {| word := w;
              wordMeanings := map (fun meaning => (meaning, examplesOf meaning s))
                                  wordMeanings |}
  end.

Definition deleteWord (wordId : Z) (s : store) : store :=
  let meaningsToDelete :=
    filter (fun m => SavedMeaning.word_id m =? wordId) (meanings s) in
  let meaningIdsToDelete := map SavedMeaning.id meaningsToDelete in
  saveToLocalStorage
    {| service :=
         Db.with_words (filter (fun w => negb (id w =? wordId)) (words (service s)))
                       (service s);
       meanings := filter (fun m => negb (SavedMeaning.word_id m =? wordId)) (meanings s);
       examples :=
         filter (fun e => negb (existsb (Z.eqb (SavedExample.meaning_id e))
                                        meaningIdsToDelete))
                (examples s);
       nextMeaningId := nextMeaningId s;
       nextExampleId := nextExampleId s |}.

Section WithMath.
Context {M : MathImpl} {Zone : TimeZone}.

Definition recordReview (now wordId : Z) (result : ReviewResult) (s : store)
  : completion unit * store :=
  let r := Db.recordReview now wordId result (service s) in
  (fst r, with_service (snd r) s).

End WithMath.

(** [Index.handleSaveSelected]: the word is saved first, then each selected
    meaning under the id that [saveWord] returned. *)
Definition handleSaveSelected (now : Z) (currentWord phonetic : string)
    (selectedMeanings : list WordMeaning.t) (s : store) : Z * store :=
  let r := saveWord now currentWord phonetic s in
  let wordId := fst r in
  (wordId,
   fold_left (fun acc meaning => snd (saveMeaning wordId meaning acc))
             selectedMeanings (snd r)).

Definition emptyStore : store := loadFromLocalStorage None None None.

(** The examples that [saveMeaning] appends for the sentences of a
    meaning: consecutive ids from [start]. *)
Fixpoint numbered (start meaningId : Z) (sentences : list string)
  : list SavedExample.t :=
  match sentences with
  | [] => []
  | sentence :: rest =>
      {| SavedExample.id := start;
         SavedExample.meaning_id := meaningId;
         SavedExample.sentence := sentence |}
      :: numbered (start + 1) meaningId rest
  end.

(** What a stored meaning and its sentences say, without ids. *)
Definition contentOf (entry : SavedMeaning.t * list string) : WordMeaning.t :=
  {| WordMeaning.partOfSpeech := SavedMeaning.partOfSpeech (fst entry);
     WordMeaning.englishDefinition := SavedMeaning.englishDefinition (fst entry);
     WordMeaning.koreanTranslation := SavedMeaning.koreanTranslation (fst entry);
     WordMeaning.exampleSentences := snd entry |}.

(** The meanings listed under an id, none when the id has no word. *)
Definition meaningsUnder (wordId : Z) (s : store)
  : list (SavedMeaning.t * list string) :=
  match getWordWithMeanings wordId s with
  | Some r => wordMeanings r
  | None => []
  end.

(** Ids are fresh and references resolve. *)
Record consistent (s : store) : Prop := {
  meaning_ids_distinct : NoDup (map SavedMeaning.id (meanings s));
  meaning_ids_below : forall m, In m (meanings s) -> SavedMeaning.id m < nextMeaningId s;
  example_ids_distinct : NoDup (map SavedExample.id (examples s));
  example_ids_below : forall e, In e (examples s) -> SavedExample.id e < nextExampleId s;
  examples_have_meaning :
    forall e, In e (examples s) ->
      exists m, In m (meanings s) /\ SavedMeaning.id m = SavedExample.meaning_id e;
  meanings_have_word :
    forall m, In m (meanings s) ->
      exists w, In w (words (service s)) /\ id w = SavedMeaning.word_id m
}.

End Vocabulary.

(** The stores the pages reach: from an empty [localStorage], by saving
    selected meanings of a word, recording reviews and deleting words. *)
Inductive reachable_store {M : MathImpl} {Zone : TimeZone} : Vocabulary.store -> Prop :=
| reachable_store_empty : reachable_store Vocabulary.emptyStore
| reachable_store_save (now : Z) (currentWord phonetic : string)
    (selectedMeanings : list WordMeaning.t) (s : Vocabulary.store) :
    reachable_store s ->
    reachable_store
      (snd (Vocabulary.handleSaveSelected now currentWord phonetic selectedMeanings s))
| reachable_store_review (now wordId : Z) (result : ReviewResult)
    (s : Vocabulary.store) :
    reachable_store s ->
    reachable_store (snd (Vocabulary.recordReview now wordId result s))
| reachable_store_delete (wordId : Z) (s : Vocabulary.store) :
    reachable_store s -> reachable_store (Vocabulary.deleteWord wordId s).

(** Sample services built with the operations themselves. *)
(** ** Study.tsx: the session lists

    [handleReview] merges the finished session into the last one through a
    [Map] keyed by word id, and [handleRepeatSession] removes duplicates the
    same way.  A [Map] is the list of its entries in insertion order:
    [set] on a key that is present replaces the value in place, on a new key
    it appends. *)

Module Study.

Definition Map (A : Type) : Type := list (Z * A).

Definition Map_has {A : Type} (key : Z) (m : Map A) : bool :=
  existsb (fun e => fst e =? key) m.

Definition Map_set {A : Type} (key : Z) (v : A) (m : Map A) : Map A :=
  if Map_has key m
  then map (fun e => if fst e =? key then (key, v) else e) m
  else m ++ [(key, v)].

Definition Map_values {A : Type} (m : Map A) : list A := map snd m.

(** [ws.forEach(word => sessionMap.set(word.id, word))] *)
Definition setAll (ws : list SavedWord) (sessionMap : Map SavedWord)
  : Map SavedWord :=
  fold_left (fun m word => Map_set (id word) word m) ws sessionMap.

(** [updatedLastSession] of [handleReview]. *)
Definition updatedLastSession (lastSessionWords reviewWords : list SavedWord)
  : list SavedWord :=
  Map_values (setAll reviewWords (setAll lastSessionWords [])).

(** [uniqueWords] of [handleRepeatSession]. *)
Definition uniqueWords (wordsToUse : list SavedWord) : list SavedWord :=
  Map_values (setAll wordsToUse []).

(** The entries of a session map: distinct keys, each the id of its word. *)
Definition keyed (m : Map SavedWord) : Prop :=
  NoDup (map fst m) /\ Forall (fun e => id (snd e) = fst e) m.

End Study.

Module Samples.
Import SeriesMath.

(** Two words registered at time 1000 and 2000. *)
Definition twoWords : LocalDatabaseService :=
  snd (Db.saveWord 2000 "Banana" "ba-na-na"
         (snd (Db.saveWord 1000 "apple" "ap-l" Db.emptyDb))).

(** The first of them graded Again a day later. *)
Definition afterAgain : LocalDatabaseService :=
  snd (Db.recordReview 90000000 1 AGAIN twoWords).

(** ... and graded Good two days after that. *)
Definition afterGood : LocalDatabaseService :=
  snd (Db.recordReview 270000000 1 GOOD afterAgain).

Definition appleMeaning : WordMeaning.t :=
  {| WordMeaning.partOfSpeech := "noun";
     WordMeaning.englishDefinition := "a round fruit";
     WordMeaning.koreanTranslation := "sagwa";
     WordMeaning.exampleSentences :=
       ["An apple a day."; "She ate an apple."]%string |}.

Definition appleVerb : WordMeaning.t :=
  {| WordMeaning.partOfSpeech := "verb";
     WordMeaning.englishDefinition := "to gather apples";
     WordMeaning.koreanTranslation := "sagwa ttada";
     WordMeaning.exampleSentences := ["They went appling."]%string |}.

(** A store with one word and one meaning, and the same store with a second
    word. *)
Definition oneWordStore : Vocabulary.store :=
  snd (Vocabulary.handleSaveSelected 1000 "apple" "ap-l" [appleMeaning]
         Vocabulary.emptyStore).

Definition twoWordStore : Vocabulary.store :=
  snd (Vocabulary.handleSaveSelected 2000 "Banana" "ba-na-na" [appleVerb]
         oneWordStore).

End Samples.

(** * Properties *)

(** ** Comparisons on rationals *)

Lemma Qlt_bool_iff (a b : Q) : Qlt_bool a b = true <-> (a < b)%Q.
Proof.
  unfold Qlt_bool. rewrite negb_true_iff, <- not_true_iff_false, Qle_bool_iff.
  split; intro H.
  - apply Qnot_le_lt. exact H.
  - apply Qlt_not_le. exact H.
Qed.

Lemma Qlt_bool_false_iff (a b : Q) : Qlt_bool a b = false <-> (b <= a)%Q.
Proof.
  unfold Qlt_bool. rewrite negb_false_iff. apply Qle_bool_iff.
Qed.

Lemma Qeq_bool_false_iff (a b : Q) : Qeq_bool a b = false <-> ~ (a == b)%Q.
Proof.
  rewrite <- not_true_iff_false, Qeq_bool_iff. tauto.
Qed.

Lemma Qle_bool_false_iff (a b : Q) : Qle_bool a b = false <-> (b < a)%Q.
Proof.
  rewrite <- not_true_iff_false, Qle_bool_iff. split; intro H.
  - apply Qnot_le_lt. exact H.
  - apply Qlt_not_le. exact H.
Qed.

(** Case analysis on the boolean tests of the embedding, leaving facts that
    [lra] reads. *)
Ltac q_case b :=
  let E := fresh "E" in
  destruct b eqn:E;
  [ first [ apply Qlt_bool_iff in E | apply Qle_bool_iff in E | apply Qeq_bool_iff in E ]
  | first [ apply Qlt_bool_false_iff in E | apply Qle_bool_false_iff in E
          | apply Qeq_bool_false_iff in E ] ].

Ltac q_cases :=
  repeat match goal with
  | |- context [Qlt_bool ?a ?b] => q_case (Qlt_bool a b)
  | |- context [Qle_bool ?a ?b] => q_case (Qle_bool a b)
  | |- context [Qeq_bool ?a ?b] => q_case (Qeq_bool a b)
  end.

Lemma inject_Z_minus_lt (a b c : Z) :
  a - b < c -> (inject_Z a + - inject_Z b < inject_Z c)%Q.
Proof.
  intro H. unfold Qlt, Qplus, Qopp, inject_Z. simpl. lia.
Qed.

Lemma inject_Z_minus_ge (a b c : Z) :
  c <= a - b -> (inject_Z c <= inject_Z a + - inject_Z b)%Q.
Proof.
  intro H. unfold Qle, Qplus, Qopp, inject_Z. simpl. lia.
Qed.

Lemma Qdiv_lt_iff (a b c : Q) : (0 < b)%Q -> (a / b < c <-> a < c * b)%Q.
Proof.
  intro Hb. split; intro H.
  - assert (Hab : (a / b * b == a)%Q) by (field; lra).
    rewrite <- Hab. apply Qmult_lt_compat_r; assumption.
  - apply Qlt_shift_div_r; assumption.
Qed.

(** ** The cooldown test *)

Lemma inCooldown_true_iff (now : Z) (p : FSRSParams) :
  Db.inCooldown now p = true <->
  exists last, last_review p = Some last /\ now - last < 50 * (1000 * 60).
Proof.
  unfold Db.inCooldown. destruct (last_review p) as [last|].
  - cbn [num_sub num_neg num_add num_div num_lt].
    change (Qeq_bool (inject_Z (1000 * 60)) 0) with false. cbv iota.
    cbn [num_lt]. rewrite Qlt_bool_iff.
    rewrite Qdiv_lt_iff by reflexivity. split.
    + intro H. exists last. split; [reflexivity|].
      unfold Qlt, Qplus, Qopp, Qmult, inject_Z in H. simpl in H. lia.
    + intros [l [Hl H]]. injection Hl as <-.
      unfold Qlt, Qplus, Qopp, Qmult, inject_Z. simpl. lia.
  - split; [discriminate|]. intros [l [Hl _]]. discriminate Hl.
Qed.

(** C1. A review that arrives less than 50 minutes after the stored
    [last_review] is skipped for cooldown: the promise resolves, the console
    receives the cooldown line, and nothing else changes -- the word array
    (hence the word's difficulty, stability, retrievability, last_review,
    next_review and review_count) is the same, [localStorage] is not written
    and no ['datachanged'] event is dispatched. *)
Theorem recordReview_cooldown_no_mutation {M : MathImpl} {Zone : TimeZone}
    (now wordId : Z) (result : ReviewResult) (db : LocalDatabaseService)
    (word : SavedWord) (txt : json_text) (p : FSRSParams) (last : Z) :
  Db.find_word wordId (words db) = Some word ->
  fsrs_params word = Some txt ->
  JSON_parse txt = Normal p ->
  last_review p = Some last ->
  now - last < 50 * (1000 * 60) ->
  exists db',
    Db.recordReview now wordId result db = (Normal tt, db') /\
    words db' = words db /\
    Db.find_word wordId (words db') = Some word /\
    nextWordId db' = nextWordId db /\
    localStorage_words db' = localStorage_words db /\
    localStorage_writes db' = localStorage_writes db /\
    datachanged_events db' = datachanged_events db /\
    console db' = console db ++ [log_cooldown_skipped wordId].
Proof.
  intros Hfind Htxt Hparse Hlast Hrecent.
  exists (Db.console_push (log_cooldown_skipped wordId) db).
  unfold Db.recordReview. rewrite Hfind, Htxt, Hparse.
  assert (Hcool : Db.inCooldown now p = true).
  { apply inCooldown_true_iff. exists last. split; assumption. }
  rewrite Hcool. cbn [Db.console_push words nextWordId localStorage_words
    localStorage_writes datachanged_events console].
  repeat split; try reflexivity. exact Hfind.
Qed.

(** Ten minutes after the last review. *)
Lemma recordReview_cooldown_no_mutation_witness :
  exists db',
    Db.recordReview (M := SeriesMath.seriesMath) (1000 + 10 * 60 * 1000) 1 GOOD
      (Examples.reviewedDb 1000) = (Normal tt, db') /\
    words db' = words (Examples.reviewedDb 1000) /\
    Db.find_word 1 (words db') = Some (Examples.reviewedWord 1000) /\
    nextWordId db' = 2 /\
    localStorage_words db' = Some [Examples.reviewedWord 1000] /\
    localStorage_writes db' = 2%nat /\
    datachanged_events db' = 2%nat /\
    console db' = [] ++ [log_cooldown_skipped 1].
Proof.
  apply (recordReview_cooldown_no_mutation (M := SeriesMath.seriesMath)
           (1000 + 10 * 60 * 1000) 1 GOOD (Examples.reviewedDb 1000)
           (Examples.reviewedWord 1000)
           (ObjectText (Examples.reviewedParams 1000))
           (Examples.reviewedParams 1000) 1000);
    try reflexivity.
Defined.

(** ** The update rule of [FSRSService] *)

Section UpdateRule.
Context {M : MathImpl} {Zone : TimeZone}.
Import FSRSService.

Lemma Math_max_Fin (a b : Q) :
  Math_max (Fin a) (Fin b) = Fin (if Qlt_bool a b then b else a).
Proof. unfold Math_max. cbn. destruct (Qlt_bool a b); reflexivity. Qed.

Lemma Math_min_Fin (a b : Q) :
  Math_min (Fin a) (Fin b) = Fin (if Qlt_bool b a then b else a).
Proof. unfold Math_min. cbn. destruct (Qlt_bool b a); reflexivity. Qed.

Lemma Math_max_Fin_Qmax (a b : Q) :
  exists m, Math_max (Fin a) (Fin b) = Fin m /\ (m == Qmax a b)%Q.
Proof.
  rewrite Math_max_Fin. q_case (Qlt_bool a b); eexists; split; try reflexivity.
  - symmetry. apply Q.max_r. apply Qlt_le_weak. exact E.
  - symmetry. apply Q.max_l. exact E.
Qed.

Lemma Math_min_Fin_Qmin (a b : Q) :
  exists m, Math_min (Fin a) (Fin b) = Fin m /\ (m == Qmin a b)%Q.
Proof.
  rewrite Math_min_Fin. q_case (Qlt_bool b a); eexists; split; try reflexivity.
  - symmetry. apply Q.min_r. apply Qlt_le_weak. exact E.
  - symmetry. apply Q.min_l. exact E.
Qed.

Lemma Math_exp_Fin (q : Q) : exists e, Math_exp (Fin q) = Fin e.
Proof.
  unfold Math_exp. destruct (Qeq_bool q 0); eexists; reflexivity.
Qed.

Lemma Math_log_0_9 : Math_log (Fin (9 # 10)) = Fin (log_fin (9 # 10)).
Proof. reflexivity. Qed.

Lemma ToIntegerOrInfinity_inject_Z (z : Z) : ToIntegerOrInfinity (inject_Z z) = z.
Proof.
  unfold ToIntegerOrInfinity.
  destruct (Qlt_bool (inject_Z z) 0); [apply Qceiling_Z | apply Qfloor_Z].
Qed.

(** The update returns normally exactly when the interval is a finite
    number; otherwise [toISOString] throws on the Invalid Date. *)
Lemma calculateNextReview_finite_interval
    (now : Z) (p : FSRSParams) (r : ReviewResult) (i : Q) :
  calculateInterval (updatedStability now p r) (updatedDifficulty p r) r = Fin i ->
  calculateNextReview now p r =
  Normal {| difficulty := Num (updatedDifficulty p r);
            stability := Num (updatedStability now p r);
            retrievability := updatedRetrievability now p;
            last_review := Some now;
            next_review := UTC (LocalTime now + Qround_half_up i * msPerDay);
            review_count := Num (ToNumber (review_count p) + Fin 1)%js |}.
Proof.
  intro Hi. unfold calculateNextReview. rewrite Hi.
  cbn [Math_round setDate_plus toISOString].
  rewrite ToIntegerOrInfinity_inject_Z. reflexivity.
Qed.

Lemma calculateNextReview_Normal_inv
    (now : Z) (p p' : FSRSParams) (r : ReviewResult) :
  calculateNextReview now p r = Normal p' ->
  difficulty p' = Num (updatedDifficulty p r) /\
  stability p' = Num (updatedStability now p r) /\
  retrievability p' = updatedRetrievability now p /\
  last_review p' = Some now /\
  review_count p' = Num (ToNumber (review_count p) + Fin 1)%js.
Proof.
  unfold calculateNextReview.
  destruct (toISOString _) as [next|e]; [|discriminate].
  intro H. injection H as <-. cbn. repeat split; reflexivity.
Qed.

Lemma calculateInterval_Fin (s d : Q) (r : ReviewResult) :
  exists i, calculateInterval (Fin s) (Fin d) r = Fin i.
Proof.
  unfold calculateInterval. destruct (ReviewResult_eqb r AGAIN).
  - eexists; reflexivity.
  - rewrite Math_log_0_9. cbn [num_mul num_div].
    destruct (Qeq_bool (log_fin (9 # 10)) 0) eqn:E.
    + apply Qeq_bool_iff in E. destruct (log_fin_0_9 E).
    + destruct (Math_exp_Fin (- (1 # 10) * d)) as [e He]. rewrite He.
      cbn [num_mul]. rewrite Math_max_Fin. eexists; reflexivity.
Qed.

Lemma updatedDifficulty_Fin (p : FSRSParams) (r : ReviewResult) (d : Q) :
  ToNumber (difficulty p) = Fin d ->
  exists d', updatedDifficulty p r = Fin d' /\ (0 <= d' <= 10)%Q /\
    forall delta, getDifficultyChange r = Fin delta ->
      (d' == Qmax 0 (Qmin 10 (d + delta)))%Q.
Proof.
  intro Hd. unfold updatedDifficulty. rewrite Hd.
  assert (Hdelta : exists delta, getDifficultyChange r = Fin delta)
    by (destruct r; eexists; reflexivity).
  destruct Hdelta as [delta Hdelta]. rewrite Hdelta. cbn [num_add].
  rewrite Math_min_Fin, Math_max_Fin. eexists. split; [reflexivity|].
  split.
  - q_case (Qlt_bool (d + delta) 10); q_cases; lra.
  - intros delta' H. injection H as <-.
    destruct (Q.min_spec 10 (d + delta)) as [[? Hm]|[? Hm]];
      destruct (Q.max_spec 0 (Qmin 10 (d + delta))) as [[? Hx]|[? Hx]];
      q_case (Qlt_bool (d + delta) 10); q_cases; lra.
Qed.

End UpdateRule.

Section AgainAndFirstReview.
Context {M : MathImpl} {Zone : TimeZone}.
Import FSRSService.

(** With [Math.round(0.25) = 0] the day count that [setDate] adds is 0: the
    next review is the instant of the local time of [now]. *)
Lemma calculateNextReview_AGAIN_next_review (now : Z) (p p' : FSRSParams) :
  calculateNextReview now p AGAIN = Normal p' ->
  next_review p' = UTC (LocalTime now).
Proof.
  rewrite (calculateNextReview_finite_interval now p AGAIN (25 # 100))
    by reflexivity.
  intro H. injection H as <-. cbn [next_review].
  change (Qround_half_up (25 # 100)) with 0. f_equal. lia.
Qed.

(** So the word is due again at once. *)
Lemma calculateNextReview_AGAIN_due (now : Z) (p p' : FSRSParams) :
  calculateNextReview now p AGAIN = Normal p' -> next_review p' <= now.
Proof.
  intro H. rewrite (calculateNextReview_AGAIN_next_review now p p' H).
  apply UTC_LocalTime_le.
Qed.

(** C4. Outcome Again: the update always returns and the new stability is
    [Math.max(0.1, stability * 0.2)] -- for a finite prior stability [S] the
    number max(0.1, S*0.2).  [calculateInterval] returns the fixed 0.25 days,
    but the stored date does not lie 0.25 days ahead: [Math.round] makes the
    interval 0 days, so [next_review] is the instant of the local time of
    [now], never later than [now] and never [now] plus 6 hours; in a zone
    with a fixed offset it is [now] itself. *)
Theorem calculateNextReview_AGAIN_no_delay (now : Z) (p : FSRSParams) :
  exists p',
    calculateNextReview now p AGAIN = Normal p' /\
    stability p' =
      Num (Math_max (Fin (1 # 10)) (ToNumber (stability p) * Fin (2 # 10))%js) /\
    (forall S, ToNumber (stability p) = Fin S ->
       exists S', stability p' = Num (Fin S') /\
                  (S' == Qmax (1 # 10) (S * (2 # 10)))%Q) /\
    calculateInterval (updatedStability now p AGAIN) (updatedDifficulty p AGAIN) AGAIN
      = Fin (25 # 100) /\
    Math_round (Fin (25 # 100)) = Fin 0 /\
    next_review p' = UTC (LocalTime now) /\
    next_review p' <= now /\
    next_review p' <> now + Spec.Again_interval /\
    (fixed_offset Zone -> next_review p' = now).
Proof.
  pose proof (calculateNextReview_finite_interval now p AGAIN (25 # 100) eq_refl)
    as Hret.
  pose proof (calculateNextReview_AGAIN_next_review now p _ Hret) as Hnext.
  pose proof (calculateNextReview_AGAIN_due now p _ Hret) as Hdue.
  eexists. split; [exact Hret|].
  split; [reflexivity|]. split.
  { intros S HS. cbn [stability]. unfold updatedStability. cbn [ReviewResult_eqb].
    rewrite HS. cbn [num_mul].
    destruct (Math_max_Fin_Qmax (1 # 10) (S * (2 # 10))) as [m [Hm Hmax]].
    exists m. rewrite Hm. split; [reflexivity | exact Hmax]. }
  split; [reflexivity|]. split; [reflexivity|].
  split; [exact Hnext|]. split; [exact Hdue|]. split.
  - assert (0 < Spec.Again_interval) by reflexivity. lia.
  - intros [tz [Hlocal Hutc]]. rewrite Hnext, Hlocal, Hutc. lia.
Qed.

(** Without a previous review and with retrievability 1 the stability
    increase of a graded review is 0. *)
Lemma updatedStability_without_history
    (now : Z) (p : FSRSParams) (r : ReviewResult) (d s q : Q) :
  last_review p = None ->
  ToNumber (retrievability p) = Fin q ->
  (q == 1)%Q ->
  ToNumber (difficulty p) = Fin d ->
  ToNumber (stability p) = Fin s ->
  r <> AGAIN ->
  exists inc,
    getStabilityIncrease r (updatedDifficulty p r)
      (ToNumber (updatedRetrievability now p)) = Fin inc /\
    (inc == 0)%Q /\
    updatedStability now p r = Fin (s * (1 + inc)).
Proof.
  intros Hlast Hq Hq1 Hd Hs Hr.
  destruct (updatedDifficulty_Fin p r d Hd) as [d' [Hd' _]].
  assert (Hret : updatedRetrievability now p = retrievability p).
  { unfold updatedRetrievability. rewrite Hlast. reflexivity. }
  assert (Hinc : exists inc,
    getStabilityIncrease r (updatedDifficulty p r)
      (ToNumber (updatedRetrievability now p)) = Fin inc /\ (inc == 0)%Q).
  { rewrite Hret, Hq, Hd'. unfold getStabilityIncrease, DIFFICULTY_DECAY.
    cbn [num_sub num_neg num_add num_mul].
    destruct (Math_exp_Fin (- (5 # 10) * d')) as [e He]. rewrite He.
    destruct r; [contradiction Hr; reflexivity | | | ];
      cbn [num_mul]; eexists; (split; [reflexivity|]);
      rewrite Hq1; ring. }
  destruct Hinc as [inc [Hinc Hinc0]].
  exists inc. split; [exact Hinc|]. split; [exact Hinc0|].
  unfold updatedStability.
  replace (ReviewResult_eqb r AGAIN) with false
    by (destruct r; [contradiction Hr|..]; reflexivity).
  rewrite Hinc, Hs. reflexivity.
Qed.

(** C10. A state never reviewed ([last_review] absent) whose retrievability
    is 1: a review graded Hard, Good or Easy returns, its stability increase
    is 0, and the stability is the one before. *)
Theorem first_graded_review_keeps_stability
    (now : Z) (p : FSRSParams) (r : ReviewResult) (d s q : Q) :
  last_review p = None ->
  ToNumber (retrievability p) = Fin q ->
  (q == 1)%Q ->
  ToNumber (difficulty p) = Fin d ->
  ToNumber (stability p) = Fin s ->
  r <> AGAIN ->
  exists p' s' inc,
    calculateNextReview now p r = Normal p' /\
    getStabilityIncrease r (updatedDifficulty p r)
      (ToNumber (updatedRetrievability now p)) = Fin inc /\
    (inc == 0)%Q /\
    stability p' = Num (Fin s') /\
    (s' == s)%Q.
Proof.
  intros Hlast Hq Hq1 Hd Hs Hr.
  destruct (updatedDifficulty_Fin p r d Hd) as [d' [Hd' _]].
  destruct (updatedStability_without_history now p r d s q Hlast Hq Hq1 Hd Hs Hr)
    as [inc [Hinc [Hinc0 Hstab]]].
  destruct (calculateInterval_Fin (s * (1 + inc)) d' r) as [i Hi].
  exists {| difficulty := Num (updatedDifficulty p r);
            stability := Num (updatedStability now p r);
            retrievability := updatedRetrievability now p;
            last_review := Some now;
            next_review := UTC (LocalTime now + Qround_half_up i * msPerDay);
            review_count := Num (ToNumber (review_count p) + Fin 1)%js |},
         (s * (1 + inc))%Q, inc.
  split.
  - apply calculateNextReview_finite_interval. rewrite Hstab, Hd'. exact Hi.
  - split; [exact Hinc|]. split; [exact Hinc0|]. cbn [stability].
    rewrite Hstab. split; [reflexivity|]. rewrite Hinc0. ring.
Qed.

End AgainAndFirstReview.

(** The state [initializeParams] returns, graded Good. *)
Lemma first_graded_review_keeps_stability_witness :
  exists p' s' inc,
    FSRSService.calculateNextReview (M := SeriesMath.seriesMath) 5000
      (FSRSService.initializeParams 0) GOOD = Normal p' /\
    FSRSService.getStabilityIncrease (M := SeriesMath.seriesMath) GOOD
      (FSRSService.updatedDifficulty (FSRSService.initializeParams 0) GOOD)
      (ToNumber (FSRSService.updatedRetrievability (M := SeriesMath.seriesMath)
                   5000 (FSRSService.initializeParams 0))) = Fin inc /\
    (inc == 0)%Q /\
    stability p' = Num (Fin s') /\
    (s' == 4 # 10)%Q.
Proof.
  apply (first_graded_review_keeps_stability (M := SeriesMath.seriesMath)
           5000 (FSRSService.initializeParams 0) GOOD 0 (4 # 10) 1);
    try reflexivity.
  discriminate.
Defined.

(** A reviewed word graded Again, the host on UTC: stability 0.4 collapses
    to 0.1 and the next review is dated at the review itself. *)
Lemma calculateNextReview_AGAIN_no_delay_witness :
  exists p' S',
    FSRSService.calculateNextReview (M := SeriesMath.seriesMath) (Zone := utcZone)
      90000000 (Examples.reviewedParams 1000) AGAIN = Normal p' /\
    stability p' = Num (Fin S') /\
    (S' == Qmax (1 # 10) ((4 # 10) * (2 # 10)))%Q /\
    next_review p' = 90000000.
Proof.
  destruct (calculateNextReview_AGAIN_no_delay (M := SeriesMath.seriesMath)
              (Zone := utcZone) 90000000 (Examples.reviewedParams 1000))
    as [p' [Hret [_ [Hfin [_ [_ [_ [_ [_ Hnext]]]]]]]]].
  destruct (Hfin (4 # 10) eq_refl) as [S' [HS' Hmax]].
  exists p', S'. repeat split; try assumption.
  apply Hnext. exists 0. split; intro t; reflexivity.
Defined.

(** ** Difficulty stays within 0 and 10 *)

Section DifficultyBound.
Context {M : MathImpl} {Zone : TimeZone}.
Import FSRSService.

Lemma find_word_In (wordId : Z) (ws : list SavedWord) (w : SavedWord) :
  Db.find_word wordId ws = Some w -> In w ws /\ id w = wordId.
Proof.
  unfold Db.find_word. intro H. apply find_some in H.
  destruct H as [Hin Hid]. split; [exact Hin | lia].
Qed.

Lemma assign_fsrs_params_Forall (P : SavedWord -> Prop) (wordId : Z)
    (txt : json_text) (ws : list SavedWord) :
  (forall w, P w -> P (Db.with_fsrs_params txt w)) ->
  Forall P ws -> Forall P (Db.assign_fsrs_params wordId txt ws).
Proof.
  intros Hupd Hall. induction Hall as [|w ws Hw Hws IH]; cbn.
  - constructor.
  - destruct (id w =? wordId); constructor; auto.
Qed.

Lemma saveWord_difficulty (now : Z) (word phonetic : string)
    (db : LocalDatabaseService) :
  Forall difficulty_in_range (words db) ->
  Forall difficulty_in_range (words (snd (Db.saveWord now word phonetic db))).
Proof.
  intro Hall. unfold Db.saveWord.
  destruct (find _ (words db)); cbn; [exact Hall|].
  apply Forall_app. split; [exact Hall|]. constructor; [|constructor].
  eexists _, 0%Q. cbn. repeat split; try reflexivity; lra.
Qed.

Lemma recordReview_difficulty (now wordId : Z) (result : ReviewResult)
    (db : LocalDatabaseService) :
  Forall difficulty_in_range (words db) ->
  Forall difficulty_in_range (words (snd (Db.recordReview now wordId result db))).
Proof.
  intro Hall. unfold Db.recordReview.
  destruct (Db.find_word wordId (words db)) as [word|] eqn:Hfind; [|exact Hall].
  destruct (find_word_In _ _ _ Hfind) as [Hin _].
  rewrite Forall_forall in Hall. destruct (Hall word Hin) as [p [d [Htxt [Hd Hrange]]]].
  rewrite Htxt. cbn [JSON_parse].
  destruct (Db.inCooldown now p); [apply Forall_forall; exact Hall|].
  destruct (calculateNextReview now p result) as [p'|e] eqn:Hnext;
    [|apply Forall_forall; exact Hall].
  cbn [snd]. unfold Db.updateFSRSParams. rewrite Hfind. cbn [words Db.saveToLocalStorage Db.with_words].
  apply assign_fsrs_params_Forall; [|apply Forall_forall; exact Hall].
  intros w _.
  destruct (calculateNextReview_Normal_inv _ _ _ _ Hnext) as [Hd' _].
  destruct (updatedDifficulty_Fin p result d) as [d' [Hd'' [Hrange' _]]].
  { rewrite Hd. reflexivity. }
  eexists _, d'. cbn. split; [reflexivity|]. split; [|exact Hrange'].
  rewrite Hd', Hd''. reflexivity.
Qed.

Lemma reachable_difficulty (db : LocalDatabaseService) :
  reachable db -> Forall difficulty_in_range (words db).
Proof.
  induction 1 as [|now word phonetic db _ IH|now wordId result db _ IH|wordId db _ IH].
  - constructor.
  - apply saveWord_difficulty. exact IH.
  - apply recordReview_difficulty. exact IH.
  - cbn. rewrite Forall_forall in *. intros w Hw.
    apply filter_In in Hw. apply IH. tauto.
Qed.

(** C5. The update adds the outcome's [Delta] to the difficulty and clamps
    the sum to the interval from 0 to 10; every word of every reachable
    service holds a difficulty between 0 and 10. *)
Theorem difficulty_update_and_bound :
  (forall r, getDifficultyChange r = Fin (Spec.Delta r)) /\
  (forall now p r p',
      calculateNextReview now p r = Normal p' ->
      difficulty p' =
        Num (Math_max (Fin 0)
               (Math_min (Fin 10) (ToNumber (difficulty p) + Fin (Spec.Delta r))%js))) /\
  (forall now p r p' d,
      calculateNextReview now p r = Normal p' ->
      ToNumber (difficulty p) = Fin d ->
      exists d', difficulty p' = Num (Fin d') /\
                 (d' == Spec.clamp (d + Spec.Delta r) 0 10)%Q) /\
  (forall db, reachable db ->
      forall w, In w (words db) ->
      exists p d, fsrs_params w = Some (ObjectText p) /\
                  difficulty p = Num (Fin d) /\ (0 <= d <= 10)%Q).
Proof.
  assert (Hdelta : forall r, getDifficultyChange r = Fin (Spec.Delta r))
    by (destruct r; reflexivity).
  split; [exact Hdelta|]. split; [|split].
  - intros now p r p' Hnext.
    destruct (calculateNextReview_Normal_inv _ _ _ _ Hnext) as [Hd' _].
    rewrite Hd'. unfold updatedDifficulty. rewrite Hdelta. reflexivity.
  - intros now p r p' d Hnext Hd.
    destruct (calculateNextReview_Normal_inv _ _ _ _ Hnext) as [Hd' _].
    destruct (updatedDifficulty_Fin p r d Hd) as [d' [Hd'' [_ Hclamp]]].
    exists d'. rewrite Hd', Hd''. split; [reflexivity|].
    unfold Spec.clamp. apply Hclamp. apply Hdelta.
  - intros db Hreach w Hin.
    pose proof (reachable_difficulty db Hreach) as Hall.
    rewrite Forall_forall in Hall. exact (Hall w Hin).
Qed.

End DifficultyBound.

(** A reviewed word graded Good, and a fresh word graded Again. *)
Lemma difficulty_update_and_bound_witness :
  (exists p' d',
     FSRSService.calculateNextReview (M := SeriesMath.seriesMath) 90000000
       (Examples.reviewedParams 1000) GOOD = Normal p' /\
     difficulty p' = Num (Fin d') /\
     (d' == Spec.clamp ((3 # 10) + Spec.Delta GOOD) 0 10)%Q) /\
  (exists w p d,
     In w (words (snd (Db.recordReview (M := SeriesMath.seriesMath)
                         90000000 1 AGAIN Examples.freshDb))) /\
     fsrs_params w = Some (ObjectText p) /\
     difficulty p = Num (Fin d) /\ (0 <= d <= 10)%Q).
Proof.
  destruct (difficulty_update_and_bound (M := SeriesMath.seriesMath))
    as [_ [_ [Hclamp Hreach]]].
  split.
  - assert (E : exists p',
      FSRSService.calculateNextReview (M := SeriesMath.seriesMath) 90000000
        (Examples.reviewedParams 1000) GOOD = Normal p')
      by (vm_compute; eexists; reflexivity).
    destruct E as [p' E].
    destruct (Hclamp _ _ _ _ (3 # 10)%Q E eq_refl) as [d' [Hd' Heq]].
    exists p', d'. repeat split; assumption.
  - assert (Hw : exists w,
      In w (words (snd (Db.recordReview (M := SeriesMath.seriesMath)
                          90000000 1 AGAIN Examples.freshDb))))
      by (vm_compute; eexists; left; reflexivity).
    destruct Hw as [w Hw].
    destruct (Hreach _ (reachable_recordReview 90000000 1 AGAIN _
                          (reachable_saveWord 1000 "apple" "ap-l" _ reachable_empty))
                     w Hw)
      as [p [d H]].
    exists w, p, d. split; [exact Hw | exact H].
Defined.

(** ** When the update returns *)

Section UpdateReturns.
Context {M : MathImpl} {Zone : TimeZone}.
Import FSRSService.

Lemma elapsed_days_Fin (now last : Z) :
  exists e,
    ((Fin (inject_Z now) - Fin (inject_Z last))
     / Fin (inject_Z (1000 * 60 * 60 * 24)))%js = Fin e /\
    (last < now -> (0 < e)%Q).
Proof.
  eexists. split; [reflexivity|]. intro Hlt.
  apply Qlt_shift_div_l; [reflexivity|].
  unfold Qlt, Qplus, Qopp, Qmult, inject_Z. simpl. lia.
Qed.

Lemma Math_pow_0_9_Fin (x : number) :
  x = PInf \/ (exists e, x = Fin e) ->
  exists q, Math_pow (Fin (9 # 10)) x = Fin q.
Proof.
  intros [->|[e ->]].
  - eexists; reflexivity.
  - unfold Math_pow. destruct (Qeq_bool e 0); eexists; reflexivity.
Qed.

Lemma updatedRetrievability_Fin (now : Z) (p : FSRSParams) (s q : Q) :
  ToNumber (stability p) = Fin s ->
  (last_review p = None /\ ToNumber (retrievability p) = Fin q) \/
  (exists last, last_review p = Some last /\ last < now) ->
  exists q', ToNumber (updatedRetrievability now p) = Fin q'.
Proof.
  intros Hs [[Hnone Hq]|[last [Hlast Hlt]]]; unfold updatedRetrievability.
  - rewrite Hnone. exists q. exact Hq.
  - rewrite Hlast. destruct (elapsed_days_Fin now last) as [e [He Hpos]].
    rewrite He, Hs. cbn [ToNumber]. apply Math_pow_0_9_Fin.
    specialize (Hpos Hlt). cbn [num_div].
    q_case (Qeq_bool s 0).
    + left. q_case (Qeq_bool e 0); [lra|].
      q_case (Qlt_bool 0 e); [reflexivity | lra].
    + right. eexists; reflexivity.
Qed.

Lemma getStabilityIncrease_Fin (r : ReviewResult) (d q : Q) :
  exists inc, getStabilityIncrease r (Fin d) (Fin q) = Fin inc.
Proof.
  unfold getStabilityIncrease, DIFFICULTY_DECAY. cbn [num_sub num_neg num_add num_mul].
  destruct (Math_exp_Fin (- (5 # 10) * d)) as [e He]. rewrite He.
  destruct r; eexists; reflexivity.
Qed.

Lemma updatedStability_Fin (now : Z) (p : FSRSParams) (r : ReviewResult) (d s q : Q) :
  ToNumber (difficulty p) = Fin d ->
  ToNumber (stability p) = Fin s ->
  (last_review p = None /\ ToNumber (retrievability p) = Fin q) \/
  (exists last, last_review p = Some last /\ last < now) ->
  exists s', updatedStability now p r = Fin s'.
Proof.
  intros Hd Hs Hlast. unfold updatedStability.
  destruct (ReviewResult_eqb r AGAIN).
  - rewrite Hs. cbn [num_mul]. rewrite Math_max_Fin. eexists; reflexivity.
  - destruct (updatedDifficulty_Fin p r d Hd) as [d' [Hd' _]].
    destruct (updatedRetrievability_Fin now p s q Hs Hlast) as [q' Hq'].
    rewrite Hd', Hq', Hs.
    destruct (getStabilityIncrease_Fin r d' q') as [inc Hinc]. rewrite Hinc.
    eexists; reflexivity.
Qed.

(** A state with a numeric difficulty and stability that was never reviewed,
    or was last reviewed before [now]: the update returns. *)
Lemma calculateNextReview_returns
    (now : Z) (p : FSRSParams) (r : ReviewResult) (d s q : Q) :
  ToNumber (difficulty p) = Fin d ->
  ToNumber (stability p) = Fin s ->
  (last_review p = None /\ ToNumber (retrievability p) = Fin q) \/
  (exists last, last_review p = Some last /\ last < now) ->
  exists p', calculateNextReview now p r = Normal p'.
Proof.
  intros Hd Hs Hlast.
  destruct (updatedDifficulty_Fin p r d Hd) as [d' [Hd' _]].
  destruct (updatedStability_Fin now p r d s q Hd Hs Hlast) as [s' Hs'].
  destruct (calculateInterval_Fin s' d' r) as [i Hi].
  eexists. apply (calculateNextReview_finite_interval now p r i).
  rewrite Hs', Hd'. exact Hi.
Qed.

Lemma calculateNextReview_initializeParams (now : Z) (r : ReviewResult) :
  exists p', calculateNextReview now (initializeParams now) r = Normal p'.
Proof.
  apply (calculateNextReview_returns now _ r 0 (4 # 10) 1); try reflexivity.
  left. split; reflexivity.
Qed.

End UpdateReturns.

(** ** What [recordReview] reports *)

Section RecordReviewOutcome.
Context {M : MathImpl} {Zone : TimeZone}.
Import FSRSService.

(** C3, as the code has it.  Stored data that does not parse makes
    [recordReview] log the failure and reject with the error
    "Failed to update FSRS parameters."; the word keeps its stored text and
    nothing is persisted.  Only a word without stored data is treated as
    having no prior state: [initializeParams()] is the base of the update,
    which is then stored. *)
Theorem recordReview_unparseable_or_absent_state
    (now wordId : Z) (result : ReviewResult) (db : LocalDatabaseService)
    (word : SavedWord) :
  Db.find_word wordId (words db) = Some word ->
  (fsrs_params word = Some Garbled ->
     Db.recordReview now wordId result db =
       (Throw Db.failed_to_update,
        Db.console_push (error_recording_review wordId SyntaxError) db)) /\
  (fsrs_params word = None ->
     exists p',
       calculateNextReview now (initializeParams now) result = Normal p' /\
       Db.recordReview now wordId result db =
         (Normal tt, Db.updateFSRSParams wordId p' db) /\
       Db.find_word wordId (words (Db.updateFSRSParams wordId p' db)) =
         Some (Db.with_fsrs_params (JSON_stringify p') word)).
Proof.
  intro Hfind. split; intro Htxt; unfold Db.recordReview; rewrite Hfind, Htxt.
  - reflexivity.
  - destruct (calculateNextReview_initializeParams now result) as [p' Hp'].
    exists p'. split; [exact Hp'|].
    cbn [Db.inCooldown initializeParams last_review]. rewrite Hp'.
    split; [reflexivity|].
    unfold Db.updateFSRSParams. rewrite Hfind.
    cbn [words Db.saveToLocalStorage Db.with_words].
    clear Hp' Htxt. revert Hfind. unfold Db.find_word.
    induction (words db) as [|w ws IH]; cbn; [discriminate|].
    destruct (id w =? wordId) eqn:E.
    + intro H. injection H as ->. cbn. rewrite E. reflexivity.
    + intro H. cbn. rewrite E. apply IH. exact H.
Qed.

(** C9, as the code has it.  For an id without a record [recordReview] logs
    that the word was not found, changes nothing else and resolves without a
    value, as an accepted and a skipped review do.  A rejection carries the
    error "Failed to update FSRS parameters." and comes from a word that was
    found, never from a missing word or a cooldown. *)
Theorem recordReview_not_found_resolves
    (now wordId : Z) (result : ReviewResult) (db : LocalDatabaseService) :
  (Db.find_word wordId (words db) = None ->
     Db.recordReview now wordId result db =
       (Normal tt, Db.console_push (error_word_not_found wordId) db)) /\
  (forall e, fst (Db.recordReview now wordId result db) = Throw e ->
     e = Db.failed_to_update /\
     exists word, Db.find_word wordId (words db) = Some word /\
       match fsrs_params word with
       | Some txt =>
           match JSON_parse txt with
           | Throw _ => True
           | Normal p =>
               Db.inCooldown now p = false /\
               exists e', calculateNextReview now p result = Throw e'
           end
       | None => False
       end).
Proof.
  split.
  - intro Hfind. unfold Db.recordReview. rewrite Hfind. reflexivity.
  - intro e. unfold Db.recordReview.
    destruct (Db.find_word wordId (words db)) as [word|]; [|discriminate].
    destruct (fsrs_params word) as [txt|] eqn:Htxt.
    + destruct (JSON_parse txt) as [p|e0] eqn:Hparse.
      * destruct (Db.inCooldown now p) eqn:Hcool; [discriminate|].
        destruct (calculateNextReview now p result) as [p'|e'] eqn:Hnext;
          [discriminate|].
        cbn [fst]. intro H. injection H as <-. split; [reflexivity|].
        exists word. split; [reflexivity|]. rewrite Htxt, Hparse.
        split; [exact Hcool|]. exists e'. exact Hnext.
      * cbn [fst]. intro H. injection H as <-. split; [reflexivity|].
        exists word. split; [reflexivity|]. rewrite Htxt, Hparse. exact I.
    + cbn [Db.inCooldown initializeParams last_review].
      destruct (calculateNextReview_initializeParams now result) as [p' Hp'].
      rewrite Hp'. discriminate.
Qed.

End RecordReviewOutcome.

(** The stored text of word 1 is not JSON: the review is not accepted. *)
Lemma recordReview_unparseable_counterexample :
  Db.find_word 1 (words Examples.garbledDb) = Some Examples.garbledWord /\
  fsrs_params Examples.garbledWord = Some Garbled /\
  ~ (exists db' p',
       Db.recordReview (M := SeriesMath.seriesMath) 5000 1 GOOD Examples.garbledDb
         = (Normal tt, db') /\
       FSRSService.calculateNextReview (M := SeriesMath.seriesMath) 5000
         (FSRSService.initializeParams 5000) GOOD = Normal p' /\
       Db.find_word 1 (words db') =
         Some (Db.with_fsrs_params (JSON_stringify p') Examples.garbledWord)).
Proof.
  split; [reflexivity|]. split; [reflexivity|].
  intros [db' [p' [H _]]]. vm_compute in H. discriminate H.
Qed.

Lemma recordReview_unparseable_or_absent_state_witness :
  Db.recordReview (M := SeriesMath.seriesMath) 5000 1 GOOD Examples.garbledDb =
    (Throw Db.failed_to_update,
     Db.console_push (error_recording_review 1 SyntaxError) Examples.garbledDb) /\
  exists p',
    FSRSService.calculateNextReview (M := SeriesMath.seriesMath) 5000
      (FSRSService.initializeParams 5000) GOOD = Normal p' /\
    Db.recordReview (M := SeriesMath.seriesMath) 5000 1 GOOD Examples.bareDb =
      (Normal tt, Db.updateFSRSParams 1 p' Examples.bareDb) /\
    Db.find_word 1 (words (Db.updateFSRSParams 1 p' Examples.bareDb)) =
      Some (Db.with_fsrs_params (JSON_stringify p') Examples.bareWord).
Proof.
  split.
  - apply (recordReview_unparseable_or_absent_state (M := SeriesMath.seriesMath)
             5000 1 GOOD Examples.garbledDb Examples.garbledWord);
      reflexivity.
  - apply (recordReview_unparseable_or_absent_state (M := SeriesMath.seriesMath)
             5000 1 GOOD Examples.bareDb Examples.bareWord);
      reflexivity.
Defined.

(** Word 7 does not exist, word 1 does: a review of the missing word, an
    accepted review and a review inside the cooldown complete alike, and a
    review of unparseable data is raised as a fault. *)
Lemma recordReview_not_found_counterexample :
  Db.find_word 7 (words (Examples.reviewedDb 1000)) = None /\
  fst (Db.recordReview (M := SeriesMath.seriesMath) 90000000 7 GOOD
         (Examples.reviewedDb 1000)) =
  fst (Db.recordReview (M := SeriesMath.seriesMath) 90000000 1 GOOD
         (Examples.reviewedDb 1000)) /\
  localStorage_writes
    (snd (Db.recordReview (M := SeriesMath.seriesMath) 90000000 1 GOOD
            (Examples.reviewedDb 1000))) = 3%nat /\
  fst (Db.recordReview (M := SeriesMath.seriesMath) 90000000 7 GOOD
         (Examples.reviewedDb 1000)) =
  fst (Db.recordReview (M := SeriesMath.seriesMath) 2000 1 GOOD
         (Examples.reviewedDb 1000)) /\
  fst (Db.recordReview (M := SeriesMath.seriesMath) 5000 1 GOOD
         Examples.garbledDb) = Throw Db.failed_to_update.
Proof.
  repeat split; vm_compute; reflexivity.
Qed.

Lemma recordReview_not_found_resolves_witness :
  Db.recordReview (M := SeriesMath.seriesMath) 90000000 7 GOOD
    (Examples.reviewedDb 1000) =
  (Normal tt, Db.console_push (error_word_not_found 7) (Examples.reviewedDb 1000)) /\
  exists word,
    Db.find_word 1 (words Examples.garbledDb) = Some word /\
    fsrs_params word = Some Garbled.
Proof.
  split.
  - apply (recordReview_not_found_resolves (M := SeriesMath.seriesMath)
             90000000 7 GOOD (Examples.reviewedDb 1000)).
    reflexivity.
  - destruct (recordReview_not_found_resolves (M := SeriesMath.seriesMath)
                5000 1 GOOD Examples.garbledDb) as [_ Hthrow].
    destruct (Hthrow Db.failed_to_update eq_refl) as [_ [word [Hfind Hstate]]].
    exists word. split; [exact Hfind|].
    destruct (fsrs_params word) as [[|p]|] eqn:E.
    + reflexivity.
    + vm_compute in Hfind. injection Hfind as <-. discriminate E.
    + destruct Hstate.
Defined.

(** ** Accepted reviews *)

Section AcceptedReview.
Context {M : MathImpl} {Zone : TimeZone}.
Import FSRSService.

Lemma find_word_assign (wordId : Z) (txt : json_text) (ws : list SavedWord)
    (word : SavedWord) :
  Db.find_word wordId ws = Some word ->
  Db.find_word wordId (Db.assign_fsrs_params wordId txt ws) =
    Some (Db.with_fsrs_params txt word).
Proof.
  unfold Db.find_word. induction ws as [|w ws IH]; cbn; [discriminate|].
  destruct (id w =? wordId) eqn:E.
  - intro H. injection H as ->. cbn. rewrite E. reflexivity.
  - intro H. cbn. rewrite E. apply IH. exact H.
Qed.

(** The accept path of [recordReview]: the new parameters are written to
    the word, [localStorage] is written once and one event is dispatched. *)
Lemma recordReview_accepted
    (now wordId : Z) (result : ReviewResult) (db : LocalDatabaseService)
    (word : SavedWord) (p p' : FSRSParams) :
  Db.find_word wordId (words db) = Some word ->
  fsrs_params word = Some (ObjectText p) ->
  Db.inCooldown now p = false ->
  calculateNextReview now p result = Normal p' ->
  exists db',
    Db.recordReview now wordId result db = (Normal tt, db') /\
    Db.find_word wordId (words db') =
      Some (Db.with_fsrs_params (JSON_stringify p') word) /\
    localStorage_writes db' = S (localStorage_writes db) /\
    datachanged_events db' = S (datachanged_events db) /\
    localStorage_words db' = Some (words db').
Proof.
  intros Hfind Htxt Hcool Hnext.
  exists (Db.updateFSRSParams wordId p' db).
  unfold Db.recordReview. rewrite Hfind, Htxt. cbn [JSON_parse].
  rewrite Hcool, Hnext. split; [reflexivity|].
  unfold Db.updateFSRSParams. rewrite Hfind.
  cbn [words Db.saveToLocalStorage Db.with_words localStorage_writes
       datachanged_events localStorage_words].
  repeat split; try reflexivity. apply find_word_assign. exact Hfind.
Qed.

(** The service after [saveWord] on an empty service. *)
Lemma saveWord_emptyDb (t0 : Z) (word phonetic : string) :
  Db.saveWord t0 word phonetic Db.emptyDb =
  (1, {| words := [ {| id := 1; text := word; phonetic := phonetic;
                       createdAt := t0;
                       fsrs_params := Some (ObjectText (Db.saveWord_params t0)) |} ];
         nextWordId := 2;
         localStorage_words :=
           Some [ {| id := 1; text := word; phonetic := phonetic;
                     createdAt := t0;
                     fsrs_params := Some (ObjectText (Db.saveWord_params t0)) |} ];
         localStorage_writes := 1;
         datachanged_events := 1;
         console := [] |}).
Proof. reflexivity. Qed.

(** C2, at a word just registered.  [saveWord] stores stability 0; the
    first review graded Good is accepted and stored, and the stored
    stability is still 0, below the floor of 0.1.  At the following review
    the quotient of the elapsed days by this stability is a division by
    zero. *)
Theorem fresh_word_good_review_stability_zero
    (t0 t1 : Z) (word phonetic : string) :
  exists db1 w p s,
    Db.recordReview t1 1 GOOD (snd (Db.saveWord t0 word phonetic Db.emptyDb))
      = (Normal tt, db1) /\
    localStorage_writes db1 = 2%nat /\
    Db.find_word 1 (words db1) = Some w /\
    fsrs_params w = Some (ObjectText p) /\
    last_review p = Some t1 /\
    stability p = Num (Fin s) /\
    (s == 0)%Q /\
    ~ (1 # 10 <= s)%Q /\
    forall later : positive,
      ((Fin (inject_Z (t1 + Z.pos later)) - Fin (inject_Z t1))
       / Fin (inject_Z (1000 * 60 * 60 * 24)) / ToNumber (stability p))%js = PInf.
Proof.
  rewrite saveWord_emptyDb. cbn [snd].
  set (w0 := {| id := 1; text := word; phonetic := phonetic; createdAt := t0;
                fsrs_params := Some (ObjectText (Db.saveWord_params t0)) |}).
  destruct (updatedStability_without_history t1 (Db.saveWord_params t0) GOOD
              0 0 1) as [inc [_ [Hinc0 Hstab]]];
    try reflexivity; try discriminate.
  destruct (calculateNextReview_returns t1 (Db.saveWord_params t0) GOOD 0 0 1)
    as [p' Hp']; try reflexivity.
  { left. split; reflexivity. }
  destruct (calculateNextReview_Normal_inv _ _ _ _ Hp')
    as [_ [Hs' [_ [Hlast' _]]]].
  match goal with
  | |- context [Db.recordReview t1 1 GOOD ?d] =>
      destruct (recordReview_accepted t1 1 GOOD d w0 (Db.saveWord_params t0) p')
        as [db1 [Hrec [Hfind [Hwrites _]]]]
  end; try reflexivity; try exact Hp'.
  exists db1, (Db.with_fsrs_params (JSON_stringify p') w0).
  eexists. exists (0 * (1 + inc))%Q.
  split; [exact Hrec|]. split; [exact Hwrites|]. split; [exact Hfind|].
  split; [reflexivity|]. cbn [JSON_stringify last_review stability].
  split; [exact Hlast'|]. rewrite Hs', Hstab. cbn [stringify_value].
  split; [reflexivity|]. split; [ring|]. split.
  - intro H. assert (H0 : (0 * (1 + inc) == 0)%Q) by ring. lra.
  - intro later.
    destruct (elapsed_days_Fin (t1 + Z.pos later) t1) as [e [He Hpos]].
    rewrite He. assert (Hlt : t1 < t1 + Z.pos later) by lia.
    specialize (Hpos Hlt). cbn [ToNumber num_div].
    q_case (Qeq_bool (0 * (1 + inc)) 0).
    + q_case (Qeq_bool e 0); [lra|]. q_case (Qlt_bool 0 e); [reflexivity|lra].
    + exfalso. apply E. ring.
Qed.

(** C6, at a word just registered.  The object [saveWord] stores has no
    [review_count]; the first accepted review computes [undefined + 1], which
    is NaN and is stored as [null]; the count that the second accepted
    review computes from it, [null + 1], is 1. *)
Theorem fresh_word_review_count_not_incremented
    (t0 t1 : Z) (word phonetic : string) (r : ReviewResult) :
  review_count (Db.saveWord_params t0) = undefined /\
  exists p' db1 w,
    calculateNextReview t1 (Db.saveWord_params t0) r = Normal p' /\
    review_count p' = Num NaN /\
    Db.recordReview t1 1 r (snd (Db.saveWord t0 word phonetic Db.emptyDb))
      = (Normal tt, db1) /\
    localStorage_writes db1 = 2%nat /\
    Db.find_word 1 (words db1) = Some w /\
    exists p1, fsrs_params w = Some (ObjectText p1) /\
      last_review p1 = Some t1 /\
      review_count p1 = null /\
      (ToNumber (review_count p1) + Fin 1)%js = Fin (0 + 1).
Proof.
  split; [reflexivity|].
  rewrite saveWord_emptyDb. cbn [snd].
  set (w0 := {| id := 1; text := word; phonetic := phonetic; createdAt := t0;
                fsrs_params := Some (ObjectText (Db.saveWord_params t0)) |}).
  destruct (calculateNextReview_returns t1 (Db.saveWord_params t0) r 0 0 1)
    as [p' Hp']; try reflexivity.
  { left. split; reflexivity. }
  destruct (calculateNextReview_Normal_inv _ _ _ _ Hp')
    as [_ [_ [_ [Hlast' Hcount']]]].
  match goal with
  | |- context [Db.recordReview t1 1 r ?d] =>
      destruct (recordReview_accepted t1 1 r d w0 (Db.saveWord_params t0) p')
        as [db1 [Hrec [Hfind [Hwrites _]]]]
  end; try reflexivity; try exact Hp'.
  exists p', db1, (Db.with_fsrs_params (JSON_stringify p') w0).
  split; [exact Hp'|]. split; [exact Hcount'|].
  split; [exact Hrec|]. split; [exact Hwrites|]. split; [exact Hfind|].
  eexists. split; [reflexivity|]. cbn [JSON_stringify last_review review_count].
  split; [exact Hlast'|]. rewrite Hcount'. cbn [stringify_value].
  split; reflexivity.
Qed.

(** A stored count that is a number is incremented by an accepted review,
    and a review inside the cooldown leaves the word as it is. *)
Lemma recordReview_increments_numeric_count
    (now wordId : Z) (result : ReviewResult) (db : LocalDatabaseService)
    (word : SavedWord) (p p' : FSRSParams) (n : Q) :
  Db.find_word wordId (words db) = Some word ->
  fsrs_params word = Some (ObjectText p) ->
  review_count p = Num (Fin n) ->
  Db.inCooldown now p = false ->
  calculateNextReview now p result = Normal p' ->
  exists db' w' p1,
    Db.recordReview now wordId result db = (Normal tt, db') /\
    Db.find_word wordId (words db') = Some w' /\
    fsrs_params w' = Some (ObjectText p1) /\
    review_count p1 = Num (Fin (n + 1)).
Proof.
  intros Hfind Htxt Hcount Hcool Hnext.
  destruct (recordReview_accepted now wordId result db word p p'
              Hfind Htxt Hcool Hnext) as [db' [Hrec [Hfind' _]]].
  destruct (calculateNextReview_Normal_inv _ _ _ _ Hnext) as [_ [_ [_ [_ H]]]].
  exists db', (Db.with_fsrs_params (JSON_stringify p') word). eexists.
  split; [exact Hrec|]. split; [exact Hfind'|]. split; [reflexivity|].
  cbn [JSON_stringify review_count]. rewrite H, Hcount. reflexivity.
Qed.

End AcceptedReview.

(** ** Practice selection *)

Section PracticeSelection.

Lemma existsb_Zeqb_In (x : Z) (l : list Z) :
  existsb (Z.eqb x) l = true <-> In x l.
Proof.
  rewrite existsb_exists. split.
  - intros [y [Hin Heq]]. apply Z.eqb_eq in Heq. subst. exact Hin.
  - intro Hin. exists x. split; [exact Hin | apply Z.eqb_refl].
Qed.

Lemma In_pushTimes (n : nat) (ws : list SavedWord) (w : SavedWord) :
  In w (Db.pushTimes (S n) ws) <-> In w ws.
Proof.
  unfold Db.pushTimes. rewrite in_flat_map. split.
  - intros [x [Hin Hrep]]. apply repeat_spec in Hrep. subst. exact Hin.
  - intro Hin. exists w. split; [exact Hin | left; reflexivity].
Qed.

Lemma In_weightedPool (now : Z) (ws : list SavedWord) (w : SavedWord) :
  In w (Db.weightedPool now ws) <-> In w ws.
Proof.
  unfold Db.weightedPool, Db.inBucket.
  rewrite !in_app_iff, !In_pushTimes, !filter_In.
  split; [tauto|]. intro Hin.
  destruct (Db.bucketOf now w); cbn; tauto.
Qed.

(** Invariant of the selection loop. *)
Lemma pickUnique_spec (limit : Z) (pool : list SavedWord) :
  forall (finalSelection : list SavedWord) (selectedIds : list Z),
    (forall x, In x selectedIds <-> In x (map id finalSelection)) ->
    NoDup (map id finalSelection) ->
    let picked := Db.pickUnique limit pool finalSelection selectedIds in
    NoDup (map id picked) /\
    (forall w, In w picked -> In w finalSelection \/ In w pool) /\
    (forall w, In w finalSelection -> In w picked) /\
    ((forall w, In w pool -> In (id w) (map id picked)) \/
     limit <= Z.of_nat (List.length picked)) /\
    (Z.of_nat (List.length finalSelection) < limit ->
     Z.of_nat (List.length picked) <= limit).
Proof.
  induction pool as [|word rest IH]; intros fs sel Hsel Hnd; cbn.
  - repeat split; auto; [left; intros w [] | lia].
  - destruct (existsb (Z.eqb (id word)) sel) eqn:Eseen.
    + apply existsb_Zeqb_In in Eseen.
      destruct (IH fs sel Hsel Hnd) as [H1 [H2 [H3 [H4 H5]]]].
      split; [exact H1|]. split; [|split; [exact H3|split; [|exact H5]]].
      * intros w Hw. destruct (H2 w Hw); auto.
      * destruct H4 as [H4|H4]; [left|right; exact H4].
        intros w [<-|Hw]; [|apply H4; exact Hw].
        apply Hsel in Eseen. apply in_map_iff in Eseen.
        destruct Eseen as [w' [Hid Hw']]. rewrite <- Hid.
        apply in_map. apply H3. exact Hw'.
    + assert (Hnew : ~ In (id word) (map id fs)).
      { intro H. apply Hsel in H. apply existsb_Zeqb_In in H. congruence. }
      assert (Hnd' : NoDup (map id (fs ++ [word]))).
      { rewrite map_app. cbn. apply NoDup_app; [exact Hnd| |].
        - constructor; [intros []|constructor].
        - intros x Hx [<-|[]]. exact (Hnew Hx). }
      assert (Hsel' : forall x, In x (id word :: sel) <->
                                In x (map id (fs ++ [word]))).
      { intro x. rewrite map_app, in_app_iff. cbn. rewrite Hsel. tauto. }
      destruct (Z.of_nat (List.length (fs ++ [word])) >=? limit) eqn:Efull.
      * split; [exact Hnd'|]. split; [|split; [|split]].
        -- intros w Hw. apply in_app_iff in Hw. cbn in Hw. tauto.
        -- intros w Hw. apply in_app_iff. tauto.
        -- right. lia.
        -- intro Hlt. rewrite last_length in *. lia.
      * destruct (IH (fs ++ [word]) (id word :: sel) Hsel' Hnd')
          as [H1 [H2 [H3 [H4 H5]]]].
        split; [exact H1|]. split; [|split; [|split]].
        -- intros w Hw. destruct (H2 w Hw) as [Hw'|Hw']; [|auto].
           apply in_app_iff in Hw'. cbn in Hw'. tauto.
        -- intros w Hw. apply H3. apply in_app_iff. tauto.
        -- destruct H4 as [H4|H4]; [left|right; exact H4].
           intros w [<-|Hw]; [|apply H4; exact Hw].
           apply in_map. apply H3. apply in_app_iff. right. left. reflexivity.
        -- intros _. apply H5. lia.
Qed.

Variable shuffle : list SavedWord -> list SavedWord.
Hypothesis shuffle_permutes : forall l, Permutation l (shuffle l).

(** What holds of the selection for every limit: no id twice, only words of
    the service, nothing from an empty service, and every word when there
    are no more distinct ids than [limit]. *)
Lemma getWordsForPractice_selection (now limit : Z) (db : LocalDatabaseService) :
  let picked := Db.getWordsForPractice shuffle now limit db in
  NoDup (map id picked) /\
  incl picked (words db) /\
  (words db = [] -> picked = []) /\
  (1 <= limit -> Z.of_nat (List.length picked) <= limit) /\
  (Z.of_nat (List.length (nodup Z.eq_dec (map id (words db)))) <= limit ->
   forall w, In w (words db) -> In (id w) (map id picked)).
Proof.
  unfold Db.getWordsForPractice.
  destruct (words db) as [|w0 ws] eqn:Hws.
  - cbn. repeat split; auto using NoDup_nil, incl_nil_l; try lia.
  - cbn [List.length Nat.eqb]. rewrite <- Hws.
    destruct (pickUnique_spec limit (shuffle (Db.weightedPool now (words db))) [] [])
      as [H1 [H2 [_ [H4 H5]]]].
    { intro x. cbn. tauto. }
    { constructor. }
    assert (Hpool : forall w, In w (shuffle (Db.weightedPool now (words db))) <->
                              In w (words db)).
    { intro w. split; intro Hw.
      - apply (In_weightedPool now).
        apply Permutation_in with (l := shuffle (Db.weightedPool now (words db)));
          [apply Permutation_sym; apply shuffle_permutes | exact Hw].
      - apply Permutation_in with (l := Db.weightedPool now (words db));
          [apply shuffle_permutes|].
        apply In_weightedPool. exact Hw. }
    assert (Hincl : incl (Db.pickUnique limit
                            (shuffle (Db.weightedPool now (words db))) [] [])
                         (words db)).
    { intros w Hw. destruct (H2 w Hw) as [[]|Hw']. apply Hpool. exact Hw'. }
    cbn zeta. split; [exact H1|]. split; [exact Hincl|].
    split; [rewrite Hws; discriminate|]. split.
    + intro Hlim. apply H5. cbn. lia.
    + intros Hcount w Hw. destruct H4 as [H4|H4].
      * apply H4. apply Hpool. exact Hw.
      * assert (Hall : incl (nodup Z.eq_dec (map id (words db)))
                 (map id (Db.pickUnique limit
                            (shuffle (Db.weightedPool now (words db))) [] []))).
        { apply NoDup_length_incl; [exact H1| |].
          - rewrite length_map. apply Nat2Z.inj_le. lia.
          - intros x Hx. apply nodup_In. apply in_map_iff in Hx.
            destruct Hx as [w' [<- Hw']]. apply in_map. apply Hincl. exact Hw'. }
        apply Hall. apply nodup_In. apply in_map. exact Hw.
Qed.

(** C7, at a limit below 1.  The loop tests the limit after it has pushed a
    word: with words in the service and a limit of 0 or less, the selection
    holds one word, more than the limit. *)
Theorem getWordsForPractice_limit_below_one
    (now limit : Z) (db : LocalDatabaseService) :
  words db <> [] ->
  limit <= 0 ->
  exists w, Db.getWordsForPractice shuffle now limit db = [w] /\
            In w (words db) /\
            limit < Z.of_nat (List.length (Db.getWordsForPractice shuffle now limit db)).
Proof.
  intros Hne Hlim. unfold Db.getWordsForPractice.
  destruct (words db) as [|w0 ws] eqn:Hws; [contradiction Hne; reflexivity|].
  cbn [List.length Nat.eqb]. rewrite <- Hws.
  assert (Hpool : forall w, In w (shuffle (Db.weightedPool now (words db))) ->
                            In w (words db)).
  { intros w Hw. apply (In_weightedPool now).
    apply Permutation_in with (l := shuffle (Db.weightedPool now (words db)));
      [apply Permutation_sym; apply shuffle_permutes | exact Hw]. }
  destruct (shuffle (Db.weightedPool now (words db))) as [|w pool] eqn:Hshuf.
  - exfalso.
    assert (Hin : In w0 (shuffle (Db.weightedPool now (words db)))).
    { apply Permutation_in with (l := Db.weightedPool now (words db));
        [apply shuffle_permutes|].
      apply In_weightedPool. rewrite Hws. left. reflexivity. }
    rewrite Hshuf in Hin. destruct Hin.
  - cbn. replace (1 >=? limit) with true by lia.
    exists w. split; [reflexivity|]. split; [|cbn; lia].
    apply Hpool. left. reflexivity.
Qed.

End PracticeSelection.

(** One word in the service and a limit of 0. *)
Lemma getWordsForPractice_limit_below_one_witness :
  exists w,
    Db.getWordsForPractice (fun l => l) 5000 0 (Examples.reviewedDb 1000) = [w] /\
    In w (words (Examples.reviewedDb 1000)) /\
    0 < Z.of_nat (List.length
           (Db.getWordsForPractice (fun l => l) 5000 0 (Examples.reviewedDb 1000))).
Proof.
  apply (getWordsForPractice_limit_below_one (fun l => l)
           (fun l => Permutation_refl l) 5000 0 (Examples.reviewedDb 1000)).
  - discriminate.
  - lia.
Defined.

(** ** Streak *)

Section Streak.
Variable tz : Z.

Lemma toDateString_yesterday (now : Z) :
  Db.toDateString tz (now - 1 * msPerDay) = Db.toDateString tz now - 1.
Proof.
  unfold Db.toDateString.
  replace (now - 1 * msPerDay + tz) with (now + tz + (-1) * msPerDay) by lia.
  rewrite Z.div_add by (unfold msPerDay; lia). lia.
Qed.

Lemma addAll_spec (days : list Z) :
  forall set, NoDup set ->
    NoDup (Db.addAll days set) /\
    forall x, In x (Db.addAll days set) <-> In x set \/ In x days.
Proof.
  induction days as [|d rest IH]; intros set Hnd; cbn.
  - split; [exact Hnd|]. intro x. tauto.
  - destruct (existsb (Z.eqb d) set) eqn:E.
    + apply existsb_Zeqb_In in E. destruct (IH set Hnd) as [H1 H2].
      split; [exact H1|]. intro x. rewrite H2.
      split; [tauto|]. intros [H|[<-|H]]; auto.
    + assert (Hnew : ~ In d set).
      { intro H. apply existsb_Zeqb_In in H. congruence. }
      destruct (IH (set ++ [d])) as [H1 H2].
      { apply NoDup_app; [exact Hnd|constructor; [intros []|constructor]|].
        intros x Hx [<-|[]]. exact (Hnew Hx). }
      split; [exact H1|]. intro x. rewrite H2, in_app_iff. cbn. tauto.
Qed.

Lemma insert_desc_In (d x : Z) (l : list Z) :
  In x (Db.insert_desc d l) <-> x = d \/ In x l.
Proof.
  induction l as [|y r IH]; cbn.
  - intuition congruence.
  - destruct (y <? d); cbn; [intuition congruence|].
    rewrite IH. intuition congruence.
Qed.

Lemma insert_desc_descending (d : Z) (l : list Z) :
  descending l -> ~ In d l -> descending (Db.insert_desc d l).
Proof.
  unfold descending. induction 1 as [|y r Hr IH Hy]; intro Hnew; cbn.
  - constructor; constructor.
  - destruct (y <? d) eqn:E.
    + apply Z.ltb_lt in E. constructor.
      * constructor; assumption.
      * constructor; [exact E|].
        rewrite Forall_forall in *. intros x Hx. specialize (Hy x Hx). lia.
    + apply Z.ltb_ge in E. constructor.
      * apply IH. intro H. apply Hnew. right. exact H.
      * rewrite Forall_forall in *. intros x Hx.
        apply insert_desc_In in Hx. destruct Hx as [->|Hx]; [|auto].
        assert (d <> y) by (intro; subst; apply Hnew; left; reflexivity). lia.
Qed.

Lemma sort_desc_In (x : Z) (l : list Z) : In x (Db.sort_desc l) <-> In x l.
Proof.
  induction l as [|d r IH]; cbn; [tauto|].
  rewrite insert_desc_In, IH. intuition congruence.
Qed.

Lemma sort_desc_descending (l : list Z) : NoDup l -> descending (Db.sort_desc l).
Proof.
  induction 1 as [|d r Hd Hr IH]; cbn.
  - constructor.
  - apply insert_desc_descending; [exact IH|].
    rewrite sort_desc_In. exact Hd.
Qed.


(** The sorted unique days of a service with reviews. *)
Lemma uniqueDates_spec (db : LocalDatabaseService) :
  let uniqueDates := Db.sort_desc (Db.addAll (Db.reviewDays tz db) []) in
  descending uniqueDates /\
  forall x, In x uniqueDates <-> In x (Db.reviewDays tz db).
Proof.
  destruct (addAll_spec (Db.reviewDays tz db) [] (NoDup_nil Z)) as [Hnd Hin].
  cbn zeta. split.
  - apply sort_desc_descending. exact Hnd.
  - intro x. rewrite sort_desc_In, Hin. cbn. tauto.
Qed.

Lemma calculateStreakDays_unfold (now : Z) (db : LocalDatabaseService) :
  Db.calculateStreakDays tz now db =
  match Db.sort_desc (Db.addAll (Db.reviewDays tz db) []) with
  | [] => 0
  | mostRecent :: rest =>
      if (negb (mostRecent =? Db.toDateString tz now)
          && negb (mostRecent =? Db.toDateString tz now - 1))%bool
      then 0
      else Db.countBack rest mostRecent 1
  end.
Proof.
  unfold Db.calculateStreakDays, Db.reviewDays.
  rewrite toDateString_yesterday.
  destruct (Db.filter_non_null _) as [|t ts] eqn:E; reflexivity.
Qed.

Lemma uniqueDates_head (db : LocalDatabaseService) (mostRecent : Z) :
  In mostRecent (Db.reviewDays tz db) ->
  (forall d, In d (Db.reviewDays tz db) -> d <= mostRecent) ->
  exists rest,
    Db.sort_desc (Db.addAll (Db.reviewDays tz db) []) = mostRecent :: rest /\
    descending (mostRecent :: rest) /\
    forall x, In x (mostRecent :: rest) <-> In x (Db.reviewDays tz db).
Proof.
  intros Hin Hmax. destruct (uniqueDates_spec db) as [Hdesc Hsame].
  destruct (Db.sort_desc _) as [|m rest].
  - apply Hsame in Hin. destruct Hin.
  - assert (Hm : m = mostRecent).
    { assert (H1 : m <= mostRecent) by (apply Hmax, Hsame; left; reflexivity).
      apply Hsame in Hin. destruct Hin as [H|H]; [exact H|].
      inversion Hdesc as [|? ? _ Hall]; subst.
      rewrite Forall_forall in Hall. specialize (Hall _ H). lia. }
    subst m. exists rest. repeat split; try assumption; apply Hsame.
Qed.


End Streak.


(** * Further properties of the service *)

(** ** Identity of the stored words *)

Section WordIdentity.
Context {M : MathImpl} {Zone : TimeZone}.
Import FSRSService.

Lemma assign_fsrs_params_map {A : Type} (f : SavedWord -> A) (wordId : Z)
    (txt : json_text) (ws : list SavedWord) :
  (forall w, f (Db.with_fsrs_params txt w) = f w) ->
  map f (Db.assign_fsrs_params wordId txt ws) = map f ws.
Proof.
  intro Hf. induction ws as [|w ws IH]; cbn; [reflexivity|].
  destruct (id w =? wordId); cbn; [rewrite Hf; reflexivity|].
  rewrite IH. reflexivity.
Qed.

(** What [recordReview] does to the word array: nothing, or one assignment
    of [fsrs_params]. *)
Lemma recordReview_words (now wordId : Z) (result : ReviewResult)
    (db : LocalDatabaseService) :
  words (snd (Db.recordReview now wordId result db)) = words db \/
  exists txt,
    words (snd (Db.recordReview now wordId result db)) =
      Db.assign_fsrs_params wordId txt (words db).
Proof.
  unfold Db.recordReview.
  destruct (Db.find_word wordId (words db)) as [word|] eqn:Hfind; [|left; reflexivity].
  destruct (match fsrs_params word with
            | Some txt => JSON_parse txt
            | None => Normal (initializeParams now)
            end) as [p|e]; [|left; reflexivity].
  destruct (Db.inCooldown now p); [left; reflexivity|].
  destruct (calculateNextReview now p result) as [p'|e]; [|left; reflexivity].
  right. exists (JSON_stringify p'). cbn [snd].
  unfold Db.updateFSRSParams. rewrite Hfind. reflexivity.
Qed.

Lemma recordReview_nextWordId (now wordId : Z) (result : ReviewResult)
    (db : LocalDatabaseService) :
  nextWordId (snd (Db.recordReview now wordId result db)) = nextWordId db.
Proof.
  unfold Db.recordReview.
  destruct (Db.find_word wordId (words db)) as [word|] eqn:Hfind; [|reflexivity].
  destruct (match fsrs_params word with
            | Some txt => JSON_parse txt
            | None => Normal (initializeParams now)
            end) as [p|e]; [|reflexivity].
  destruct (Db.inCooldown now p); [reflexivity|].
  destruct (calculateNextReview now p result) as [p'|e]; [|reflexivity].
  cbn [snd]. unfold Db.updateFSRSParams. rewrite Hfind. reflexivity.
Qed.

Lemma recordReview_map {A : Type} (f : SavedWord -> A) (now wordId : Z)
    (result : ReviewResult) (db : LocalDatabaseService) :
  (forall txt w, f (Db.with_fsrs_params txt w) = f w) ->
  map f (words (snd (Db.recordReview now wordId result db))) = map f (words db).
Proof.
  intro Hf. destruct (recordReview_words now wordId result db) as [->|[txt ->]].
  - reflexivity.
  - apply assign_fsrs_params_map. apply Hf.
Qed.

Lemma NoDup_map_filter {A B : Type} (f : A -> B) (g : A -> bool) (l : list A) :
  NoDup (map f l) -> NoDup (map f (filter g l)).
Proof.
  induction l as [|a l IH]; cbn; intro H; [constructor|].
  inversion H as [|? ? Hnew Hrest]; subst.
  destruct (g a); cbn; [|apply IH; exact Hrest].
  constructor; [|apply IH; exact Hrest].
  intro Hin. apply Hnew. apply in_map_iff in Hin.
  destruct Hin as [x [Hx Hin]]. apply filter_In in Hin.
  apply in_map_iff. exists x. tauto.
Qed.

Lemma saveWord_new (now : Z) (word phonetic : string) (db : LocalDatabaseService) :
  find (fun w => String.eqb (toLowerCase (text w)) (toLowerCase word)) (words db)
    = None ->
  Db.saveWord now word phonetic db =
  (nextWordId db,
   Db.saveToLocalStorage
     {| words := words db ++
                 [ {| id := nextWordId db; text := word; phonetic := phonetic;
                      createdAt := now;
                      fsrs_params := Some (ObjectText (Db.saveWord_params now)) |} ];
        nextWordId := nextWordId db + 1;
        localStorage_words := localStorage_words db;
        localStorage_writes := localStorage_writes db;
        datachanged_events := datachanged_events db;
        console := console db |}).
Proof.
  intro Hnone. unfold Db.saveWord. rewrite Hnone. reflexivity.
Qed.

Lemma saveWord_existing (now : Z) (word phonetic : string)
    (db : LocalDatabaseService) (existingWord : SavedWord) :
  find (fun w => String.eqb (toLowerCase (text w)) (toLowerCase word)) (words db)
    = Some existingWord ->
  Db.saveWord now word phonetic db = (id existingWord, db).
Proof.
  intro Hsome. unfold Db.saveWord. rewrite Hsome. reflexivity.
Qed.

Lemma reachable_nextWordId_positive (db : LocalDatabaseService) :
  reachable db -> 1 <= nextWordId db.
Proof.
  induction 1 as [|now word phonetic db _ IH|now wordId result db _ IH|wordId db _ IH].
  - cbn. lia.
  - unfold Db.saveWord. destruct (find _ (words db)); cbn; lia.
  - rewrite recordReview_nextWordId. exact IH.
  - cbn. exact IH.
Qed.

Lemma reachable_ids_invariant (db : LocalDatabaseService) :
  reachable db ->
  NoDup (map id (words db)) /\
  forall w, In w (words db) -> 1 <= id w < nextWordId db.
Proof.
  induction 1 as [|now word phonetic db Hreach [IHnd IHlt]
                  |now wordId result db _ [IHnd IHlt]
                  |wordId db _ [IHnd IHlt]].
  - split; [constructor|]. intros w [].
  - destruct (find (fun w => String.eqb (toLowerCase (text w)) (toLowerCase word))
                   (words db)) as [existing|] eqn:Hfind.
    + rewrite (saveWord_existing _ _ _ _ _ Hfind). split; assumption.
    + rewrite (saveWord_new _ _ _ _ Hfind). cbn. split.
      * rewrite map_app. cbn. apply NoDup_app; [exact IHnd| |].
        -- constructor; [intros []|constructor].
        -- intros x Hx [<-|[]]. apply in_map_iff in Hx.
           destruct Hx as [w [Hid Hw]]. specialize (IHlt w Hw). lia.
      * intros w Hw. apply in_app_iff in Hw. destruct Hw as [Hw|[<-|[]]].
        -- specialize (IHlt w Hw). lia.
        -- cbn. pose proof (reachable_nextWordId_positive db Hreach). lia.
  - rewrite recordReview_nextWordId. split.
    + rewrite recordReview_map by reflexivity. exact IHnd.
    + intros w Hw.
      assert (Hid : In (id w) (map id (words db))).
      { rewrite <- (recordReview_map id now wordId result db) by reflexivity.
        apply in_map. exact Hw. }
      apply in_map_iff in Hid. destruct Hid as [w0 [Hid Hw0]].
      rewrite <- Hid. apply IHlt. exact Hw0.
  - cbn. split.
    + apply NoDup_map_filter. exact IHnd.
    + intros w Hw. apply filter_In in Hw. apply IHlt. tauto.
Qed.

(** X1. In every reachable service the ids of the stored words are pairwise
    distinct, positive and below [nextWordId]: an id names one word, and
    the next [saveWord] cannot collide with a stored word. *)
Theorem reachable_ids_distinct (db : LocalDatabaseService) :
  reachable db ->
  NoDup (map id (words db)) /\
  forall w, In w (words db) -> 1 <= id w < nextWordId db.
Proof. exact (reachable_ids_invariant db). Qed.

(** X2. In every reachable service no two stored words have the same text
    up to the case of ASCII letters. *)
Theorem reachable_texts_distinct (db : LocalDatabaseService) :
  reachable db -> NoDup (map text_key (words db)).
Proof.
  induction 1 as [|now word phonetic db _ IH|now wordId result db _ IH|wordId db _ IH].
  - constructor.
  - destruct (find (fun w => String.eqb (toLowerCase (text w)) (toLowerCase word))
                   (words db)) as [existing|] eqn:Hfind.
    + rewrite (saveWord_existing _ _ _ _ _ Hfind). exact IH.
    + rewrite (saveWord_new _ _ _ _ Hfind). cbn.
      rewrite map_app. cbn. apply NoDup_app; [exact IH| |].
      * constructor; [intros []|constructor].
      * intros x Hx [<-|[]]. apply in_map_iff in Hx.
        destruct Hx as [w [Hkey Hw]].
        apply (find_none _ _ Hfind) in Hw. unfold text_key in Hkey. cbn in Hkey.
        rewrite Hkey, String.eqb_refl in Hw. discriminate Hw.
  - rewrite recordReview_map by reflexivity. exact IH.
  - cbn. apply NoDup_map_filter. exact IH.
Qed.

Lemma find_app_first {A : Type} (f : A -> bool) (l l' : list A) :
  find f (l ++ l') =
  match find f l with Some x => Some x | None => find f l' end.
Proof.
  induction l as [|a l IH]; cbn; [reflexivity|].
  destruct (f a); [reflexivity | exact IH].
Qed.

(** X3. Saving a text that is already stored, in any ASCII case, returns
    the id of the stored word and changes nothing; in particular a second
    [saveWord] of the same text right after the first is a no-op that
    returns the same id. *)
Theorem saveWord_twice
    (now now' : Z) (word word' phonetic phonetic' : string)
    (db : LocalDatabaseService) :
  toLowerCase word' = toLowerCase word ->
  Db.saveWord now' word' phonetic' (snd (Db.saveWord now word phonetic db)) =
  Db.saveWord now word phonetic db.
Proof.
  intro Hcase.
  destruct (find (fun w => String.eqb (toLowerCase (text w)) (toLowerCase word))
                 (words db)) as [existing|] eqn:Hfind.
  - rewrite (saveWord_existing _ _ _ _ _ Hfind). cbn [snd].
    apply saveWord_existing. rewrite Hcase. exact Hfind.
  - rewrite (saveWord_new _ _ _ _ Hfind). cbn [snd].
    rewrite (saveWord_existing now' word' phonetic' _
               {| id := nextWordId db; text := word; phonetic := phonetic;
                  createdAt := now;
                  fsrs_params := Some (ObjectText (Db.saveWord_params now)) |});
      [reflexivity|].
    cbn [words Db.saveToLocalStorage]. rewrite find_app_first, Hcase, Hfind.
    cbn. rewrite String.eqb_refl. reflexivity.
Qed.

Lemma find_word_fresh (db : LocalDatabaseService) :
  (forall w, In w (words db) -> id w < nextWordId db) ->
  Db.find_word (nextWordId db) (words db) = None.
Proof.
  intro Hlt. unfold Db.find_word.
  destruct (find _ (words db)) as [w|] eqn:E; [|reflexivity].
  apply find_some in E. destruct E as [Hin Hid].
  specialize (Hlt w Hin). lia.
Qed.

(** X4. Registering a text that is not stored yet, in a reachable service:
    the new word gets the id [nextWordId], it is found under that id with
    the initial state of [saveWord], every other id resolves as before, and
    the change is persisted with one write and one event. *)
Theorem saveWord_registers
    (now : Z) (word phonetic : string) (db : LocalDatabaseService) :
  reachable db ->
  find (fun w => String.eqb (toLowerCase (text w)) (toLowerCase word)) (words db)
    = None ->
  exists db',
    Db.saveWord now word phonetic db = (nextWordId db, db') /\
    Db.find_word (nextWordId db) (words db') =
      Some {| id := nextWordId db; text := word; phonetic := phonetic;
              createdAt := now;
              fsrs_params := Some (ObjectText (Db.saveWord_params now)) |} /\
    (forall wordId, wordId <> nextWordId db ->
       Db.find_word wordId (words db') = Db.find_word wordId (words db)) /\
    nextWordId db' = nextWordId db + 1 /\
    localStorage_words db' = Some (words db') /\
    localStorage_writes db' = S (localStorage_writes db) /\
    datachanged_events db' = S (datachanged_events db).
Proof.
  intros Hreach Hnone. eexists. split; [apply saveWord_new; exact Hnone|].
  cbn [words nextWordId localStorage_words localStorage_writes
       datachanged_events Db.saveToLocalStorage].
  destruct (reachable_ids_invariant db Hreach) as [_ Hlt].
  unfold Db.find_word. split; [|split].
  - rewrite find_app_first.
    fold (Db.find_word (nextWordId db) (words db)).
    rewrite find_word_fresh by (intros w Hw; apply Hlt; exact Hw).
    cbn. rewrite Z.eqb_refl. reflexivity.
  - intros wordId Hne. rewrite find_app_first.
    destruct (find (fun w => id w =? wordId) (words db)); [reflexivity|].
    cbn. replace (nextWordId db =? wordId) with false by lia. reflexivity.
  - repeat split; reflexivity.
Qed.

(** X5. A review touches one word only: whatever its outcome,
    [recordReview] leaves the ids, texts, phonetics and creation dates of all
    words, the number of words and [nextWordId] as they were, and every
    other id resolves to the same word as before. *)
Theorem recordReview_frame (now wordId : Z) (result : ReviewResult)
    (db : LocalDatabaseService) :
  let db' := snd (Db.recordReview now wordId result db) in
  map id (words db') = map id (words db) /\
  map text (words db') = map text (words db) /\
  map phonetic (words db') = map phonetic (words db) /\
  map createdAt (words db') = map createdAt (words db) /\
  List.length (words db') = List.length (words db) /\
  nextWordId db' = nextWordId db /\
  forall other, other <> wordId ->
    Db.find_word other (words db') = Db.find_word other (words db).
Proof.
  cbn zeta. repeat split; try (apply recordReview_map; reflexivity).
  - rewrite <- (length_map id), recordReview_map by reflexivity.
    apply length_map.
  - apply recordReview_nextWordId.
  - intros other Hne.
    destruct (recordReview_words now wordId result db) as [->|[txt ->]];
      [reflexivity|].
    unfold Db.find_word. induction (words db) as [|w ws IH]; cbn; [reflexivity|].
    destruct (id w =? wordId) eqn:E; cbn.
    + apply Z.eqb_eq in E. replace (id w =? other) with false by lia.
      reflexivity.
    + destruct (id w =? other); [reflexivity | exact IH].
Qed.

Lemma reachable_storage_sync_invariant (db : LocalDatabaseService) :
  reachable db ->
  datachanged_events db = localStorage_writes db /\
  (localStorage_words db = Some (words db) \/
   (localStorage_words db = None /\ words db = [] /\
    localStorage_writes db = 0%nat)).
Proof.
  induction 1 as [|now word phonetic db _ [IHev IHst]
                  |now wordId result db _ [IHev IHst]
                  |wordId db _ [IHev IHst]].
  - split; [reflexivity|]. right. repeat split; reflexivity.
  - unfold Db.saveWord. destruct (find _ (words db)); cbn.
    + split; assumption.
    + split; [congruence|]. left. reflexivity.
  - unfold Db.recordReview.
    destruct (Db.find_word wordId (words db)) as [w|] eqn:Hfind;
      [|split; assumption].
    destruct (match fsrs_params w with
              | Some txt => JSON_parse txt
              | None => Normal (initializeParams now)
              end) as [p|e]; [|split; assumption].
    destruct (Db.inCooldown now p); [split; assumption|].
    destruct (calculateNextReview now p result) as [p'|e]; [|split; assumption].
    cbn [snd]. unfold Db.updateFSRSParams. rewrite Hfind. cbn.
    split; [congruence|]. left. reflexivity.
  - cbn. split; [congruence|]. left. reflexivity.
Qed.

(** X6. In every reachable service what [localStorage] holds under
    ['vocabulary_words'] is the word array in memory (or nothing was ever
    written and there are no words), and one ['datachanged'] event was
    dispatched per write. *)
Theorem reachable_storage_in_sync (db : LocalDatabaseService) :
  reachable db ->
  datachanged_events db = localStorage_writes db /\
  (localStorage_words db = Some (words db) \/
   (localStorage_words db = None /\ words db = [] /\
    localStorage_writes db = 0%nat)).
Proof. exact (reachable_storage_sync_invariant db). Qed.

End WordIdentity.

(** ** Stored states stay numeric *)

Section NumericStates.
Context {M : MathImpl} {Zone : TimeZone}.
Import FSRSService.

Lemma inCooldown_false_last (now : Z) (p : FSRSParams) :
  Db.inCooldown now p = false ->
  (last_review p = None) \/ (exists last, last_review p = Some last /\ last < now).
Proof.
  intro Hcool. destruct (last_review p) as [last|] eqn:Hlast; [|left; reflexivity].
  right. exists last. split; [reflexivity|].
  destruct (Z_lt_le_dec (now - last) (50 * (1000 * 60))) as [Hlt|Hge]; [|lia].
  assert (Db.inCooldown now p = true).
  { apply inCooldown_true_iff. exists last. split; assumption. }
  congruence.
Qed.

Lemma updatedRetrievability_value (now : Z) (p : FSRSParams) (s q : Q) :
  stability p = Num (Fin s) ->
  retrievability p = Num (Fin q) ->
  Db.inCooldown now p = false ->
  exists q', updatedRetrievability now p = Num (Fin q').
Proof.
  intros Hs Hq Hcool.
  destruct (updatedRetrievability_Fin now p s q) as [q' Hq'].
  - rewrite Hs. reflexivity.
  - destruct (inCooldown_false_last now p Hcool) as [Hnone|Hsome].
    + left. split; [exact Hnone|]. rewrite Hq. reflexivity.
    + right. exact Hsome.
  - exists q'. unfold updatedRetrievability in *.
    destruct (last_review p).
    + cbn [ToNumber] in Hq'. rewrite Hq'. reflexivity.
    + rewrite Hq in *. cbn in Hq'. rewrite Hq'. reflexivity.
Qed.

(** An accepted update of a numeric state is a numeric state. *)
Lemma calculateNextReview_numeric
    (now : Z) (p p' : FSRSParams) (r : ReviewResult) (d s q : Q) :
  difficulty p = Num (Fin d) ->
  stability p = Num (Fin s) ->
  retrievability p = Num (Fin q) ->
  Db.inCooldown now p = false ->
  calculateNextReview now p r = Normal p' ->
  exists d' s' q',
    difficulty p' = Num (Fin d') /\
    stability p' = Num (Fin s') /\
    retrievability p' = Num (Fin q').
Proof.
  intros Hd Hs Hq Hcool Hnext.
  destruct (calculateNextReview_Normal_inv _ _ _ _ Hnext)
    as [Hd' [Hs' [Hq' _]]].
  destruct (updatedDifficulty_Fin p r d) as [d' [Ed _]]; [rewrite Hd; reflexivity|].
  destruct (updatedStability_Fin now p r d s q) as [s' Es].
  { rewrite Hd. reflexivity. }
  { rewrite Hs. reflexivity. }
  { destruct (inCooldown_false_last now p Hcool) as [Hnone|Hsome].
    - left. split; [exact Hnone|]. rewrite Hq. reflexivity.
    - right. exact Hsome. }
  destruct (updatedRetrievability_value now p s q Hs Hq Hcool) as [q' Eq].
  exists d', s', q'. rewrite Hd', Hs', Hq', Ed, Es, Eq. repeat split.
Qed.

Lemma calculateNextReview_numeric_returns
    (now : Z) (p : FSRSParams) (r : ReviewResult) (d s q : Q) :
  difficulty p = Num (Fin d) ->
  stability p = Num (Fin s) ->
  retrievability p = Num (Fin q) ->
  Db.inCooldown now p = false ->
  exists p', calculateNextReview now p r = Normal p'.
Proof.
  intros Hd Hs Hq Hcool.
  apply (calculateNextReview_returns now p r d s q).
  - rewrite Hd. reflexivity.
  - rewrite Hs. reflexivity.
  - destruct (inCooldown_false_last now p Hcool) as [Hnone|Hsome].
    + left. split; [exact Hnone|]. rewrite Hq. reflexivity.
    + right. exact Hsome.
Qed.

Lemma reachable_numeric_invariant (db : LocalDatabaseService) :
  reachable db -> Forall numeric_state (words db).
Proof.
  induction 1 as [|now word phonetic db _ IH|now wordId result db _ IH|wordId db _ IH].
  - constructor.
  - unfold Db.saveWord. destruct (find _ (words db)); cbn; [exact IH|].
    apply Forall_app. split; [exact IH|]. constructor; [|constructor].
    eexists _, 0%Q, 0%Q, 1%Q. cbn. repeat split; reflexivity.
  - unfold Db.recordReview.
    destruct (Db.find_word wordId (words db)) as [word|] eqn:Hfind; [|exact IH].
    destruct (find_word_In _ _ _ Hfind) as [Hin _].
    pose proof IH as Hall. rewrite Forall_forall in Hall.
    destruct (Hall word Hin) as [p [d [s [q [Htxt [Hd [Hs Hq]]]]]]].
    rewrite Htxt. cbn [JSON_parse].
    destruct (Db.inCooldown now p) eqn:Hcool; [exact IH|].
    destruct (calculateNextReview now p result) as [p'|e] eqn:Hnext; [|exact IH].
    cbn [snd]. unfold Db.updateFSRSParams. rewrite Hfind.
    cbn [words Db.saveToLocalStorage Db.with_words].
    apply assign_fsrs_params_Forall; [|exact IH].
    intros w _.
    destruct (calculateNextReview_numeric now p p' result d s q
                Hd Hs Hq Hcool Hnext) as [d' [s' [q' [Ed [Es Eq]]]]].
    eexists _, d', s', q'. cbn. split; [reflexivity|].
    rewrite Ed, Es, Eq. repeat split.
  - cbn. rewrite Forall_forall in *. intros w Hw.
    apply filter_In in Hw. apply IH. tauto.
Qed.

(** X7. In every reachable service each word carries a stored state that
    parses, and its difficulty, stability and retrievability are finite
    numbers: none of them is ever stored as NaN, an infinity or [null], also
    when the stability is 0 and the update divides by it. *)
Theorem reachable_states_numeric (db : LocalDatabaseService) (w : SavedWord) :
  reachable db ->
  In w (words db) ->
  exists p d s q,
    fsrs_params w = Some (ObjectText p) /\
    JSON_parse (ObjectText p) = Normal p /\
    difficulty p = Num (Fin d) /\
    stability p = Num (Fin s) /\
    retrievability p = Num (Fin q).
Proof.
  intros Hreach Hin.
  pose proof (reachable_numeric_invariant db Hreach) as Hall.
  rewrite Forall_forall in Hall.
  destruct (Hall w Hin) as [p [d [s [q [Htxt [Hd [Hs Hq]]]]]]].
  exists p, d, s, q. repeat split; assumption.
Qed.

(** X8. In a reachable service [recordReview] never rejects: for every id,
    grade and clock reading the promise resolves; the error "Failed to update
    FSRS parameters." can only come from stored data the service did not
    write itself. *)
Theorem recordReview_resolves_when_reachable
    (now wordId : Z) (result : ReviewResult) (db : LocalDatabaseService) :
  reachable db ->
  fst (Db.recordReview now wordId result db) = Normal tt.
Proof.
  intro Hreach. unfold Db.recordReview.
  destruct (Db.find_word wordId (words db)) as [word|] eqn:Hfind; [|reflexivity].
  destruct (find_word_In _ _ _ Hfind) as [Hin _].
  pose proof (reachable_numeric_invariant db Hreach) as Hall.
  rewrite Forall_forall in Hall.
  destruct (Hall word Hin) as [p [d [s [q [Htxt [Hd [Hs Hq]]]]]]].
  rewrite Htxt. cbn [JSON_parse].
  destruct (Db.inCooldown now p) eqn:Hcool; [reflexivity|].
  destruct (calculateNextReview_numeric_returns now p result d s q
              Hd Hs Hq Hcool) as [p' Hp'].
  rewrite Hp'. reflexivity.
Qed.

End NumericStates.

(** ** The sample services are reachable *)

Lemma Samples_afterGood_reachable :
  reachable (M := SeriesMath.seriesMath) Samples.afterGood.
Proof.
  unfold Samples.afterGood, Samples.afterAgain.
  apply reachable_recordReview, reachable_recordReview.
  unfold Samples.twoWords.
  apply reachable_saveWord, reachable_saveWord, reachable_empty.
Qed.

Lemma Samples_twoWords_reachable :
  reachable (M := SeriesMath.seriesMath) Samples.twoWords.
Proof.
  unfold Samples.twoWords.
  apply reachable_saveWord, reachable_saveWord, reachable_empty.
Qed.

Lemma reachable_ids_distinct_witness :
  NoDup (map id (words Samples.afterGood)) /\
  forall w, In w (words Samples.afterGood) ->
            1 <= id w < nextWordId Samples.afterGood.
Proof.
  apply (reachable_ids_distinct (M := SeriesMath.seriesMath)).
  exact Samples_afterGood_reachable.
Defined.

Lemma reachable_texts_distinct_witness :
  NoDup (map text_key (words Samples.afterGood)).
Proof.
  apply (reachable_texts_distinct (M := SeriesMath.seriesMath)).
  exact Samples_afterGood_reachable.
Defined.

Lemma saveWord_twice_witness :
  Db.saveWord 5000 "APPLE" EmptyString (snd (Db.saveWord 1000 "apple" "ap-l" Db.emptyDb)) =
  Db.saveWord 1000 "apple" "ap-l" Db.emptyDb.
Proof.
  apply (saveWord_twice 1000 5000 "apple" "APPLE" "ap-l" EmptyString Db.emptyDb).
  reflexivity.
Defined.

Lemma saveWord_registers_witness :
  exists db',
    Db.saveWord 3000 "cherry" "che-ri" Samples.twoWords = (3, db') /\
    Db.find_word 3 (words db') =
      Some {| id := 3; text := "cherry"; phonetic := "che-ri"; createdAt := 3000;
              fsrs_params := Some (ObjectText (Db.saveWord_params 3000)) |} /\
    (forall wordId, wordId <> 3 ->
       Db.find_word wordId (words db') = Db.find_word wordId (words Samples.twoWords)) /\
    nextWordId db' = 3 + 1 /\
    localStorage_words db' = Some (words db') /\
    localStorage_writes db' = 3%nat /\
    datachanged_events db' = 3%nat.
Proof.
  apply (saveWord_registers (M := SeriesMath.seriesMath)
           3000 "cherry" "che-ri" Samples.twoWords).
  - exact Samples_twoWords_reachable.
  - reflexivity.
Defined.

Lemma reachable_storage_in_sync_witness :
  datachanged_events Samples.afterGood = localStorage_writes Samples.afterGood /\
  (localStorage_words Samples.afterGood = Some (words Samples.afterGood) \/
   (localStorage_words Samples.afterGood = None /\
    words Samples.afterGood = [] /\
    localStorage_writes Samples.afterGood = 0%nat)).
Proof.
  apply (reachable_storage_in_sync (M := SeriesMath.seriesMath)).
  exact Samples_afterGood_reachable.
Defined.

Lemma reachable_states_numeric_witness :
  exists w,
    In w (words Samples.afterGood) /\
    exists p d s q,
      fsrs_params w = Some (ObjectText p) /\
      JSON_parse (ObjectText p) = Normal p /\
      difficulty p = Num (Fin d) /\
      stability p = Num (Fin s) /\
      retrievability p = Num (Fin q).
Proof.
  assert (Hw : exists w, In w (words Samples.afterGood))
    by (vm_compute; eexists; left; reflexivity).
  destruct Hw as [w Hw]. exists w. split; [exact Hw|].
  apply (reachable_states_numeric (M := SeriesMath.seriesMath) Samples.afterGood w).
  - exact Samples_afterGood_reachable.
  - exact Hw.
Defined.

Lemma recordReview_resolves_when_reachable_witness :
  fst (Db.recordReview (M := SeriesMath.seriesMath) 900000000 1 EASY
         Samples.afterGood) = Normal tt.
Proof.
  apply (recordReview_resolves_when_reachable (M := SeriesMath.seriesMath)).
  exact Samples_afterGood_reachable.
Defined.

(** ** Size of the practice selection *)

Section SelectionSize.
Variable shuffle : list SavedWord -> list SavedWord.
Hypothesis shuffle_permutes : forall l, Permutation l (shuffle l).

(** X9. For a limit of at least 1 the selection holds exactly
    min(limit, number of distinct ids) words, pairwise distinct by id, all of
    them words of the service. *)
Theorem getWordsForPractice_size (now limit : Z) (db : LocalDatabaseService) :
  1 <= limit ->
  let picked := Db.getWordsForPractice shuffle now limit db in
  Z.of_nat (List.length picked) =
    Z.min limit (Z.of_nat (List.length (nodup Z.eq_dec (map id (words db))))) /\
  NoDup (map id picked) /\
  incl picked (words db).
Proof.
  intro Hlim. cbn zeta.
  destruct (getWordsForPractice_selection shuffle shuffle_permutes now limit db)
    as [Hnd [Hincl [_ [Hle _]]]].
  split; [|split; assumption].
  specialize (Hle Hlim).
  assert (Hsub : (List.length (Db.getWordsForPractice shuffle now limit db)
                  <= List.length (nodup Z.eq_dec (map id (words db))))%nat).
  { rewrite <- (length_map id). apply NoDup_incl_length; [exact Hnd|].
    intros x Hx. apply nodup_In. apply in_map_iff in Hx.
    destruct Hx as [w [<- Hw]]. apply in_map. apply Hincl. exact Hw. }
  revert Hnd Hincl Hle Hsub. unfold Db.getWordsForPractice.
  destruct (words db) as [|w0 ws] eqn:Hws.
  - cbn. intros. lia.
  - cbn [List.length Nat.eqb]. rewrite <- Hws. intros Hnd Hincl Hle Hsub.
    destruct (pickUnique_spec limit (shuffle (Db.weightedPool now (words db))) [] [])
      as [_ [_ [_ [H4 _]]]].
    { intro x. cbn. tauto. }
    { constructor. }
    destruct H4 as [Hall|Hfull]; [|lia].
    assert (Hsup : (List.length (nodup Z.eq_dec (map id (words db)))
                    <= List.length (Db.pickUnique limit
                         (shuffle (Db.weightedPool now (words db))) [] []))%nat).
    { rewrite <- (length_map id (Db.pickUnique _ _ _ _)).
      apply NoDup_incl_length; [apply NoDup_nodup|].
      intros x Hx. apply nodup_In in Hx. apply in_map_iff in Hx.
      destruct Hx as [w [<- Hw]]. apply Hall.
      apply Permutation_in with (l := Db.weightedPool now (words db));
        [apply shuffle_permutes|].
      apply In_weightedPool. exact Hw. }
    lia.
Qed.

End SelectionSize.

Lemma getWordsForPractice_size_witness :
  Z.of_nat (List.length (Db.getWordsForPractice (@rev SavedWord) 5000 1 Samples.twoWords)) =
    Z.min 1 (Z.of_nat (List.length (nodup Z.eq_dec (map id (words Samples.twoWords))))) /\
  NoDup (map id (Db.getWordsForPractice (@rev SavedWord) 5000 1 Samples.twoWords)) /\
  incl (Db.getWordsForPractice (@rev SavedWord) 5000 1 Samples.twoWords)
       (words Samples.twoWords).
Proof.
  apply (getWordsForPractice_size (@rev SavedWord)
           (fun l => Permutation_rev l) 5000 1 Samples.twoWords).
  lia.
Defined.

(** ** Size of the weighted pool *)

Lemma pushTimes_length (n : nat) (ws : list SavedWord) :
  List.length (Db.pushTimes n ws) = (n * List.length ws)%nat.
Proof.
  unfold Db.pushTimes. induction ws as [|w ws IH]; cbn; [lia|].
  rewrite length_app, repeat_length, IH. lia.
Qed.

Lemma count_occ_pushTimes (n : nat) (ws : list SavedWord) (w : SavedWord) :
  count_occ SavedWord_eq_dec (Db.pushTimes n ws) w =
  (n * count_occ SavedWord_eq_dec ws w)%nat.
Proof.
  unfold Db.pushTimes. induction ws as [|x ws IH]; cbn [flat_map]; [cbn; lia|].
  rewrite count_occ_app, IH. cbn [count_occ].
  destruct (SavedWord_eq_dec x w) as [->|Hne].
  - rewrite count_occ_repeat_eq by reflexivity. lia.
  - rewrite count_occ_repeat_neq by (intro Heq; apply Hne; symmetry; exact Heq). lia.
Qed.

Lemma count_occ_inBucket (now : Z) (b : Db.bucket) (ws : list SavedWord)
    (w : SavedWord) :
  count_occ SavedWord_eq_dec (Db.inBucket now b ws) w =
  if Db.bucket_eqb (Db.bucketOf now w) b
  then count_occ SavedWord_eq_dec ws w else 0%nat.
Proof.
  unfold Db.inBucket. induction ws as [|x ws IH]; cbn [filter count_occ].
  - destruct (Db.bucket_eqb _ _); reflexivity.
  - destruct (SavedWord_eq_dec x w) as [->|Hne].
    + destruct (Db.bucket_eqb (Db.bucketOf now w) b) eqn:E.
      * cbn [count_occ]. destruct (SavedWord_eq_dec w w); [|contradiction].
        rewrite IH. reflexivity.
      * exact IH.
    + destruct (Db.bucket_eqb (Db.bucketOf now x) b).
      * cbn [count_occ]. destruct (SavedWord_eq_dec x w); [contradiction|].
        exact IH.
      * exact IH.
Qed.

Lemma weightedPool_count (now : Z) (ws : list SavedWord) (w : SavedWord) :
  count_occ SavedWord_eq_dec (Db.weightedPool now ws) w =
  (pushCount (Db.bucketOf now w) * count_occ SavedWord_eq_dec ws w)%nat.
Proof.
  unfold Db.weightedPool.
  rewrite !count_occ_app, !count_occ_pushTimes, !count_occ_inBucket.
  destruct (Db.bucketOf now w); cbn [Db.bucket_eqb pushCount]; lia.
Qed.

Lemma weightedPool_length (now : Z) (ws : list SavedWord) :
  List.length (Db.weightedPool now ws) =
  list_sum (map (fun x => pushCount (Db.bucketOf now x)) ws).
Proof.
  unfold Db.weightedPool. rewrite !length_app, !pushTimes_length.
  unfold Db.inBucket. induction ws as [|x ws IH]; [reflexivity|].
  cbn [filter map]. unfold list_sum in *. cbn [fold_right].
  destruct (Db.bucketOf now x); cbn [Db.bucket_eqb pushCount List.length]; lia.
Qed.

(** X10. The weighted pool holds every stored word as often as its array
    says: a due word 4 times, a learning word 3 times, a new word twice and
    a mastered word once, for each time the word array holds it; no
    rearrangement of the pool changes these counts.  The size of the pool is
    the sum of the counts over the stored words, between one and four entries
    per word. *)
Theorem weightedPool_multiplicity (now : Z) (ws : list SavedWord) (w : SavedWord) :
  count_occ SavedWord_eq_dec (Db.weightedPool now ws) w =
    (match Db.bucketOf now w with
     | Db.Due => 4
     | Db.Learning => 3
     | Db.Fresh => 2
     | Db.Mastered => 1
     end * count_occ SavedWord_eq_dec ws w)%nat /\
  (forall shuffledPool, Permutation (Db.weightedPool now ws) shuffledPool ->
     count_occ SavedWord_eq_dec shuffledPool w =
     count_occ SavedWord_eq_dec (Db.weightedPool now ws) w) /\
  List.length (Db.weightedPool now ws) =
    list_sum (map (fun x => pushCount (Db.bucketOf now x)) ws) /\
  (List.length ws <= List.length (Db.weightedPool now ws) <= 4 * List.length ws)%nat.
Proof.
  split; [|split; [|split]].
  - rewrite weightedPool_count. destruct (Db.bucketOf now w); reflexivity.
  - intros shuffledPool Hperm. symmetry.
    apply (Permutation_count_occ SavedWord_eq_dec); exact Hperm.
  - apply weightedPool_length.
  - rewrite weightedPool_length. clear w.
    unfold list_sum.
    induction ws as [|x ws IH]; cbn [map fold_right List.length]; [lia|].
    destruct (Db.bucketOf now x); cbn [pushCount]; lia.
Qed.

(** ** The streak and the reviews *)

Section StreakAndReviews.
Context {M : MathImpl} {Zone : TimeZone}.
Variable tz : Z.
Import FSRSService.

(** The calendar day of the streak is the day of the local time value in
    the zone that keeps the offset [tz]. *)
Lemma toDateString_fixedZone (t : Z) :
  Db.toDateString tz t = LocalTime (TimeZone := fixedZone tz) t / msPerDay.
Proof. reflexivity. Qed.

Lemma In_reviewDays (db : LocalDatabaseService) (w : SavedWord) (t : Z) :
  In w (words db) -> Db.reviewDateOf w = Some t ->
  In (Db.toDateString tz t) (Db.reviewDays tz db).
Proof.
  intros Hin Hdate. unfold Db.reviewDays. apply in_map.
  induction (words db) as [|x ws IH]; [destruct Hin|].
  cbn. destruct Hin as [->|Hin].
  - rewrite Hdate. left. reflexivity.
  - destruct (Db.reviewDateOf x); [right|]; apply IH; exact Hin.
Qed.

Lemma filter_non_null_length (l : list (option Z)) :
  (List.length (Db.filter_non_null l) <= List.length l)%nat.
Proof.
  induction l as [|[t|] l IH]; cbn; lia.
Qed.

Lemma addAll_length (days : list Z) :
  forall set,
    (List.length (Db.addAll days set) <= List.length set + List.length days)%nat.
Proof.
  induction days as [|d rest IH]; intro set; cbn; [lia|].
  destruct (existsb (Z.eqb d) set).
  - specialize (IH set). lia.
  - specialize (IH (set ++ [d])). rewrite last_length in IH. lia.
Qed.

Lemma insert_desc_length (d : Z) (l : list Z) :
  List.length (Db.insert_desc d l) = S (List.length l).
Proof.
  induction l as [|x r IH]; cbn; [reflexivity|].
  destruct (x <? d); cbn; [reflexivity|]. rewrite IH. reflexivity.
Qed.

Lemma sort_desc_length (l : list Z) :
  List.length (Db.sort_desc l) = List.length l.
Proof.
  induction l as [|d r IH]; cbn; [reflexivity|].
  rewrite insert_desc_length, IH. reflexivity.
Qed.

Lemma countBack_bounds (rest : list Z) :
  forall currentDay streak,
    streak <= Db.countBack rest currentDay streak
           <= streak + Z.of_nat (List.length rest).
Proof.
  induction rest as [|p rest IH]; intros c k; cbn [Db.countBack List.length].
  - lia.
  - cbn zeta. destruct (p =? c - 1).
    + specialize (IH p (k + 1)). lia.
    + lia.
Qed.

(** X11. The streak is never negative and never exceeds the number of
    stored words. *)
Theorem calculateStreakDays_bounds (now : Z) (db : LocalDatabaseService) :
  0 <= Db.calculateStreakDays tz now db <= Z.of_nat (List.length (words db)).
Proof.
  rewrite calculateStreakDays_unfold.
  assert (Hlen : (List.length (Db.sort_desc (Db.addAll (Db.reviewDays tz db) []))
                  <= List.length (words db))%nat).
  { rewrite sort_desc_length.
    pose proof (addAll_length (Db.reviewDays tz db) []) as H1. cbn in H1.
    unfold Db.reviewDays in *. rewrite length_map in H1.
    pose proof (filter_non_null_length (map Db.reviewDateOf (words db))) as H2.
    rewrite length_map in H2. lia. }
  destruct (Db.sort_desc _) as [|m rest]; [lia|].
  cbn [List.length] in Hlen.
  destruct (negb _ && negb _)%bool; [lia|].
  pose proof (countBack_bounds rest m 1). lia.
Qed.

Lemma list_has_maximum (l : list Z) :
  l <> [] -> exists m, In m l /\ forall d, In d l -> d <= m.
Proof.
  induction l as [|x r IH]; intro Hne; [contradiction Hne; reflexivity|].
  destruct r as [|y r'].
  - exists x. split; [left; reflexivity|]. intros d [<-|[]]. lia.
  - destruct IH as [m [Hm Hmax]]; [discriminate|].
    destruct (Z_le_gt_dec x m) as [Hle|Hgt].
    + exists m. split; [right; exact Hm|].
      intros d [<-|Hd]; [exact Hle | apply Hmax; exact Hd].
    + exists x. split; [left; reflexivity|].
      intros d [<-|Hd]; [lia|]. specialize (Hmax d Hd). lia.
Qed.

(** A persisted review leaves the reviewed word with [last_review = now]. *)
Lemma recordReview_written (now wordId : Z) (result : ReviewResult)
    (db : LocalDatabaseService) :
  localStorage_writes (snd (Db.recordReview now wordId result db)) =
    S (localStorage_writes db) ->
  exists w, In w (words (snd (Db.recordReview now wordId result db))) /\
            id w = wordId /\ Db.reviewDateOf w = Some now.
Proof.
  unfold Db.recordReview.
  destruct (Db.find_word wordId (words db)) as [word|] eqn:Hfind;
    [|cbn; intro H; lia].
  destruct (match fsrs_params word with
            | Some txt => JSON_parse txt
            | None => Normal (initializeParams now)
            end) as [p|e]; [|cbn; intro H; lia].
  destruct (Db.inCooldown now p); [cbn; intro H; lia|].
  destruct (calculateNextReview now p result) as [p'|e] eqn:Hnext;
    [|cbn; intro H; lia].
  intros _. cbn [snd]. unfold Db.updateFSRSParams. rewrite Hfind.
  cbn [words Db.saveToLocalStorage Db.with_words].
  exists (Db.with_fsrs_params (JSON_stringify p') word).
  pose proof (find_word_assign wordId (JSON_stringify p') _ _ Hfind) as Hfound.
  apply find_word_In in Hfound. destruct Hfound as [Hin Hid].
  split; [exact Hin|]. split; [exact Hid|].
  destruct (calculateNextReview_Normal_inv _ _ _ _ Hnext) as [_ [_ [_ [Hlast _]]]].
  unfold Db.reviewDateOf. cbn. exact Hlast.
Qed.

(** X12. A review that was persisted counts for the streak: asked on the
    day of the review or on the day after, and with no stored review dated
    later than the day of asking, the streak is at least 1. *)
Theorem calculateStreakDays_after_review
    (now now' wordId : Z) (result : ReviewResult) (db : LocalDatabaseService) :
  let db' := snd (Db.recordReview now wordId result db) in
  localStorage_writes db' = S (localStorage_writes db) ->
  (forall d, In d (Db.reviewDays tz db') -> d <= Db.toDateString tz now') ->
  Db.toDateString tz now' = Db.toDateString tz now \/
  Db.toDateString tz now' = Db.toDateString tz now + 1 ->
  1 <= Db.calculateStreakDays tz now' db'.
Proof.
  cbn zeta. intros Hwritten Hfuture Hday.
  destruct (recordReview_written now wordId result db Hwritten)
    as [w [Hin [_ Hdate]]].
  pose proof (In_reviewDays _ w now Hin Hdate) as Htoday.
  set (db' := snd (Db.recordReview now wordId result db)) in *.
  destruct (list_has_maximum (Db.reviewDays tz db')) as [m [Hm Hmax]].
  { intro Hnil. rewrite Hnil in Htoday. destruct Htoday. }
  destruct (uniqueDates_head tz db' m Hm Hmax) as [rest [Hsort _]].
  rewrite calculateStreakDays_unfold, Hsort.
  pose proof (Hmax _ Htoday) as Hge. pose proof (Hfuture _ Hm) as Hle.
  replace (negb (m =? Db.toDateString tz now')
           && negb (m =? Db.toDateString tz now' - 1))%bool with false.
  - pose proof (countBack_bounds rest m 1). lia.
  - symmetry. destruct (Z.eq_dec m (Db.toDateString tz now')) as [->|Hne].
    + rewrite Z.eqb_refl. reflexivity.
    + replace (m =? Db.toDateString tz now' - 1) with true by lia.
      apply andb_false_r.
Qed.

(** X13. In a reachable service a review that arrives 50 minutes or more
    after the stored [last_review] -- exactly 50 minutes included -- is
    accepted: the update is computed, stored in the word with
    [last_review = now], written once and announced once. *)
Theorem recordReview_after_cooldown
    (now wordId : Z) (result : ReviewResult) (db : LocalDatabaseService)
    (word : SavedWord) (p : FSRSParams) (last : Z) :
  reachable db ->
  Db.find_word wordId (words db) = Some word ->
  fsrs_params word = Some (ObjectText p) ->
  last_review p = Some last ->
  50 * (1000 * 60) <= now - last ->
  exists p' db',
    calculateNextReview now p result = Normal p' /\
    last_review p' = Some now /\
    Db.recordReview now wordId result db = (Normal tt, db') /\
    Db.find_word wordId (words db') =
      Some (Db.with_fsrs_params (JSON_stringify p') word) /\
    localStorage_writes db' = S (localStorage_writes db) /\
    datachanged_events db' = S (datachanged_events db).
Proof.
  intros Hreach Hfind Htxt Hlast Hwait.
  assert (Hcool : Db.inCooldown now p = false).
  { destruct (Db.inCooldown now p) eqn:E; [|reflexivity].
    apply inCooldown_true_iff in E. destruct E as [l [Hl Hlt]].
    rewrite Hlast in Hl. injection Hl as <-. lia. }
  destruct (find_word_In _ _ _ Hfind) as [Hin _].
  pose proof (reachable_numeric_invariant db Hreach) as Hall.
  rewrite Forall_forall in Hall.
  destruct (Hall word Hin) as [p0 [d [s [q [Htxt0 [Hd [Hs Hq]]]]]]].
  rewrite Htxt in Htxt0. injection Htxt0 as <-.
  destruct (calculateNextReview_numeric_returns now p result d s q
              Hd Hs Hq Hcool) as [p' Hp'].
  destruct (recordReview_accepted now wordId result db word p p'
              Hfind Htxt Hcool Hp') as [db' [Hrec [Hfound [Hw [He _]]]]].
  destruct (calculateNextReview_Normal_inv _ _ _ _ Hp') as [_ [_ [_ [Hl _]]]].
  exists p', db'. repeat split; assumption.
Qed.

End StreakAndReviews.

(** ** When a reviewed word is due again *)

Section DueAfterReview.
Context {M : MathImpl} {Zone : TimeZone}.
Import FSRSService.

Lemma Qround_half_up_ge_1 (i : Q) : (1 <= i)%Q -> 1 <= Qround_half_up i.
Proof.
  intro Hi. unfold Qround_half_up.
  change 1 with (Qfloor (inject_Z 1)) at 1.
  apply Qfloor_resp_le. unfold inject_Z. lra.
Qed.

Lemma calculateInterval_graded (s d : number) (r : ReviewResult) :
  r <> AGAIN ->
  (exists i, calculateInterval s d r = Fin i /\ (1 <= i)%Q) \/
  calculateInterval s d r = PInf \/ calculateInterval s d r = NaN.
Proof.
  intro Hr. unfold calculateInterval.
  replace (ReviewResult_eqb r AGAIN) with false
    by (destruct r; [contradiction Hr|..]; reflexivity).
  match goal with
  | |- context [Math_max (Fin 1) ?y] => destruct y as [x| | |]
  end.
  - left. rewrite Math_max_Fin. eexists. split; [reflexivity|].
    q_cases; lra.
  - right. left. reflexivity.
  - left. exists 1%Q. split; [reflexivity|]. lra.
  - right. right. reflexivity.
Qed.

(** The day count of an update that returns: a whole number of calendar
    days on the local time value, 0 for Again and at least 1 for the other
    grades. *)
Lemma calculateNextReview_whole_days
    (now : Z) (p p' : FSRSParams) (r : ReviewResult) :
  calculateNextReview now p r = Normal p' ->
  exists n, next_review p' = UTC (LocalTime now + n * msPerDay) /\
            (r = AGAIN -> n = 0) /\ (r <> AGAIN -> 1 <= n).
Proof.
  destruct (ReviewResult_eqb r AGAIN) eqn:E.
  - assert (r = AGAIN) as -> by (destruct r; try discriminate; reflexivity).
    intro H. exists 0. rewrite (calculateNextReview_AGAIN_next_review now p p' H).
    split; [f_equal; lia|]. split; [reflexivity|].
    intro Hne. contradiction Hne. reflexivity.
  - assert (Hr : r <> AGAIN) by (intros ->; discriminate E).
    destruct (calculateInterval_graded (updatedStability now p r)
                (updatedDifficulty p r) r Hr) as [[i [Hi Hge]]|[Hi|Hi]].
    + rewrite (calculateNextReview_finite_interval now p r i Hi).
      intro H. injection H as <-. cbn [next_review].
      exists (Qround_half_up i). split; [reflexivity|].
      split; [intro; contradiction|]. intros _.
      apply Qround_half_up_ge_1. exact Hge.
    + unfold calculateNextReview. rewrite Hi. discriminate.
    + unfold calculateNextReview. rewrite Hi. discriminate.
Qed.

(** A persisted review, with the state it came from and the state it
    stored. *)
Lemma recordReview_written_state (now wordId : Z) (result : ReviewResult)
    (db : LocalDatabaseService) :
  localStorage_writes (snd (Db.recordReview now wordId result db)) =
    S (localStorage_writes db) ->
  exists word p p',
    calculateNextReview now p result = Normal p' /\
    Db.find_word wordId (words (snd (Db.recordReview now wordId result db))) =
      Some (Db.with_fsrs_params (JSON_stringify p') word).
Proof.
  unfold Db.recordReview.
  destruct (Db.find_word wordId (words db)) as [word|] eqn:Hfind;
    [|cbn; intro H; lia].
  destruct (match fsrs_params word with
            | Some txt => JSON_parse txt
            | None => Normal (initializeParams now)
            end) as [p|e]; [|cbn; intro H; lia].
  destruct (Db.inCooldown now p); [cbn; intro H; lia|].
  destruct (calculateNextReview now p result) as [p'|e] eqn:Hnext;
    [|cbn; intro H; lia].
  intros _. exists word, p, p'. split; [exact Hnext|].
  cbn [snd]. unfold Db.updateFSRSParams. rewrite Hfind.
  cbn [words Db.saveToLocalStorage Db.with_words].
  apply find_word_assign. exact Hfind.
Qed.

(** X14. A persisted review graded Again leaves the word due at once: it is
    returned by [getWordsForReview] at the instant of the review and at every
    later one.  Yet for the next 50 minutes a further review of it is only
    logged as skipped. *)
Theorem again_due_at_once_but_cooling
    (now wordId : Z) (db : LocalDatabaseService) :
  let db' := snd (Db.recordReview now wordId AGAIN db) in
  localStorage_writes db' = S (localStorage_writes db) ->
  exists w,
    Db.find_word wordId (words db') = Some w /\
    (forall t, now <= t -> In w (DbQueries.getWordsForReview t db')) /\
    (forall t r, t - now < 50 * (1000 * 60) ->
       Db.recordReview t wordId r db' =
         (Normal tt, Db.console_push (log_cooldown_skipped wordId) db')).
Proof.
  cbn zeta. intro Hwritten.
  destruct (recordReview_written_state now wordId AGAIN db Hwritten)
    as [word [p [p' [Hnext Hfound]]]].
  set (db' := snd (Db.recordReview now wordId AGAIN db)) in *.
  exists (Db.with_fsrs_params (JSON_stringify p') word).
  split; [exact Hfound|].
  pose proof (calculateNextReview_AGAIN_due now p p' Hnext) as Hdue.
  destruct (calculateNextReview_Normal_inv _ _ _ _ Hnext) as [_ [_ [_ [Hlast _]]]].
  split.
  - intros t Ht. unfold DbQueries.getWordsForReview. apply filter_In. split.
    + apply find_word_In in Hfound. tauto.
    + unfold DbQueries.isDueForReview. cbn. apply Z.leb_le. lia.
  - intros t r Hsoon. unfold Db.recordReview. rewrite Hfound. cbn.
    assert (Hcool : Db.inCooldown t
              {| difficulty := stringify_value (difficulty p');
                 stability := stringify_value (stability p');
                 retrievability := stringify_value (retrievability p');
                 last_review := last_review p';
                 next_review := next_review p';
                 review_count := stringify_value (review_count p') |} = true).
    { apply inCooldown_true_iff. exists now. cbn. split; [exact Hlast | exact Hsoon]. }
    rewrite Hcool. reflexivity.
Qed.

(** X15. A persisted review graded Hard, Good or Easy schedules the word a
    whole number of calendar days ahead, at least one, at the same local time
    of day: [next_review] is the instant of that local time, and
    [getWordsForReview] returns the word from that instant on and not before.
    In a zone with a fixed offset the instant lies that many periods of 24
    hours after the review, so the word is not due before a full day has
    passed; where the clocks change in between, the day added is shorter or
    longer. *)
Theorem graded_review_due_days_ahead
    (now wordId : Z) (result : ReviewResult) (db : LocalDatabaseService) :
  let db' := snd (Db.recordReview now wordId result db) in
  result <> AGAIN ->
  localStorage_writes db' = S (localStorage_writes db) ->
  exists w p' n,
    Db.find_word wordId (words db') = Some w /\
    fsrs_params w = Some (ObjectText p') /\
    1 <= n /\
    next_review p' = UTC (LocalTime now + n * msPerDay) /\
    (forall t, In w (DbQueries.getWordsForReview t db') <-> next_review p' <= t) /\
    (fixed_offset Zone ->
       next_review p' = now + n * msPerDay /\
       forall t, t < now + msPerDay ->
                 ~ In w (DbQueries.getWordsForReview t db')).
Proof.
  cbn zeta. intros Hgrade Hwritten.
  destruct (recordReview_written_state now wordId result db Hwritten)
    as [word [p [p' [Hnext Hfound]]]].
  destruct (calculateNextReview_whole_days now p p' result Hnext)
    as [n [Hn [_ Hpos]]].
  specialize (Hpos Hgrade).
  exists (Db.with_fsrs_params (JSON_stringify p') word). eexists. exists n.
  split; [exact Hfound|]. split; [reflexivity|].
  cbn [next_review]. split; [exact Hpos|]. split; [exact Hn|].
  assert (Hdue : forall t,
    In (Db.with_fsrs_params (JSON_stringify p') word)
       (DbQueries.getWordsForReview t
          (snd (Db.recordReview now wordId result db))) <->
    next_review p' <= t).
  { intro t. unfold DbQueries.getWordsForReview. rewrite filter_In.
    unfold DbQueries.isDueForReview. cbn. rewrite Z.leb_le.
    apply find_word_In in Hfound. tauto. }
  split; [exact Hdue|].
  intros [tz [Hlocal Hutc]].
  assert (Hfixed : next_review p' = now + n * msPerDay)
    by (rewrite Hn, Hutc, Hlocal; lia).
  split; [exact Hfixed|].
  intros t Ht Hin. apply Hdue in Hin. unfold msPerDay in *. nia.
Qed.

End DueAfterReview.

(** ** The figures of the dashboard and the views of a word *)

Section DashboardFigures.

Import StatsDashboard.

Ltac q_hyps :=
  repeat match goal with
  | H : Qle_bool _ _ = true |- _ => apply Qle_bool_iff in H
  | H : Qle_bool _ _ = false |- _ => apply Qle_bool_false_iff in H
  | H : Qeq_bool _ _ = true |- _ => apply Qeq_bool_iff in H
  | H : Qeq_bool _ _ = false |- _ => apply Qeq_bool_false_iff in H
  end.

Lemma category_exclusive (w : SavedWord) :
  (Nat.b2n (isMastered w) + Nat.b2n (isLearning w) + Nat.b2n (isNew w) <= 1)%nat.
Proof.
  unfold isMastered, isLearning, isNew.
  destruct (fsrs_params w) as [[|p]|]; cbn; try lia.
  destruct (stability p) as [| |[s| | |]]; cbn; try lia.
  unfold Qlt_bool.
  destruct (Qle_bool s 30) eqn:E30; destruct (Qle_bool s 0) eqn:E0;
    destruct (Qeq_bool s 0) eqn:Ez; cbn; try lia; exfalso; q_hyps; lra.
Qed.

Lemma category_exact (w : SavedWord) :
  (forall p, fsrs_params w = Some (ObjectText p) ->
     exists s, stability p = Num (Fin s) /\ (0 <= s)%Q) ->
  (Nat.b2n (isMastered w) + Nat.b2n (isLearning w) + Nat.b2n (isNew w) = 1)%nat.
Proof.
  intro Hs. unfold isMastered, isLearning, isNew.
  destruct (fsrs_params w) as [[|p]|]; cbn; try lia.
  destruct (Hs p eq_refl) as [s [-> Hpos]]. cbn.
  unfold Qlt_bool.
  destruct (Qle_bool s 30) eqn:E30; destruct (Qle_bool s 0) eqn:E0;
    destruct (Qeq_bool s 0) eqn:Ez; cbn; try lia; exfalso; q_hyps; lra.
Qed.

Lemma filter_length_b2n {A : Type} (f : A -> bool) (l : list A) :
  List.length (filter f l) = fold_right (fun a n => (Nat.b2n (f a) + n)%nat) 0%nat l.
Proof.
  induction l as [|a l IH]; cbn; [reflexivity|].
  destruct (f a); cbn; rewrite IH; reflexivity.
Qed.

(** X16. The three categories of the dashboard never count a word twice:
    mastered + learning + new is at most the number of words, and it is the
    number of words when every stored stability is a number that is not
    negative. *)
Theorem dashboard_categories (ws : list SavedWord) :
  (calculateMasteredWords ws + calculateLearningWords ws + calculateNewWords ws
   <= List.length ws)%nat /\
  ((forall w p, In w ws -> fsrs_params w = Some (ObjectText p) ->
      exists s, stability p = Num (Fin s) /\ (0 <= s)%Q) ->
   (calculateMasteredWords ws + calculateLearningWords ws + calculateNewWords ws
    = List.length ws)%nat).
Proof.
  unfold calculateMasteredWords, calculateLearningWords, calculateNewWords.
  rewrite !filter_length_b2n. split.
  - induction ws as [|w ws IH]; cbn; [lia|].
    pose proof (category_exclusive w). lia.
  - induction ws as [|w ws IH]; cbn; intro Hs; [lia|].
    assert (Hw := category_exact w (fun p => Hs w p (or_introl eq_refl))).
    assert (Hrest := IH (fun w' p Hin => Hs w' p (or_intror Hin))). lia.
Qed.

(** X17. The knowledge map and the dashboard classify alike: a word is
    shown as mastered exactly when the dashboard counts it as mastered, as
    learning exactly when it counts it as learning, and every word the
    dashboard counts as new is shown as new. *)
Theorem knowledge_map_agrees_with_dashboard (w : SavedWord) :
  (KnowledgeMap.statusOf w = KnowledgeMap.mastered <-> isMastered w = true) /\
  (KnowledgeMap.statusOf w = KnowledgeMap.learning <-> isLearning w = true) /\
  (isNew w = true -> KnowledgeMap.statusOf w = KnowledgeMap.new).
Proof.
  unfold KnowledgeMap.statusOf, isMastered, isLearning, isNew.
  destruct (fsrs_params w) as [[|p]|]; cbn;
    try (repeat split; intros; try discriminate; reflexivity).
  destruct (stability p) as [| |[s| | |]]; cbn;
    try (repeat split; intros; try discriminate; reflexivity).
  unfold num_gt, num_lt, num_le, Qlt_bool.
  destruct (Qeq_bool s 0) eqn:Ez;
    destruct (Qle_bool s 30) eqn:E30; destruct (Qle_bool s 0) eqn:E0; cbn;
    try (repeat split; intros; try discriminate; reflexivity);
    exfalso; q_hyps; lra.
Qed.

Lemma addRetention_bounded (ws : list SavedWord) :
  (forall w p, In w ws -> fsrs_params w = Some (ObjectText p) ->
     exists q, retrievability p = Num (Fin q) /\ (0 <= q <= 1)%Q) ->
  forall t0, exists t,
    fold_left addRetention ws (Fin t0) = Fin t /\
    (t0 <= t <= t0 + inject_Z (Z.of_nat (List.length ws)))%Q.
Proof.
  induction ws as [|w ws IH]; intros Hq t0.
  - exists t0. split; [reflexivity|]. cbn. unfold inject_Z. lra.
  - assert (Hstep : exists t1, addRetention (Fin t0) w = Fin t1 /\
                               (t0 <= t1 <= t0 + 1)%Q).
    { unfold addRetention. destruct (fsrs_params w) as [[|p]|] eqn:E; cbn.
      - exists t0. split; [reflexivity|]. lra.
      - destruct (Hq w p (or_introl eq_refl) E) as [q [-> Hrange]]. cbn.
        destruct (Qeq_bool q 0) eqn:Ez; cbn; eexists; (split; [reflexivity|]); lra.
      - exists t0. split; [reflexivity|]. lra. }
    destruct Hstep as [t1 [Ht1 Hr1]].
    destruct (IH (fun w' p Hin => Hq w' p (or_intror Hin)) t1) as [t [Ht Hr]].
    exists t. cbn [fold_left]. rewrite Ht1. split; [exact Ht|].
    cbn [List.length]. rewrite Nat2Z.inj_succ. unfold Z.succ.
    rewrite inject_Z_plus. unfold inject_Z at 2. lra.
Qed.

(** X18. The average retention of an empty word array is 0 (nothing is
    divided); when every stored retrievability is a number between 0 and 1
    the figure is a whole percentage between 0 and 100. *)
Theorem calculateAverageRetention_percentage (ws : list SavedWord) :
  calculateAverageRetention [] = Fin 0 /\
  ((forall w p, In w ws -> fsrs_params w = Some (ObjectText p) ->
      exists q, retrievability p = Num (Fin q) /\ (0 <= q <= 1)%Q) ->
   exists n, calculateAverageRetention ws = Fin (inject_Z n) /\ 0 <= n <= 100).
Proof.
  split; [reflexivity|]. intro Hq. unfold calculateAverageRetention.
  destruct ws as [|w ws']; [exists 0; split; [reflexivity|lia]|].
  set (ws := w :: ws') in *.
  replace (List.length ws =? 0)%nat with false by reflexivity.
  destruct (addRetention_bounded ws Hq 0) as [t [Ht Hr]]. rewrite Ht.
  assert (Hlen : (0 < inject_Z (Z.of_nat (List.length ws)))%Q).
  { unfold ws. cbn [List.length]. rewrite Nat2Z.inj_succ.
    unfold Qlt, inject_Z. cbn. lia. }
  cbn [num_div].
  replace (Qeq_bool (inject_Z (Z.of_nat (List.length ws))) 0) with false
    by (symmetry; apply Qeq_bool_false_iff; lra).
  cbn [num_mul Math_round].
  eexists. split; [reflexivity|].
  set (len := inject_Z (Z.of_nat (List.length ws))) in *.
  assert (Hdiv0 : (0 <= t / len)%Q) by (apply Qle_shift_div_l; lra).
  assert (Hdiv1 : (t / len <= 1)%Q) by (apply Qle_shift_div_r; lra).
  unfold Qround_half_up. split.
  - assert (H : Qfloor 0 <= Qfloor (t / len * 100 + (1 # 2)))
      by (apply Qfloor_resp_le; lra).
    exact H.
  - assert (H : Qfloor (t / len * 100 + (1 # 2)) <= Qfloor (100 + (1 # 2)))
      by (apply Qfloor_resp_le; lra).
    exact H.
Qed.

(** X19. Unparseable stored data is read four ways: practice selection
    puts the word in the mastered bucket, while [getWordsForReview] returns
    it as due, the dashboard counts it as new and the knowledge map shows it
    as new.  For data that parses the views agree: a word of the due bucket
    is returned by [getWordsForReview], and a word is in the fresh bucket
    exactly when the dashboard counts it as new. *)
Theorem views_of_a_word (now : Z) (w : SavedWord) :
  (fsrs_params w = Some Garbled ->
     Db.bucketOf now w = Db.Mastered /\
     DbQueries.isDueForReview now w = true /\
     isNew w = true /\
     KnowledgeMap.statusOf w = KnowledgeMap.new) /\
  (Db.bucketOf now w = Db.Due -> DbQueries.isDueForReview now w = true) /\
  (fsrs_params w <> Some Garbled ->
     (Db.bucketOf now w = Db.Fresh <-> isNew w = true)).
Proof.
  unfold Db.bucketOf, DbQueries.isDueForReview, isNew, KnowledgeMap.statusOf.
  split; [intros ->; repeat split; reflexivity|]. split.
  - destruct (fsrs_params w) as [[|p]|]; cbn; try discriminate.
    destruct (strict_eq (stability p) (Fin 0)); [discriminate|].
    destruct (next_review p <=? now); [reflexivity|].
    destruct (_ && _)%bool; discriminate.
  - intro Hparse. destruct (fsrs_params w) as [[|p]|]; cbn.
    + contradiction Hparse. reflexivity.
    + destruct (strict_eq (stability p) (Fin 0)); [split; reflexivity|].
      destruct (next_review p <=? now); [split; discriminate|].
      destruct (_ && _)%bool; split; discriminate.
    + split; reflexivity.
Qed.

End DashboardFigures.

(** ** Meanings and examples *)

Section VocabularyStore.
Context {M : MathImpl} {Zone : TimeZone}.
Import Vocabulary.

Lemma saveExamples_fields (meaningId : Z) (sentences : list string) :
  forall s,
    let s' := fold_left (fun acc sentence => saveExample meaningId sentence acc)
                        sentences s in
    meanings s' = meanings s /\
    examples s' = examples s ++ numbered (nextExampleId s) meaningId sentences /\
    nextMeaningId s' = nextMeaningId s /\
    nextExampleId s' = nextExampleId s + Z.of_nat (List.length sentences) /\
    words (service s') = words (service s) /\
    nextWordId (service s') = nextWordId (service s) /\
    localStorage_writes (service s') =
      (localStorage_writes (service s) + List.length sentences)%nat /\
    datachanged_events (service s') =
      (datachanged_events (service s) + List.length sentences)%nat.
Proof.
  induction sentences as [|sentence rest IH]; intro s; cbn zeta.
  - cbn. rewrite app_nil_r. repeat split; lia.
  - cbn [fold_left]. specialize (IH (saveExample meaningId sentence s)).
    cbn zeta in IH. destruct IH as [H1 [H2 [H3 [H4 [H5 [H6 [H7 H8]]]]]]].
    rewrite H1, H2, H3, H4, H5, H6, H7, H8. cbn.
    rewrite <- app_assoc. cbn. repeat split; lia.
Qed.

(** The store after [saveMeaning]. *)
Lemma saveMeaning_fields (wordId : Z) (meaning : WordMeaning.t) (s : store) :
  let newMeaning :=
    {| SavedMeaning.id := nextMeaningId s;
       SavedMeaning.word_id := wordId;
       SavedMeaning.partOfSpeech := WordMeaning.partOfSpeech meaning;
       SavedMeaning.englishDefinition := WordMeaning.englishDefinition meaning;
       SavedMeaning.koreanTranslation := WordMeaning.koreanTranslation meaning |} in
  let s' := snd (saveMeaning wordId meaning s) in
  fst (saveMeaning wordId meaning s) = nextMeaningId s /\
  meanings s' = meanings s ++ [newMeaning] /\
  examples s' = examples s ++ numbered (nextExampleId s) (nextMeaningId s)
                                       (WordMeaning.exampleSentences meaning) /\
  nextMeaningId s' = nextMeaningId s + 1 /\
  nextExampleId s' =
    nextExampleId s + Z.of_nat (List.length (WordMeaning.exampleSentences meaning)) /\
  words (service s') = words (service s) /\
  nextWordId (service s') = nextWordId (service s) /\
  localStorage_writes (service s') =
    S (localStorage_writes (service s)
       + List.length (WordMeaning.exampleSentences meaning)) /\
  datachanged_events (service s') =
    S (datachanged_events (service s)
       + List.length (WordMeaning.exampleSentences meaning)).
Proof.
  cbn zeta. unfold saveMeaning. cbn [fst snd SavedMeaning.id].
  match goal with
  | |- context [fold_left ?f ?l ?s0] =>
      destruct (saveExamples_fields (nextMeaningId s) l s0)
        as [H1 [H2 [H3 [H4 [H5 [H6 [H7 H8]]]]]]]
  end.
  cbn in H1, H2, H3, H4, H5, H6, H7, H8.
  cbn [saveToLocalStorage with_service meanings examples nextMeaningId
       nextExampleId service Db.saveToLocalStorage words nextWordId
       localStorage_writes datachanged_events].
  rewrite H1, H2, H3, H4, H5, H6, H7, H8. repeat split.
Qed.

Lemma numbered_In (start meaningId : Z) (sentences : list string)
    (e : SavedExample.t) :
  In e (numbered start meaningId sentences) ->
  SavedExample.meaning_id e = meaningId /\
  start <= SavedExample.id e < start + Z.of_nat (List.length sentences).
Proof.
  revert start. induction sentences as [|x rest IH]; intros start Hin;
    [destruct Hin|].
  cbn [numbered List.length] in *. rewrite Nat2Z.inj_succ.
  destruct Hin as [<-|Hin]; cbn; [lia|].
  destruct (IH _ Hin). lia.
Qed.

Lemma numbered_ids_distinct (start meaningId : Z) (sentences : list string) :
  NoDup (map SavedExample.id (numbered start meaningId sentences)).
Proof.
  revert start. induction sentences as [|x rest IH]; intro start; cbn;
    constructor; [|apply IH].
  intro Hin. apply in_map_iff in Hin. destruct Hin as [e [Hid He]].
  apply numbered_In in He. lia.
Qed.

Lemma numbered_sentences (start meaningId : Z) (sentences : list string) :
  map SavedExample.sentence
    (filter (fun e => SavedExample.meaning_id e =? meaningId)
            (numbered start meaningId sentences)) = sentences.
Proof.
  revert start. induction sentences as [|x rest IH]; intro start; cbn;
    [reflexivity|].
  rewrite Z.eqb_refl. cbn. rewrite IH. reflexivity.
Qed.

Lemma numbered_other (start meaningId other : Z) (sentences : list string) :
  other <> meaningId ->
  filter (fun e => SavedExample.meaning_id e =? other)
         (numbered start meaningId sentences) = [].
Proof.
  intro Hne. revert start. induction sentences as [|x rest IH]; intro start; cbn;
    [reflexivity|].
  replace (meaningId =? other) with false by lia. apply IH.
Qed.

Lemma saveMeaning_consistent (wordId : Z) (meaning : WordMeaning.t) (s : store) :
  consistent s ->
  (exists w, In w (words (service s)) /\ id w = wordId) ->
  consistent (snd (saveMeaning wordId meaning s)).
Proof.
  intros [Hmd Hmb Hed Heb Hem Hmw] Hword.
  destruct (saveMeaning_fields wordId meaning s)
    as [_ [Hm [He [Hnm [Hne [Hw _]]]]]]. cbn zeta in *.
  constructor; rewrite ?Hm, ?He, ?Hnm, ?Hne, ?Hw.
  - rewrite map_app. cbn. apply NoDup_app; [exact Hmd| |].
    + constructor; [intros []|constructor].
    + intros x Hx [<-|[]]. apply in_map_iff in Hx.
      destruct Hx as [m [Hid Hin]]. specialize (Hmb m Hin). lia.
  - intros m Hin. apply in_app_iff in Hin. destruct Hin as [Hin|[<-|[]]].
    + specialize (Hmb m Hin). lia.
    + cbn. lia.
  - rewrite map_app. apply NoDup_app; [exact Hed|apply numbered_ids_distinct|].
    intros x Hx Hy. apply in_map_iff in Hx. destruct Hx as [e [Hid Hin]].
    apply in_map_iff in Hy. destruct Hy as [e' [Hid' Hin']].
    specialize (Heb e Hin). apply numbered_In in Hin'. lia.
  - intros e Hin. apply in_app_iff in Hin. destruct Hin as [Hin|Hin].
    + specialize (Heb e Hin). lia.
    + apply numbered_In in Hin. lia.
  - intros e Hin. apply in_app_iff in Hin. destruct Hin as [Hin|Hin].
    + destruct (Hem e Hin) as [m [Hm' Hid]]. exists m.
      split; [apply in_app_iff; left; exact Hm'|exact Hid].
    + apply numbered_In in Hin. destruct Hin as [Hmid _].
      eexists. split; [apply in_app_iff; right; left; reflexivity|].
      cbn. symmetry. exact Hmid.
  - intros m Hin. apply in_app_iff in Hin. destruct Hin as [Hin|[<-|[]]].
    + apply Hmw. exact Hin.
    + cbn. exact Hword.
Qed.

Lemma saveMeanings_consistent (wordId : Z) (selected : list WordMeaning.t) :
  forall s,
    consistent s ->
    (exists w, In w (words (service s)) /\ id w = wordId) ->
    consistent (fold_left (fun acc meaning => snd (saveMeaning wordId meaning acc))
                          selected s).
Proof.
  induction selected as [|meaning rest IH]; intros s Hc Hword; cbn [fold_left];
    [exact Hc|].
  apply IH.
  - apply saveMeaning_consistent; assumption.
  - destruct (saveMeaning_fields wordId meaning s) as [_ [_ [_ [_ [_ [Hw _]]]]]].
    cbn zeta in Hw. rewrite Hw. exact Hword.
Qed.

Lemma saveWord_has_word (now : Z) (word phonetic : string)
    (db : LocalDatabaseService) :
  (exists w, In w (words (snd (Db.saveWord now word phonetic db))) /\
             id w = fst (Db.saveWord now word phonetic db)) /\
  (forall w, In w (words db) -> In w (words (snd (Db.saveWord now word phonetic db)))).
Proof.
  unfold Db.saveWord.
  destruct (find _ (words db)) as [existing|] eqn:Hfind; cbn.
  - split; [|auto]. exists existing. apply find_some in Hfind. tauto.
  - split.
    + eexists. split; [apply in_app_iff; right; left; reflexivity|reflexivity].
    + intros w Hw. apply in_app_iff. left. exact Hw.
Qed.

Lemma reachable_store_consistent_invariant (s : store) :
  reachable_store s -> consistent s.
Proof.
  induction 1 as [|now currentWord phonetic selected s _ IH
                  |now wordId result s _ IH
                  |wordId s _ IH].
  - constructor; cbn; try constructor; intros ? [].
  - unfold handleSaveSelected. cbn [snd fst].
    destruct (saveWord_has_word now currentWord phonetic (service s))
      as [Hnew Hold].
    apply saveMeanings_consistent.
    + destruct IH as [Hmd Hmb Hed Heb Hem Hmw].
      constructor; cbn; try assumption.
      intros m Hin. destruct (Hmw m Hin) as [w [Hw Hid]].
      exists w. split; [apply Hold; exact Hw | exact Hid].
    + exact Hnew.
  - destruct IH as [Hmd Hmb Hed Heb Hem Hmw].
    constructor; cbn; try assumption.
    intros m Hin. destruct (Hmw m Hin) as [w [Hw Hid]].
    assert (Hids : In (id w)
              (map id (words (snd (Db.recordReview now wordId result (service s)))))).
    { rewrite recordReview_map by reflexivity. apply in_map. exact Hw. }
    apply in_map_iff in Hids. destruct Hids as [w' [Hid' Hw']].
    exists w'. split; [exact Hw' | congruence].
  - destruct IH as [Hmd Hmb Hed Heb Hem Hmw].
    constructor; cbn.
    + apply NoDup_map_filter. exact Hmd.
    + intros m Hin. apply filter_In in Hin. apply Hmb. tauto.
    + apply NoDup_map_filter. exact Hed.
    + intros e Hin. apply filter_In in Hin. apply Heb. tauto.
    + intros e Hin. apply filter_In in Hin. destruct Hin as [Hin Hkeep].
      destruct (Hem e Hin) as [m [Hm Hid]]. exists m. split; [|exact Hid].
      apply filter_In. split; [exact Hm|].
      destruct (SavedMeaning.word_id m =? wordId) eqn:E; [|reflexivity].
      exfalso. apply negb_true_iff in Hkeep.
      apply not_true_iff_false in Hkeep. apply Hkeep.
      apply existsb_Zeqb_In. rewrite <- Hid. apply in_map.
      apply filter_In. split; [exact Hm | exact E].
    + intros m Hin. apply filter_In in Hin. destruct Hin as [Hin Hkeep].
      destruct (Hmw m Hin) as [w [Hw Hid]]. exists w. split; [|exact Hid].
      apply filter_In. split; [exact Hw|]. rewrite Hid. exact Hkeep.
Qed.

(** X20. In every store the pages reach, meaning ids and example ids are
    pairwise distinct and below their counters, every example belongs to a
    stored meaning and every meaning to a stored word: saving and deleting
    leave no orphan behind. *)
Theorem reachable_store_consistent (s : store) :
  reachable_store s ->
  NoDup (map SavedMeaning.id (meanings s)) /\
  (forall m, In m (meanings s) -> SavedMeaning.id m < nextMeaningId s) /\
  NoDup (map SavedExample.id (examples s)) /\
  (forall e, In e (examples s) -> SavedExample.id e < nextExampleId s) /\
  (forall e, In e (examples s) ->
     exists m, In m (meanings s) /\ SavedMeaning.id m = SavedExample.meaning_id e) /\
  (forall m, In m (meanings s) ->
     exists w, In w (words (service s)) /\ id w = SavedMeaning.word_id m).
Proof.
  intro Hreach.
  destruct (reachable_store_consistent_invariant s Hreach)
    as [Hmd Hmb Hed Heb Hem Hmw].
  repeat split; assumption.
Qed.

End VocabularyStore.

Section VocabularyLookups.
Context {M : MathImpl} {Zone : TimeZone}.
Import Vocabulary.

Lemma saveMeanings_words (wordId : Z) (selected : list WordMeaning.t) :
  forall s,
    let s' := fold_left (fun acc meaning => snd (saveMeaning wordId meaning acc))
                        selected s in
    words (service s') = words (service s) /\
    nextWordId (service s') = nextWordId (service s).
Proof.
  induction selected as [|meaning rest IH]; intro s; cbn zeta; cbn [fold_left];
    [split; reflexivity|].
  destruct (IH (snd (saveMeaning wordId meaning s))) as [H1 H2].
  destruct (saveMeaning_fields wordId meaning s)
    as [_ [_ [_ [_ [_ [Hw [Hn _]]]]]]].
  cbn zeta in *. rewrite H1, H2, Hw, Hn. split; reflexivity.
Qed.

Lemma reachable_store_word_ids (s : store) :
  reachable_store s ->
  NoDup (map id (words (service s))) /\
  forall w, In w (words (service s)) -> id w < nextWordId (service s).
Proof.
  induction 1 as [|now currentWord phonetic selected s _ [IHnd IH]
                  |now wordId result s _ [IHnd IH]
                  |wordId s _ [IHnd IH]].
  - split; [constructor|]. intros w [].
  - unfold handleSaveSelected. cbn [snd fst].
    match goal with
    | |- context [fold_left ?f selected ?s0] =>
        destruct (saveMeanings_words
                    (fst (saveWord now currentWord phonetic s)) selected s0)
          as [Hw Hn]
    end.
    cbn zeta in Hw, Hn. rewrite Hw, Hn. cbn [saveWord snd with_service service].
    unfold Db.saveWord. destruct (find _ (words (service s))); cbn;
      [split; assumption|].
    split.
    + rewrite map_app. cbn. apply NoDup_app; [exact IHnd| |].
      * constructor; [intros []|constructor].
      * intros x Hx [<-|[]]. apply in_map_iff in Hx.
        destruct Hx as [w [Hid Hin]]. specialize (IH w Hin). lia.
    + intros w Hin. apply in_app_iff in Hin. destruct Hin as [Hin|[<-|[]]].
      * specialize (IH w Hin). lia.
      * cbn. lia.
  - cbn. rewrite recordReview_nextWordId. split.
    + rewrite recordReview_map by reflexivity. exact IHnd.
    + intros w Hw.
      assert (Hid : In (id w) (map id (words (service s)))).
      { rewrite <- (recordReview_map id now wordId result (service s)) by reflexivity.
        apply in_map. exact Hw. }
      apply in_map_iff in Hid. destruct Hid as [w0 [Hid Hw0]].
      rewrite <- Hid. apply IH. exact Hw0.
  - cbn. split.
    + apply NoDup_map_filter. exact IHnd.
    + intros w Hw. apply filter_In in Hw. apply IH. tauto.
Qed.

Lemma find_word_NoDup (ws : list SavedWord) (w : SavedWord) :
  NoDup (map id ws) -> In w ws -> Db.find_word (id w) ws = Some w.
Proof.
  unfold Db.find_word. induction ws as [|x ws IH]; intros Hnd Hin; [destruct Hin|].
  cbn in *. inversion Hnd as [|? ? Hnew Hrest]; subst.
  destruct Hin as [->|Hin]; [rewrite Z.eqb_refl; reflexivity|].
  destruct (id x =? id w) eqn:E; [|apply IH; assumption].
  exfalso. apply Hnew. apply Z.eqb_eq in E. rewrite E. apply in_map. exact Hin.
Qed.

Lemma filter_none {A : Type} (f : A -> bool) (l : list A) :
  (forall x, In x l -> f x = false) -> filter f l = [].
Proof.
  induction l as [|a l IH]; intro H; cbn; [reflexivity|].
  rewrite (H a (or_introl eq_refl)). apply IH. intros x Hx. apply H. right. exact Hx.
Qed.

(** The meanings listed under an id after [saveMeaning]. *)
Lemma saveMeaning_meaningsUnder (wordId : Z) (meaning : WordMeaning.t) (s : store) :
  consistent s ->
  let s' := snd (saveMeaning wordId meaning s) in
  (forall other, other <> wordId -> meaningsUnder other s' = meaningsUnder other s) /\
  (forall w, Db.find_word wordId (words (service s)) = Some w ->
     exists entry,
       meaningsUnder wordId s' = meaningsUnder wordId s ++ [entry] /\
       contentOf entry = meaning).
Proof.
  intros [Hmd Hmb Hed Heb Hem Hmw]. cbn zeta.
  destruct (saveMeaning_fields wordId meaning s)
    as [_ [Hm [He [_ [_ [Hw _]]]]]]. cbn zeta in *.
  assert (Hold : forall m, In m (meanings s) ->
            examplesOf m (snd (saveMeaning wordId meaning s)) = examplesOf m s).
  { intros m Hin. unfold examplesOf. rewrite He, filter_app, map_app.
    rewrite numbered_other, app_nil_r; [reflexivity|].
    specialize (Hmb m Hin). lia. }
  assert (Hmap : forall wid,
            map (fun m => (m, examplesOf m (snd (saveMeaning wordId meaning s))))
                (filter (fun m => SavedMeaning.word_id m =? wid) (meanings s)) =
            map (fun m => (m, examplesOf m s))
                (filter (fun m => SavedMeaning.word_id m =? wid) (meanings s))).
  { intro wid. apply map_ext_in. intros m Hin. apply filter_In in Hin.
    rewrite Hold by tauto. reflexivity. }
  split.
  - intros other Hne. unfold meaningsUnder, getWordWithMeanings. rewrite Hw.
    destruct (Db.find_word other (words (service s))); [|reflexivity].
    cbn [wordMeanings]. rewrite Hm, filter_app. cbn [filter SavedMeaning.word_id].
    replace (wordId =? other) with false by lia.
    rewrite app_nil_r. apply Hmap.
  - intros w Hfind. unfold meaningsUnder, getWordWithMeanings. rewrite Hw, Hfind.
    cbn [wordMeanings]. rewrite Hm, filter_app. cbn [filter SavedMeaning.word_id].
    rewrite Z.eqb_refl, map_app, Hmap. cbn [map].
    eexists. split; [reflexivity|].
    unfold contentOf, examplesOf. cbn [fst snd SavedMeaning.id
      SavedMeaning.partOfSpeech SavedMeaning.englishDefinition
      SavedMeaning.koreanTranslation].
    rewrite He, filter_app, map_app, numbered_sentences.
    rewrite filter_none; [destruct meaning; reflexivity|].
    intros e Hin. destruct (Hem e Hin) as [m [Hin' Hid]].
    specialize (Hmb m Hin'). lia.
Qed.

Lemma saveMeanings_meaningsUnder (wordId : Z) (selected : list WordMeaning.t) :
  forall s w,
    consistent s ->
    In w (words (service s)) ->
    Db.find_word wordId (words (service s)) = Some w ->
    let s' := fold_left (fun acc meaning => snd (saveMeaning wordId meaning acc))
                        selected s in
    map contentOf (meaningsUnder wordId s') =
      map contentOf (meaningsUnder wordId s) ++ selected /\
    (forall other, other <> wordId -> meaningsUnder other s' = meaningsUnder other s).
Proof.
  induction selected as [|meaning rest IH]; intros s w Hc Hin Hfind; cbn zeta;
    cbn [fold_left].
  - rewrite app_nil_r. split; reflexivity.
  - destruct (saveMeaning_meaningsUnder wordId meaning s Hc) as [Hother Hsame].
    destruct (Hsame w Hfind) as [entry [Hentry Hcontent]].
    destruct (saveMeaning_fields wordId meaning s)
      as [_ [_ [_ [_ [_ [Hw _]]]]]]. cbn zeta in Hw.
    destruct (IH (snd (saveMeaning wordId meaning s)) w) as [H1 H2].
    + apply saveMeaning_consistent; [exact Hc|].
      exists w. split; [exact Hin|]. apply find_word_In in Hfind. tauto.
    + rewrite Hw. exact Hin.
    + rewrite Hw. exact Hfind.
    + cbn zeta in H1, H2. split.
      * rewrite H1, Hentry, map_app, <- app_assoc. cbn. rewrite Hcontent.
        reflexivity.
      * intros other Hne. rewrite H2 by exact Hne. apply Hother. exact Hne.
Qed.

(** X21. Saving selected meanings of a word, in a store the pages reach:
    afterwards the word is found under the returned id with the text it was
    first saved with, and its meanings are the ones it had before followed
    by the selected ones, each with its example sentences, in order.  A word
    saved again is not replaced: its meanings accumulate.  The meanings
    listed under every other id are as before. *)
Theorem handleSaveSelected_lists_meanings
    (now : Z) (currentWord phonetic : string)
    (selectedMeanings : list WordMeaning.t) (s : store) :
  reachable_store s ->
  let r := handleSaveSelected now currentWord phonetic selectedMeanings s in
  exists found,
    getWordWithMeanings (fst r) (snd r) = Some found /\
    id (word found) = fst r /\
    text_key (word found) = toLowerCase currentWord /\
    map contentOf (wordMeanings found) =
      map contentOf (meaningsUnder (fst r) s) ++ selectedMeanings /\
    forall other, other <> fst r ->
      meaningsUnder other (snd r) = meaningsUnder other s.
Proof.
  intro Hreach. cbn zeta. unfold handleSaveSelected. cbn [fst snd].
  pose proof (reachable_store_consistent_invariant s Hreach) as Hc.
  destruct (reachable_store_word_ids s Hreach) as [Hnd Hids].
  unfold saveWord. cbn [fst snd].
  set (s1 := with_service
               (snd (Db.saveWord now currentWord phonetic (service s))) s).
  set (wordId := fst (Db.saveWord now currentWord phonetic (service s))).
  assert (Hs1 : exists w,
            In w (words (service s1)) /\
            Db.find_word wordId (words (service s1)) = Some w /\
            text_key w = toLowerCase currentWord /\
            meaningsUnder wordId s1 = meaningsUnder wordId s /\
            (forall other, other <> wordId ->
               meaningsUnder other s1 = meaningsUnder other s) /\
            consistent s1).
  { destruct Hc as [Hmd Hmb Hed Heb Hem Hmw].
    unfold s1, wordId, Db.saveWord.
    destruct (find (fun w => String.eqb (toLowerCase (text w))
                                        (toLowerCase currentWord))
                   (words (service s))) as [existing|] eqn:Hfind; cbn [fst snd].
    - apply find_some in Hfind. destruct Hfind as [Hin Htext].
      apply String.eqb_eq in Htext.
      exists existing. split; [exact Hin|].
      split; [apply find_word_NoDup; assumption|].
      split; [exact Htext|]. split; [reflexivity|]. split; [reflexivity|].
      constructor; assumption.
    - eexists. split; [cbn; apply in_app_iff; right; left; reflexivity|].
      assert (Hfresh : Db.find_word (nextWordId (service s)) (words (service s))
                       = None) by (apply find_word_fresh; exact Hids).
      split; [|split; [reflexivity|split; [|split]]].
      + cbn. unfold Db.find_word in *. rewrite find_app_first, Hfresh. cbn.
        rewrite Z.eqb_refl. reflexivity.
      + unfold meaningsUnder, getWordWithMeanings. cbn.
        rewrite Hfresh. unfold Db.find_word in *.
        rewrite find_app_first, Hfresh. cbn. rewrite Z.eqb_refl. cbn.
        rewrite filter_none; [reflexivity|].
        intros m Hm. destruct (Hmw m Hm) as [w [Hw Hid]].
        specialize (Hids w Hw). lia.
      + intros other Hne. cbn [id] in Hne.
        unfold meaningsUnder, getWordWithMeanings. cbn.
        unfold Db.find_word. rewrite find_app_first.
        destruct (find (fun w => id w =? other) (words (service s)));
          [reflexivity|].
        cbn. replace (nextWordId (service s) =? other) with false by lia.
        reflexivity.
      + constructor; cbn; try assumption.
        intros m Hm. destruct (Hmw m Hm) as [w [Hw Hid]].
        exists w. split; [apply in_app_iff; left; exact Hw | exact Hid]. }
  destruct Hs1 as [w [Hin [Hfind [Htext [Hsame [Hother Hc1]]]]]].
  destruct (saveMeanings_meaningsUnder wordId selectedMeanings s1 w Hc1 Hin Hfind)
    as [H1 H2].
  destruct (saveMeanings_words wordId selectedMeanings s1) as [Hw _].
  cbn zeta in H1, H2, Hw.
  set (s2 := fold_left (fun acc meaning => snd (saveMeaning wordId meaning acc))
                       selectedMeanings s1) in *.
  assert (Hget : getWordWithMeanings wordId s2 =
                 Some {| word := w; wordMeanings := meaningsUnder wordId s2 |}).
  { unfold meaningsUnder, getWordWithMeanings. rewrite Hw, Hfind. reflexivity. }
  eexists. split; [exact Hget|]. cbn [word wordMeanings].
  split; [apply find_word_In in Hfind; tauto|].
  split; [exact Htext|]. split.
  - rewrite H1, Hsame. reflexivity.
  - intros other Hne. rewrite H2 by exact Hne. apply Hother. exact Hne.
Qed.

Lemma find_word_filter_other (wordId other : Z) (ws : list SavedWord) :
  other <> wordId ->
  Db.find_word other (filter (fun w => negb (id w =? wordId)) ws) =
  Db.find_word other ws.
Proof.
  intro Hne. unfold Db.find_word. induction ws as [|w ws IH]; cbn; [reflexivity|].
  destruct (id w =? wordId) eqn:E; cbn.
  - apply Z.eqb_eq in E. replace (id w =? other) with false by lia. exact IH.
  - destruct (id w =? other); [reflexivity | exact IH].
Qed.

Lemma find_word_filter_same (wordId : Z) (ws : list SavedWord) :
  Db.find_word wordId (filter (fun w => negb (id w =? wordId)) ws) = None.
Proof.
  unfold Db.find_word.
  destruct (find _ (filter _ ws)) as [w|] eqn:E; [|reflexivity].
  apply find_some in E. destruct E as [Hin Hid].
  apply filter_In in Hin. destruct Hin as [_ Hkeep].
  rewrite Hid in Hkeep. discriminate.
Qed.

Lemma NoDup_map_inj {A B : Type} (f : A -> B) (l : list A) (a b : A) :
  NoDup (map f l) -> In a l -> In b l -> f a = f b -> a = b.
Proof.
  induction l as [|x l IH]; intros Hnd Ha Hb Hf; [destruct Ha|].
  cbn in Hnd. inversion Hnd as [|? ? Hnew Hrest]; subst.
  destruct Ha as [->|Ha]; destruct Hb as [->|Hb]; auto.
  - exfalso. apply Hnew. rewrite Hf. apply in_map. exact Hb.
  - exfalso. apply Hnew. rewrite <- Hf. apply in_map. exact Ha.
Qed.

Lemma filter_filter_implied {A : Type} (f g : A -> bool) (l : list A) :
  (forall x, In x l -> f x = true -> g x = true) ->
  filter f (filter g l) = filter f l.
Proof.
  intro H. induction l as [|a l IH]; cbn; [reflexivity|].
  assert (IH' : filter f (filter g l) = filter f l)
    by (apply IH; intros x Hx; apply H; right; exact Hx).
  destruct (g a) eqn:Eg; cbn.
  - rewrite IH'. reflexivity.
  - destruct (f a) eqn:Ef; [|exact IH'].
    rewrite (H a (or_introl eq_refl) Ef) in Eg. discriminate.
Qed.

(** X22. Deleting a word, in a store the pages reach: the id no longer
    resolves, no meaning of the word and no example of such a meaning is
    left, and what is listed under every other id -- the word, its meanings
    and their example sentences -- is as before.  The deletion is persisted
    with one write, also when no word had the id. *)
Theorem deleteWord_cascade (wordId : Z) (s : store) :
  reachable_store s ->
  let s' := deleteWord wordId s in
  getWordWithMeanings wordId s' = None /\
  (forall m, In m (meanings s') -> SavedMeaning.word_id m <> wordId) /\
  (forall e m, In e (examples s') -> In m (meanings s) ->
     SavedMeaning.id m = SavedExample.meaning_id e ->
     SavedMeaning.word_id m <> wordId) /\
  (forall other, other <> wordId ->
     getWordWithMeanings other s' = getWordWithMeanings other s) /\
  localStorage_writes (service s') = S (localStorage_writes (service s)).
Proof.
  intro Hreach. cbn zeta.
  destruct (reachable_store_consistent_invariant s Hreach)
    as [Hmd Hmb Hed Heb Hem Hmw].
  split; [|split; [|split; [|split]]].
  - unfold getWordWithMeanings, deleteWord.
    cbn [service saveToLocalStorage with_service Db.saveToLocalStorage words
         Db.with_words].
    rewrite find_word_filter_same. reflexivity.
  - cbn. intros m Hin. apply filter_In in Hin. destruct Hin as [_ Hkeep].
    apply negb_true_iff in Hkeep. lia.
  - cbn. intros e m Hin Hm Hid Hword. apply filter_In in Hin.
    destruct Hin as [_ Hkeep]. apply negb_true_iff in Hkeep.
    apply not_true_iff_false in Hkeep. apply Hkeep.
    apply existsb_Zeqb_In. rewrite <- Hid. apply in_map.
    apply filter_In. split; [exact Hm | lia].
  - intros other Hne. unfold getWordWithMeanings, deleteWord.
    cbn [service saveToLocalStorage with_service Db.saveToLocalStorage words
         Db.with_words meanings examples].
    rewrite find_word_filter_other by exact Hne.
    destruct (Db.find_word other (words (service s))); [|reflexivity].
    f_equal. f_equal.
    rewrite filter_filter_implied
      by (intros m _ Hm; apply negb_true_iff; lia).
    apply map_ext_in. intros m Hin. apply filter_In in Hin.
    destruct Hin as [Hin Hword]. f_equal. unfold examplesOf.
    cbn [examples]. f_equal.
    apply filter_filter_implied. intros e _ He. apply negb_true_iff.
    apply not_true_iff_false. intro Hdel. apply existsb_Zeqb_In in Hdel.
    apply in_map_iff in Hdel. destruct Hdel as [m' [Hid' Hin']].
    apply filter_In in Hin'. destruct Hin' as [Hin' Hword'].
    assert (m' = m).
    { apply (NoDup_map_inj SavedMeaning.id (meanings s)); try assumption. lia. }
    subst m'. lia.
  - reflexivity.
Qed.

Lemma Math_max_0_bound (ids : list Z) :
  0 <= Math_max_0 ids /\ forall x, In x ids -> x <= Math_max_0 ids.
Proof.
  unfold Math_max_0. induction ids as [|a l [IH0 IH]]; cbn.
  - split; [lia|]. intros x [].
  - split; [lia|]. intros x [<-|Hx]; [lia|]. specialize (IH x Hx). lia.
Qed.

Lemma Math_max_0_least (ids : list Z) (bound : Z) :
  0 <= bound -> (forall x, In x ids -> x <= bound) -> Math_max_0 ids <= bound.
Proof.
  intros H0 H. unfold Math_max_0. induction ids as [|a l IH]; cbn; [lia|].
  assert (a <= bound) by (apply H; left; reflexivity).
  assert (fold_right Z.max 0 l <= bound)
    by (apply IH; intros x Hx; apply H; right; exact Hx).
  lia.
Qed.

(** Up to [Number.MAX_SAFE_INTEGER] adding 1 is exact. *)
Lemma Number_succ_safe (x : Z) :
  0 <= x <= MAX_SAFE_INTEGER -> Number_succ x = x + 1.
Proof.
  unfold MAX_SAFE_INTEGER. change (2 ^ 53) with 9007199254740992. intro Hx.
  unfold Number_succ, roundToDouble, double_ulp.
  change (2 ^ 53) with 9007199254740992.
  destruct (Z.ltb_spec (x + 1) 9007199254740992) as [Hlt|Hge].
  - rewrite Z.div_1_r, Z.mod_1_r. cbn. lia.
  - assert (x + 1 = 9007199254740992) as -> by lia. reflexivity.
Qed.

(** From 2^53 on it is not: 2^53 + 1 is no double and rounds back. *)
Lemma Number_succ_2_53 : Number_succ (2 ^ 53) = 2 ^ 53.
Proof. reflexivity. Qed.

Lemma Number_succ_Math_max_0 (ids : list Z) :
  (forall x, In x ids -> x <= MAX_SAFE_INTEGER) ->
  Number_succ (Math_max_0 ids) = Math_max_0 ids + 1.
Proof.
  intro Hsafe. apply Number_succ_safe.
  destruct (Math_max_0_bound ids) as [H0 _]. split; [exact H0|].
  apply Math_max_0_least; [|exact Hsafe].
  unfold MAX_SAFE_INTEGER. change (2 ^ 53) with 9007199254740992. lia.
Qed.

(** X23. When the arrays that [localStorage] holds have whole ids up to
    [Number.MAX_SAFE_INTEGER], the constructor sets each id counter above
    every id it loaded, so the next saved word, meaning or example cannot
    take the id of a loaded one.  Reloading what a reachable service
    persisted then restores its words exactly; the word counter restarts at
    the largest stored id plus one, never above the counter before the
    reload. *)
Theorem loadFromLocalStorage_counters
    (wordsData : option (list SavedWord))
    (meaningsData : option (list SavedMeaning.t))
    (examplesData : option (list SavedExample.t)) :
  let s := loadFromLocalStorage wordsData meaningsData examplesData in
  (forall w, In w (words (service s)) -> id w <= MAX_SAFE_INTEGER) ->
  (forall m, In m (meanings s) -> SavedMeaning.id m <= MAX_SAFE_INTEGER) ->
  (forall e, In e (examples s) -> SavedExample.id e <= MAX_SAFE_INTEGER) ->
  (forall w, In w (words (service s)) -> id w < nextWordId (service s)) /\
  (forall m, In m (meanings s) -> SavedMeaning.id m < nextMeaningId s) /\
  (forall e, In e (examples s) -> SavedExample.id e < nextExampleId s) /\
  Db.find_word (nextWordId (service s)) (words (service s)) = None /\
  (forall db, reachable db -> wordsData = localStorage_words db ->
     words (service s) = words db /\
     1 <= nextWordId (service s) <= nextWordId db).
Proof.
  cbn zeta. unfold loadFromLocalStorage. cbn.
  set (ws := match wordsData with Some l => l | None => [] end).
  set (ms := match meaningsData with Some l => l | None => [] end).
  set (es := match examplesData with Some l => l | None => [] end).
  intros Hsafe_w Hsafe_m Hsafe_e.
  rewrite (Number_succ_Math_max_0 (map id ws)),
          (Number_succ_Math_max_0 (map SavedMeaning.id ms)),
          (Number_succ_Math_max_0 (map SavedExample.id es)).
  2: { intros x Hx. apply in_map_iff in Hx. destruct Hx as [e [<- He]]. auto. }
  2: { intros x Hx. apply in_map_iff in Hx. destruct Hx as [m [<- Hm]]. auto. }
  2: { intros x Hx. apply in_map_iff in Hx. destruct Hx as [w [<- Hw]]. auto. }
  assert (Hw : forall w, In w ws -> id w < Math_max_0 (map id ws) + 1).
  { intros w Hin. destruct (Math_max_0_bound (map id ws)) as [_ H].
    specialize (H (id w) (in_map id _ _ Hin)). lia. }
  split; [exact Hw|]. split; [|split; [|split]].
  - intros m Hin. destruct (Math_max_0_bound (map SavedMeaning.id ms)) as [_ H].
    specialize (H _ (in_map SavedMeaning.id _ _ Hin)). lia.
  - intros e Hin. destruct (Math_max_0_bound (map SavedExample.id es)) as [_ H].
    specialize (H _ (in_map SavedExample.id _ _ Hin)). lia.
  - unfold Db.find_word.
    destruct (find _ ws) as [w|] eqn:E; [|reflexivity].
    apply find_some in E. destruct E as [Hin Hid]. specialize (Hw w Hin). lia.
  - intros db Hreach Hdata.
    destruct (reachable_storage_sync_invariant db Hreach) as [_ Hsync].
    destruct (reachable_ids_invariant db Hreach) as [_ Hlt].
    pose proof (reachable_nextWordId_positive db Hreach) as Hpos.
    assert (Hsame : ws = words db).
    { unfold ws. rewrite Hdata.
      destruct Hsync as [->|[-> [-> _]]]; reflexivity. }
    rewrite Hsame. split; [reflexivity|].
    destruct (Math_max_0_bound (map id (words db))) as [H0 _].
    split; [lia|].
    assert (Math_max_0 (map id (words db)) <= nextWordId db - 1); [|lia].
    apply Math_max_0_least; [lia|].
    intros x Hx. apply in_map_iff in Hx. destruct Hx as [w [<- Hin]].
    specialize (Hlt w Hin). lia.
Qed.

End VocabularyLookups.

(** ** Weekly progress *)

Section Weekly.
Variable tz : Z.
Import WeeklyProgress.

Lemma updateAt_length (f : entry -> entry) (n : nat) (l : list entry) :
  List.length (updateAt f n l) = List.length l.
Proof.
  revert n. induction l as [|e l IH]; intros [|n]; cbn; try reflexivity.
  rewrite IH. reflexivity.
Qed.

Lemma updateAt_map_same {A : Type} (g : entry -> A) (f : entry -> entry)
    (n : nat) (l : list entry) :
  (forall e, g (f e) = g e) -> map g (updateAt f n l) = map g l.
Proof.
  intro Hg. revert n. induction l as [|e l IH]; intros [|n]; cbn; try reflexivity.
  - rewrite Hg. reflexivity.
  - rewrite IH. reflexivity.
Qed.

Lemma updateAt_map_inc (g : entry -> Z) (f : entry -> entry)
    (n k : nat) (l : list entry) :
  (forall e, g (f e) = g e + 1) ->
  (k < List.length l)%nat ->
  nth k (map g (updateAt f n l)) 0 =
  nth k (map g l) 0 + (if Nat.eqb n k then 1 else 0).
Proof.
  intro Hg. revert n k. induction l as [|e l IH]; intros n k Hk; cbn in Hk; [lia|].
  destruct n as [|n]; destruct k as [|k]; cbn.
  - rewrite Hg. reflexivity.
  - lia.
  - lia.
  - apply IH. lia.
Qed.

Lemma slotOf_Some_iff (now t : Z) (k : nat) :
  (k < 7)%nat ->
  (slotOf now t = Some k <-> inSlotWindow now k t = true).
Proof.
  intro Hk. unfold slotOf, inSlotWindow, msPerDay.
  change (1000 * 3600 * 24) with 86400000.
  change (1000 * 60 * 60 * 24) with 86400000.
  pose proof (Z.div_mod (now - t) 86400000 ltac:(lia)) as Hdm.
  pose proof (Z.mod_pos_bound (now - t) 86400000 ltac:(lia)) as Hmod.
  set (q := (now - t) / 86400000) in *.
  set (r := (now - t) mod 86400000) in *.
  rewrite andb_true_iff, Z.leb_le, Z.ltb_lt.
  destruct ((q >=? 0) && (q <? 7))%bool eqn:E.
  - apply andb_true_iff in E. destruct E as [E1 E2].
    apply Z.geb_le in E1. apply Z.ltb_lt in E2. split.
    + intro H. assert (H' : Z.to_nat (6 - q) = k) by congruence. lia.
    + intros [H1 H2]. f_equal. lia.
  - split; [discriminate|]. intros [H1 H2]. exfalso.
    apply andb_false_iff in E. destruct E as [E|E].
    + rewrite Z.geb_leb in E. apply Z.leb_gt in E. lia.
    + apply Z.ltb_ge in E. lia.
Qed.

Lemma filter_length_ext {A : Type} (f g : A -> bool) (l : list A) :
  (forall x, f x = g x) -> List.length (filter f l) = List.length (filter g l).
Proof.
  intro H. rewrite (filter_ext f g H). reflexivity.
Qed.

Lemma bump_inc (g : entry -> Z) (f : entry -> entry) (slot : option nat)
    (k : nat) (l : list entry) :
  (forall e, g (f e) = g e + 1) ->
  (k < List.length l)%nat ->
  nth k (map g (bump f slot l)) 0 =
  nth k (map g l) 0 + (if WeeklyProgress.slot_is k slot then 1 else 0).
Proof.
  intros Hg Hk. destruct slot as [n|]; cbn; [|lia].
  apply updateAt_map_inc; assumption.
Qed.

Lemma bump_same {A : Type} (g : entry -> A) (f : entry -> entry)
    (slot : option nat) (l : list entry) :
  (forall e, g (f e) = g e) -> map g (bump f slot l) = map g l.
Proof.
  intro Hg. destruct slot as [n|]; cbn; [|reflexivity].
  apply updateAt_map_same. exact Hg.
Qed.

Lemma bump_length (f : entry -> entry) (slot : option nat) (l : list entry) :
  List.length (bump f slot l) = List.length l.
Proof. destruct slot; cbn; [apply updateAt_length | reflexivity]. Qed.

(** The counting loop, slot by slot. *)
Lemma countWords_slots (now : Z) (ws : list SavedWord) :
  forall data k,
    (k < List.length data)%nat ->
    let data' := fold_left (countWord now) ws data in
    List.length data' = List.length data /\
    map day data' = map day data /\
    nth k (map learned data') 0 =
      nth k (map learned data) 0
      + Z.of_nat (List.length (filter (fun w => WeeklyProgress.slot_is k (learnedSlot now w)) ws)) /\
    nth k (map reviewed data') 0 =
      nth k (map reviewed data) 0
      + Z.of_nat (List.length (filter (fun w => WeeklyProgress.slot_is k (reviewedSlot now w)) ws)).
Proof.
  induction ws as [|w ws IH]; intros data k Hk; cbn zeta; cbn [fold_left filter].
  - cbn. repeat split; lia.
  - assert (Hlen : List.length (countWord now data w) = List.length data)
      by (unfold countWord; rewrite !bump_length; reflexivity).
    destruct (IH (countWord now data w) k) as [H1 [H2 [H3 H4]]]; [lia|].
    cbn zeta in *. rewrite H1, H2, H3, H4, Hlen. unfold countWord.
    split; [reflexivity|]. split; [|split].
    + rewrite !bump_same by reflexivity. reflexivity.
    + rewrite (bump_same learned incReviewed) by reflexivity.
      rewrite (bump_inc learned incLearned) by (try reflexivity; exact Hk).
      destruct (WeeklyProgress.slot_is k (learnedSlot now w)); cbn [List.length]; lia.
    + rewrite (bump_inc reviewed incReviewed)
        by (try reflexivity; rewrite bump_length; exact Hk).
      rewrite (bump_same reviewed incLearned) by reflexivity.
      destruct (WeeklyProgress.slot_is k (reviewedSlot now w)); cbn [List.length]; lia.
Qed.

(** X24. The weekly progress has seven entries, labelled with the weekdays
    of the seven calendar days that end today.  Entry [k] counts as learned
    the words created between [6 - k] and [7 - k] whole days (of 24 hours)
    before now, and as reviewed the words whose stored last review lies in
    that window: the last entry counts the past 24 hours, whatever the
    calendar day, and nothing older than seven days or dated in the future
    is counted. *)
Theorem getWeeklyProgressData_slots (now : Z) (db : LocalDatabaseService) (k : nat) :
  (k < 7)%nat ->
  let data := getWeeklyProgressData tz now db in
  List.length data = 7%nat /\
  nth k (map day data) EmptyString =
    weekdayShort (Db.toDateString tz now - 6 + Z.of_nat k) /\
  nth k (map learned data) 0 =
    Z.of_nat (List.length
      (filter (fun w => inSlotWindow now k (createdAt w)) (words db))) /\
  nth k (map reviewed data) 0 =
    Z.of_nat (List.length (filter (reviewedInWindow now k) (words db))).
Proof.
  intro Hk. cbn zeta. unfold getWeeklyProgressData.
  match goal with
  | |- context [fold_left (countWord now) (words db) ?d0] =>
      destruct (countWords_slots now (words db) d0 k) as [H1 [H2 [H3 H4]]];
        [cbn; lia|]
  end.
  cbn zeta in *. rewrite H1, H2, H3, H4. split; [reflexivity|]. split; [|split].
  - rewrite !map_map. cbn [day]. unfold last7Days.
    assert (Hday : forall i, Db.toDateString tz (now - Z.of_nat i * msPerDay)
                             = Db.toDateString tz now - Z.of_nat i).
    { intro i. unfold Db.toDateString.
      replace (now - Z.of_nat i * msPerDay + tz)
        with (now + tz + (- Z.of_nat i) * msPerDay) by lia.
      rewrite Z.div_add by (unfold msPerDay; lia). lia. }
    cbn [seq map rev app]. rewrite !Hday.
    do 7 (destruct k as [|k]; [cbn [nth]; f_equal; lia|]). lia.
  - rewrite !map_map. cbn [learned].
    replace (nth k _ 0) with 0
      by (do 7 (destruct k as [|k]; [reflexivity|]); lia).
    cbn [Z.add]. f_equal. apply filter_length_ext. intro w.
    unfold learnedSlot.
    destruct (slotOf now (createdAt w)) as [n|] eqn:E; cbn [WeeklyProgress.slot_is].
    + destruct (Nat.eqb n k) eqn:En.
      * apply Nat.eqb_eq in En. subst n. symmetry.
        apply slotOf_Some_iff; assumption.
      * symmetry. apply not_true_iff_false. intro Hwin.
        apply slotOf_Some_iff in Hwin; [|exact Hk].
        rewrite E in Hwin. injection Hwin as ->.
        rewrite Nat.eqb_refl in En. discriminate.
    + symmetry. apply not_true_iff_false. intro Hwin.
      apply slotOf_Some_iff in Hwin; [|exact Hk]. congruence.
  - rewrite !map_map. cbn [reviewed].
    replace (nth k _ 0) with 0
      by (do 7 (destruct k as [|k]; [reflexivity|]); lia).
    cbn [Z.add]. f_equal. apply filter_length_ext. intro w.
    unfold reviewedSlot, reviewedInWindow, Db.reviewDateOf.
    destruct (fsrs_params w) as [txt|]; [|reflexivity].
    destruct (JSON_parse txt) as [p|e]; [|reflexivity].
    destruct (last_review p) as [t|]; [|reflexivity].
    destruct (slotOf now t) as [n|] eqn:E; cbn [WeeklyProgress.slot_is].
    + destruct (Nat.eqb n k) eqn:En.
      * apply Nat.eqb_eq in En. subst n. symmetry.
        apply slotOf_Some_iff; assumption.
      * symmetry. apply not_true_iff_false. intro Hwin.
        apply slotOf_Some_iff in Hwin; [|exact Hk].
        rewrite E in Hwin. injection Hwin as ->.
        rewrite Nat.eqb_refl in En. discriminate.
    + symmetry. apply not_true_iff_false. intro Hwin.
      apply slotOf_Some_iff in Hwin; [|exact Hk]. congruence.
Qed.

End Weekly.

(** ** Reviews of today and the streak; the direction of the difficulty *)

Section TodayAndDifficulty.
Context {M : MathImpl} {Zone : TimeZone}.
Variable tz : Z.
Import FSRSService.

(** X25. The dashboard's count of today's reviews never exceeds the number
    of words, and when it is positive while no stored review is dated after
    today, the streak shown beside it is at least 1. *)
Theorem today_reviews_start_streak (now : Z) (db : LocalDatabaseService) :
  (StatsDashboard.calculateTodayReviews tz now (words db)
   <= List.length (words db))%nat /\
  ((1 <= StatsDashboard.calculateTodayReviews tz now (words db))%nat ->
   (forall d, In d (Db.reviewDays tz db) -> d <= Db.toDateString tz now) ->
   1 <= Db.calculateStreakDays tz now db).
Proof.
  unfold StatsDashboard.calculateTodayReviews. split; [apply filter_length_le|].
  intros Hsome Hfuture.
  destruct (filter _ (words db)) as [|w rest] eqn:E; [cbn in Hsome; lia|].
  assert (Hin : In w (filter
    (fun word =>
       match fsrs_params word with
       | None => false
       | Some txt =>
           match JSON_parse txt with
           | Normal params =>
               match last_review params with
               | Some t => Db.toDateString tz t =? Db.toDateString tz now
               | None => false
               end
           | Throw _ => false
           end
       end) (words db))) by (rewrite E; left; reflexivity).
  apply filter_In in Hin. destruct Hin as [Hin Htoday].
  assert (Hday : In (Db.toDateString tz now) (Db.reviewDays tz db)).
  { destruct (fsrs_params w) as [txt|] eqn:Etxt; [|discriminate].
    destruct (JSON_parse txt) as [p|e] eqn:Eparse; [|discriminate].
    destruct (last_review p) as [t|] eqn:Elast; [|discriminate].
    apply Z.eqb_eq in Htoday. rewrite <- Htoday.
    apply (In_reviewDays tz db w t Hin).
    unfold Db.reviewDateOf. rewrite Etxt, Eparse. exact Elast. }
  destruct (uniqueDates_head tz db (Db.toDateString tz now) Hday Hfuture)
    as [rest' [Hsort _]].
  rewrite calculateStreakDays_unfold, Hsort, Z.eqb_refl. cbn [negb andb].
  pose proof (countBack_bounds rest' (Db.toDateString tz now) 1). lia.
Qed.

(** X26. A difficulty between 0 and 10 moves in the direction of the grade:
    Again and Hard never lower it and leave it unchanged only at 10, Good and
    Easy never raise it and leave it unchanged only at 0. *)
Theorem difficulty_direction
    (now : Z) (p p' : FSRSParams) (r : ReviewResult) (d : Q) :
  calculateNextReview now p r = Normal p' ->
  difficulty p = Num (Fin d) ->
  (0 <= d <= 10)%Q ->
  exists d',
    difficulty p' = Num (Fin d') /\
    (r = AGAIN \/ r = HARD -> (d <= d')%Q /\ (d' == d -> d == 10)%Q) /\
    (r = GOOD \/ r = EASY -> (d' <= d)%Q /\ (d' == d -> d == 0)%Q).
Proof.
  intros Hnext Hd Hrange.
  destruct (calculateNextReview_Normal_inv _ _ _ _ Hnext) as [Hd' _].
  rewrite Hd'. unfold updatedDifficulty. rewrite Hd. cbn [ToNumber].
  destruct r; cbn [getDifficultyChange num_add];
    rewrite Math_min_Fin, Math_max_Fin; eexists; (split; [reflexivity|]);
    (split; [intros [Hr|Hr]; try discriminate Hr
            |intros [Hr|Hr]; try discriminate Hr]);
    match goal with
    | |- context [Qlt_bool (?a + ?b) 10] => q_case (Qlt_bool (a + b) 10)
    end; q_cases; split; try lra; intro; lra.
Qed.

End TodayAndDifficulty.
(** ** The review counter *)

Section ReviewCounter.
Context {M : MathImpl} {Zone : TimeZone}.
Import FSRSService.

Lemma reachable_counted_invariant (db : LocalDatabaseService) :
  reachable db -> Forall counted_state (words db).
Proof.
  induction 1 as [|now word phonetic db _ IH|now wordId result db _ IH|wordId db _ IH].
  - constructor.
  - unfold Db.saveWord. destruct (find _ (words db)); cbn; [exact IH|].
    apply Forall_app. split; [exact IH|]. constructor; [|constructor].
    eexists. cbn. split; reflexivity.
  - unfold Db.recordReview.
    destruct (Db.find_word wordId (words db)) as [word|] eqn:Hfind; [|exact IH].
    destruct (find_word_In _ _ _ Hfind) as [Hin _].
    pose proof IH as Hall. rewrite Forall_forall in Hall.
    destruct (Hall word Hin) as [p [Htxt Hcount]].
    rewrite Htxt. cbn [JSON_parse].
    destruct (Db.inCooldown now p) eqn:Hcool; [exact IH|].
    destruct (calculateNextReview now p result) as [p'|e] eqn:Hnext; [|exact IH].
    cbn [snd]. unfold Db.updateFSRSParams. rewrite Hfind.
    cbn [words Db.saveToLocalStorage Db.with_words].
    apply assign_fsrs_params_Forall; [|exact IH].
    intros w _.
    destruct (calculateNextReview_Normal_inv _ _ _ _ Hnext)
      as [_ [_ [_ [Hlast Hrc]]]].
    eexists. cbn. split; [reflexivity|]. rewrite Hlast, Hrc.
    destruct (last_review p) as [last|].
    + destruct Hcount as [Hnull|[q [n [Hq [Hqn Hn]]]]].
      * rewrite Hnull. cbn. right. exists (0 + 1)%Q, 1. repeat split; lia.
      * rewrite Hq. cbn. right. exists (q + 1)%Q, (n + 1). split; [reflexivity|].
        split; [|lia]. rewrite Hqn, inject_Z_plus. reflexivity.
    + rewrite Hcount. cbn. left. reflexivity.
  - cbn. rewrite Forall_forall in *. intros w Hw.
    apply filter_In in Hw. apply IH. tauto.
Qed.

(** X27. The stored review counter in a reachable service: a word with no
    recorded review has no [review_count] property at all; once a review is
    recorded the property is [null] or a whole number from 1 on.  It is never
    stored as 0, and never as a fraction. *)
Theorem reachable_review_count (db : LocalDatabaseService) (w : SavedWord) :
  reachable db ->
  In w (words db) ->
  exists p,
    fsrs_params w = Some (ObjectText p) /\
    (last_review p = None -> review_count p = undefined) /\
    (forall last, last_review p = Some last ->
       review_count p = null \/
       exists q n, review_count p = Num (Fin q) /\ (q == inject_Z n)%Q /\ 1 <= n).
Proof.
  intros Hreach Hin.
  pose proof (reachable_counted_invariant db Hreach) as Hall.
  rewrite Forall_forall in Hall.
  destruct (Hall w Hin) as [p [Htxt Hcount]].
  exists p. split; [exact Htxt|]. split.
  - intro Hnone. rewrite Hnone in Hcount. exact Hcount.
  - intros last Hlast. rewrite Hlast in Hcount. exact Hcount.
Qed.

End ReviewCounter.

(** ** Study sessions *)

Section StudySessions.
Import Study.

Lemma Map_has_In {A : Type} (key : Z) (m : Map A) :
  Map_has key m = true <-> In key (map fst m).
Proof.
  unfold Map_has. rewrite existsb_exists, in_map_iff. split.
  - intros [e [He Hk]]. exists e. split; [lia|exact He].
  - intros [e [Hk He]]. exists e. split; [exact He|lia].
Qed.

Lemma Map_set_keys {A : Type} (key : Z) (v : A) (m : Map A) :
  map fst (Map_set key v m) =
  if Map_has key m then map fst m else map fst m ++ [key].
Proof.
  unfold Map_set. destruct (Map_has key m).
  - rewrite map_map. apply map_ext. intros e.
    destruct (fst e =? key) eqn:E; [cbn; lia|reflexivity].
  - rewrite map_app. reflexivity.
Qed.

Lemma Map_set_In {A : Type} (key : Z) (v : A) (m : Map A) (e : Z * A) :
  In e (Map_set key v m) -> e = (key, v) \/ In e m.
Proof.
  unfold Map_set. destruct (Map_has key m).
  - rewrite in_map_iff. intros [e' [He' Hin]].
    destruct (fst e' =? key); [left; congruence|right; congruence].
  - rewrite in_app_iff. cbn. intuition congruence.
Qed.

Lemma Map_set_new {A : Type} (key : Z) (v : A) (m : Map A) :
  In (key, v) (Map_set key v m).
Proof.
  unfold Map_set. destruct (Map_has key m) eqn:E.
  - unfold Map_has in E. apply existsb_exists in E. destruct E as [e [He Hk]].
    apply in_map_iff. exists e. rewrite Hk. split; [reflexivity|exact He].
  - apply in_app_iff. right. left. reflexivity.
Qed.

Lemma Map_set_other {A : Type} (key : Z) (v : A) (m : Map A) (e : Z * A) :
  In e m -> fst e <> key -> In e (Map_set key v m).
Proof.
  intros He Hne. unfold Map_set. destruct (Map_has key m).
  - apply in_map_iff. exists e. split; [|exact He].
    destruct (fst e =? key) eqn:E; [lia|reflexivity].
  - apply in_app_iff. left. exact He.
Qed.

Lemma Map_set_keyed (w : SavedWord) (m : Map SavedWord) :
  keyed m -> keyed (Map_set (id w) w m).
Proof.
  intros [Hnd Hall]. split.
  - rewrite Map_set_keys. destruct (Map_has (id w) m) eqn:E; [exact Hnd|].
    apply NoDup_app; [exact Hnd|repeat constructor; intros []|].
    intros k Hk [<-|[]].
    apply Map_has_In in Hk. congruence.
  - rewrite Forall_forall in *. intros e He.
    destruct (Map_set_In _ _ _ _ He) as [->|Hin]; [reflexivity|auto].
Qed.

Lemma setAll_cons (w : SavedWord) (ws : list SavedWord) (m : Map SavedWord) :
  setAll (w :: ws) m = setAll ws (Map_set (id w) w m).
Proof. reflexivity. Qed.

Lemma setAll_keyed (ws : list SavedWord) (m : Map SavedWord) :
  keyed m -> keyed (setAll ws m).
Proof.
  revert m. induction ws as [|w ws IH]; intros m Hm; [exact Hm|].
  cbn. apply IH, Map_set_keyed, Hm.
Qed.

Lemma setAll_keys (ws : list SavedWord) (m : Map SavedWord) (k : Z) :
  In k (map fst (setAll ws m)) <-> In k (map fst m) \/ In k (map id ws).
Proof.
  revert m. induction ws as [|w ws IH]; intros m; cbn; [tauto|].
  rewrite IH, Map_set_keys.
  destruct (Map_has (id w) m) eqn:E.
  - apply Map_has_In in E. split; [tauto|].
    intros [H|[<-|H]]; tauto.
  - rewrite in_app_iff. cbn. tauto.
Qed.

Lemma setAll_In (ws : list SavedWord) (m : Map SavedWord) (e : Z * SavedWord) :
  In e (setAll ws m) -> In e m \/ (In (snd e) ws /\ fst e = id (snd e)).
Proof.
  revert m. induction ws as [|w ws IH]; intros m; cbn; [tauto|].
  intro He. destruct (IH _ He) as [Hin|Hin]; [|tauto].
  destruct (Map_set_In _ _ _ _ Hin) as [->|Hm]; [|tauto].
  right. cbn. tauto.
Qed.

Lemma setAll_keeps (ws : list SavedWord) (m : Map SavedWord) (e : Z * SavedWord) :
  In e m -> ~ In (fst e) (map id ws) -> In e (setAll ws m).
Proof.
  revert m. induction ws as [|w ws IH]; intros m He Hnot; cbn; [exact He|].
  cbn in Hnot. apply IH; [|tauto].
  apply Map_set_other; [exact He|]. intro Heq. apply Hnot. left. congruence.
Qed.

Lemma setAll_latest (ws : list SavedWord) (m : Map SavedWord) (w : SavedWord) :
  NoDup (map id ws) -> In w ws -> In (id w, w) (setAll ws m).
Proof.
  revert m. induction ws as [|w0 ws IH]; intros m Hnd Hin; [destruct Hin|].
  cbn in Hnd. inversion Hnd as [|? ? Hnot Hnd']; subst.
  cbn. destruct Hin as [->|Hin].
  - apply setAll_keeps; [apply Map_set_new|exact Hnot].
  - apply IH; assumption.
Qed.

Lemma setAll_fresh (ws : list SavedWord) (m : Map SavedWord) :
  NoDup (map id ws) ->
  (forall k, In k (map fst m) -> ~ In k (map id ws)) ->
  setAll ws m = m ++ map (fun w => (id w, w)) ws.
Proof.
  revert m. induction ws as [|w ws IH]; intros m Hnd Hdisj.
  - cbn. rewrite app_nil_r. reflexivity.
  - cbn in Hnd. inversion Hnd as [|? ? Hnot Hnd']; subst.
    assert (E : Map_has (id w) m = false).
    { destruct (Map_has (id w) m) eqn:E; [|reflexivity].
      apply Map_has_In in E. destruct (Hdisj _ E). left. reflexivity. }
    rewrite setAll_cons. unfold Map_set. rewrite E. rewrite IH; [|exact Hnd'|].
    + rewrite <- app_assoc. reflexivity.
    + intros k Hk. rewrite map_app, in_app_iff in Hk. cbn in Hk.
      destruct Hk as [Hk|[<-|[]]]; [|exact Hnot].
      intro Hin. apply (Hdisj k Hk). right. exact Hin.
Qed.

Lemma keyed_values_ids (m : Map SavedWord) :
  keyed m -> map id (Map_values m) = map fst m.
Proof.
  intros [_ Hall]. unfold Map_values. rewrite map_map.
  induction Hall as [|e m He _ IH]; cbn; congruence.
Qed.

Lemma keyed_nil : keyed [].
Proof. split; constructor. Qed.

Lemma updatedLastSession_ids (lastSessionWords reviewWords : list SavedWord) :
  map id (updatedLastSession lastSessionWords reviewWords) =
  map fst (setAll reviewWords (setAll lastSessionWords [])).
Proof.
  apply keyed_values_ids, setAll_keyed, setAll_keyed, keyed_nil.
Qed.

Lemma updatedLastSession_NoDup (lastSessionWords reviewWords : list SavedWord) :
  NoDup (map id (updatedLastSession lastSessionWords reviewWords)).
Proof.
  rewrite updatedLastSession_ids.
  apply (setAll_keyed reviewWords), setAll_keyed, keyed_nil.
Qed.

Lemma uniqueWords_NoDup (ws : list SavedWord) :
  NoDup (map id ws) -> uniqueWords ws = ws.
Proof.
  intro Hnd. unfold uniqueWords. rewrite setAll_fresh; [|exact Hnd|intros k []].
  cbn. unfold Map_values. rewrite map_map. cbn. apply map_id.
Qed.

(** X28. The merged session that [handleReview] stores holds no word id
    twice, holds exactly the ids of the stored last session and of the session
    just finished, and every word in it comes from one of the two lists. *)
Theorem updatedLastSession_merge (lastSessionWords reviewWords : list SavedWord) :
  NoDup (map id (updatedLastSession lastSessionWords reviewWords)) /\
  (forall k, In k (map id (updatedLastSession lastSessionWords reviewWords)) <->
             In k (map id lastSessionWords) \/ In k (map id reviewWords)) /\
  (forall w, In w (updatedLastSession lastSessionWords reviewWords) ->
             In w lastSessionWords \/ In w reviewWords).
Proof.
  split; [apply updatedLastSession_NoDup|]. split.
  - intro k. rewrite updatedLastSession_ids, !setAll_keys. cbn. tauto.
  - intros w Hw. unfold updatedLastSession, Map_values in Hw.
    apply in_map_iff in Hw. destruct Hw as [e [<- He]].
    destruct (setAll_In _ _ _ He) as [He'|[Hin _]]; [|tauto].
    destruct (setAll_In _ _ _ He') as [[]|[Hin _]]. tauto.
Qed.

(** X29. Where the two sessions share a word id the finished session wins:
    when the finished session holds no id twice, each of its words is in the
    merged session as it is, and a word of the stored last session stays only
    if the finished session has no word of that id. *)
Theorem updatedLastSession_latest
    (lastSessionWords reviewWords : list SavedWord) (w : SavedWord) :
  NoDup (map id reviewWords) ->
  (In w reviewWords -> In w (updatedLastSession lastSessionWords reviewWords)) /\
  (In w (updatedLastSession lastSessionWords reviewWords) ->
   In (id w) (map id reviewWords) -> In w reviewWords).
Proof.
  intro Hnd. split.
  - intro Hin. unfold updatedLastSession, Map_values.
    apply in_map_iff. exists (id w, w). split; [reflexivity|].
    apply setAll_latest; assumption.
  - intros Hw Hid. apply in_map_iff in Hid. destruct Hid as [w' [Hid Hw']].
    pose proof (setAll_latest reviewWords (setAll lastSessionWords []) w' Hnd Hw')
      as Hlatest.
    unfold updatedLastSession, Map_values in Hw.
    apply in_map_iff in Hw. destruct Hw as [e [<- He]].
    assert (Hkeyed : keyed (setAll reviewWords (setAll lastSessionWords [])))
      by apply setAll_keyed, setAll_keyed, keyed_nil.
    destruct Hkeyed as [Hkeys Hall].
    rewrite Forall_forall in Hall. pose proof (Hall e He) as Hfst.
    assert (e = (id w', w')).
    { apply (NoDup_map_inj (@fst Z SavedWord) _ e (id w', w') Hkeys He Hlatest).
      cbn. congruence. }
    subst e. exact Hw'.
Qed.

(** X30. [handleRepeatSession] removes duplicates from a list that has none
    when it is the one [handleReview] stored: the merged session comes back
    unchanged, in the same order. *)
Theorem uniqueWords_of_merged (lastSessionWords reviewWords : list SavedWord) :
  uniqueWords (updatedLastSession lastSessionWords reviewWords) =
  updatedLastSession lastSessionWords reviewWords.
Proof.
  apply uniqueWords_NoDup, updatedLastSession_NoDup.
Qed.

End StudySessions.

(** ** The further properties on the sample data *)

Lemma recordReview_frame_witness :
  Db.find_word 2 (words (snd (Db.recordReview (M := SeriesMath.seriesMath)
                                90000000 1 AGAIN Samples.twoWords))) =
  Db.find_word 2 (words Samples.twoWords).
Proof.
  apply (recordReview_frame (M := SeriesMath.seriesMath)
           90000000 1 AGAIN Samples.twoWords).
  lia.
Defined.

Lemma calculateStreakDays_after_review_witness :
  1 <= Db.calculateStreakDays 0 270000000
         (snd (Db.recordReview (M := SeriesMath.seriesMath)
                 270000000 1 GOOD Samples.afterAgain)).
Proof.
  apply (calculateStreakDays_after_review (M := SeriesMath.seriesMath)
           0 270000000 270000000 1 GOOD Samples.afterAgain).
  - vm_compute. reflexivity.
  - intros d Hd. vm_compute in Hd. vm_compute. intuition (subst; discriminate).
  - left. reflexivity.
Defined.

Lemma recordReview_after_cooldown_witness :
  exists p' db',
    last_review p' = Some (90000000 + 50 * (1000 * 60)) /\
    Db.recordReview (M := SeriesMath.seriesMath) (90000000 + 50 * (1000 * 60)) 1 GOOD
      Samples.afterAgain = (Normal tt, db') /\
    localStorage_writes db' = S (localStorage_writes Samples.afterAgain).
Proof.
  assert (Hword : exists word p,
    Db.find_word 1 (words Samples.afterAgain) = Some word /\
    fsrs_params word = Some (ObjectText p) /\
    last_review p = Some 90000000)
    by (vm_compute; eexists; eexists; repeat split).
  destruct Hword as [word [p [Hfind [Htxt Hlast]]]].
  destruct (recordReview_after_cooldown (M := SeriesMath.seriesMath)
              (90000000 + 50 * (1000 * 60)) 1 GOOD Samples.afterAgain word p
              90000000)
    as [p' [db' [_ [Hl [Hrec [_ [Hw _]]]]]]].
  - unfold Samples.afterAgain, Samples.twoWords.
    apply reachable_recordReview, reachable_saveWord, reachable_saveWord,
      reachable_empty.
  - exact Hfind.
  - exact Htxt.
  - exact Hlast.
  - lia.
  - exists p', db'. repeat split; assumption.
Defined.

Lemma again_due_at_once_but_cooling_witness :
  exists w,
    Db.find_word 1 (words Samples.afterAgain) = Some w /\
    (forall t, 90000000 <= t -> In w (DbQueries.getWordsForReview t Samples.afterAgain)) /\
    (forall t r, t - 90000000 < 50 * (1000 * 60) ->
       Db.recordReview (M := SeriesMath.seriesMath) t 1 r Samples.afterAgain =
         (Normal tt, Db.console_push (log_cooldown_skipped 1) Samples.afterAgain)).
Proof.
  apply (again_due_at_once_but_cooling (M := SeriesMath.seriesMath)
           90000000 1 Samples.twoWords).
  vm_compute. reflexivity.
Defined.

Lemma graded_review_due_days_ahead_witness :
  exists w p' n,
    Db.find_word 1 (words Samples.afterGood) = Some w /\
    fsrs_params w = Some (ObjectText p') /\
    1 <= n /\
    next_review p' = 270000000 + n * msPerDay /\
    forall t, t < 270000000 + msPerDay ->
              ~ In w (DbQueries.getWordsForReview t Samples.afterGood).
Proof.
  destruct (graded_review_due_days_ahead (M := SeriesMath.seriesMath)
              (Zone := utcZone) 270000000 1 GOOD Samples.afterAgain)
    as [w [p' [n [Hfound [Htxt [Hn [_ [_ Hfixed]]]]]]]].
  - discriminate.
  - vm_compute. reflexivity.
  - exists w, p', n. split; [exact Hfound|]. split; [exact Htxt|].
    split; [exact Hn|]. apply Hfixed. exists 0. split; intro t; reflexivity.
Defined.

(** The same review in New York on 9 March 2024 at noon, the day before the
    clocks are set forward: the day that [setDate] adds lasts 23 hours. *)
Lemma graded_review_across_clock_change :
  let now := 1710003600000 in
  let db' := snd (Db.recordReview (M := SeriesMath.seriesMath)
                    (Zone := Examples.newYork2024) now 1 GOOD Examples.newYorkDb) in
  exists w p',
    Db.find_word 1 (words db') = Some w /\
    fsrs_params w = Some (ObjectText p') /\
    last_review p' = Some now /\
    next_review p' = now + 23 * Examples.hour /\
    In w (DbQueries.getWordsForReview (now + 23 * Examples.hour) db').
Proof.
  cbv zeta. eexists. eexists.
  split; [vm_compute; reflexivity|].
  split; [reflexivity|]. split; [reflexivity|]. split; [reflexivity|].
  vm_compute. left. reflexivity.
Qed.

Lemma streakDb_states (w : SavedWord) (p : FSRSParams) :
  In w (words Examples.streakDb) ->
  fsrs_params w = Some (ObjectText p) ->
  stability p = Num (Fin (4 # 10)) /\ retrievability p = Num (Fin 1).
Proof.
  intros Hin Htxt. cbn in Hin.
  destruct Hin as [<-|[<-|[<-|[<-|[]]]]]; cbn in Htxt;
    injection Htxt as <-; split; reflexivity.
Qed.

Lemma dashboard_categories_witness :
  (StatsDashboard.calculateMasteredWords (words Examples.streakDb)
   + StatsDashboard.calculateLearningWords (words Examples.streakDb)
   + StatsDashboard.calculateNewWords (words Examples.streakDb)
   = List.length (words Examples.streakDb))%nat.
Proof.
  apply (dashboard_categories (words Examples.streakDb)).
  intros w p Hin Htxt. destruct (streakDb_states w p Hin Htxt) as [Hs _].
  exists (4 # 10)%Q. split; [exact Hs|]. unfold Qle. cbn. lia.
Defined.

Lemma knowledge_map_agrees_with_dashboard_witness :
  KnowledgeMap.statusOf (Examples.reviewedWord 1000) = KnowledgeMap.learning.
Proof.
  apply (knowledge_map_agrees_with_dashboard (Examples.reviewedWord 1000)).
  reflexivity.
Defined.

Lemma calculateAverageRetention_percentage_witness :
  exists n,
    StatsDashboard.calculateAverageRetention (words Examples.streakDb)
      = Fin (inject_Z n) /\ 0 <= n <= 100.
Proof.
  apply (calculateAverageRetention_percentage (words Examples.streakDb)).
  intros w p Hin Htxt. destruct (streakDb_states w p Hin Htxt) as [_ Hq].
  exists 1%Q. split; [exact Hq|]. unfold Qle. cbn. lia.
Defined.

Lemma views_of_a_word_witness :
  Db.bucketOf 5000 Examples.garbledWord = Db.Mastered /\
  DbQueries.isDueForReview 5000 Examples.garbledWord = true /\
  StatsDashboard.isNew Examples.garbledWord = true /\
  KnowledgeMap.statusOf Examples.garbledWord = KnowledgeMap.new.
Proof.
  apply (views_of_a_word 5000 Examples.garbledWord). reflexivity.
Defined.

Lemma Samples_twoWordStore_reachable :
  reachable_store (M := SeriesMath.seriesMath) Samples.twoWordStore.
Proof.
  unfold Samples.twoWordStore, Samples.oneWordStore.
  apply reachable_store_save, reachable_store_save, reachable_store_empty.
Qed.

Lemma reachable_store_consistent_witness :
  NoDup (map SavedMeaning.id (Vocabulary.meanings Samples.twoWordStore)) /\
  (forall m, In m (Vocabulary.meanings Samples.twoWordStore) ->
     SavedMeaning.id m < Vocabulary.nextMeaningId Samples.twoWordStore) /\
  NoDup (map SavedExample.id (Vocabulary.examples Samples.twoWordStore)) /\
  (forall e, In e (Vocabulary.examples Samples.twoWordStore) ->
     SavedExample.id e < Vocabulary.nextExampleId Samples.twoWordStore) /\
  (forall e, In e (Vocabulary.examples Samples.twoWordStore) ->
     exists m, In m (Vocabulary.meanings Samples.twoWordStore) /\
               SavedMeaning.id m = SavedExample.meaning_id e) /\
  (forall m, In m (Vocabulary.meanings Samples.twoWordStore) ->
     exists w, In w (words (Vocabulary.service Samples.twoWordStore)) /\
               id w = SavedMeaning.word_id m).
Proof.
  apply (reachable_store_consistent (M := SeriesMath.seriesMath)).
  exact Samples_twoWordStore_reachable.
Defined.

Lemma handleSaveSelected_lists_meanings_witness :
  exists found,
    Vocabulary.getWordWithMeanings
      (fst (Vocabulary.handleSaveSelected 3000 "APPLE" EmptyString [Samples.appleVerb]
              Samples.twoWordStore))
      (snd (Vocabulary.handleSaveSelected 3000 "APPLE" EmptyString [Samples.appleVerb]
              Samples.twoWordStore)) = Some found /\
    id (Vocabulary.word found) =
      fst (Vocabulary.handleSaveSelected 3000 "APPLE" EmptyString [Samples.appleVerb]
             Samples.twoWordStore) /\
    text_key (Vocabulary.word found) = toLowerCase "APPLE" /\
    map Vocabulary.contentOf (Vocabulary.wordMeanings found) =
      map Vocabulary.contentOf
        (Vocabulary.meaningsUnder
           (fst (Vocabulary.handleSaveSelected 3000 "APPLE" EmptyString [Samples.appleVerb]
                   Samples.twoWordStore)) Samples.twoWordStore)
      ++ [Samples.appleVerb] /\
    forall other,
      other <> fst (Vocabulary.handleSaveSelected 3000 "APPLE" EmptyString [Samples.appleVerb]
                      Samples.twoWordStore) ->
      Vocabulary.meaningsUnder other
        (snd (Vocabulary.handleSaveSelected 3000 "APPLE" EmptyString [Samples.appleVerb]
                Samples.twoWordStore)) =
      Vocabulary.meaningsUnder other Samples.twoWordStore.
Proof.
  apply (handleSaveSelected_lists_meanings (M := SeriesMath.seriesMath)
           3000 "APPLE" EmptyString [Samples.appleVerb] Samples.twoWordStore).
  exact Samples_twoWordStore_reachable.
Defined.

Lemma deleteWord_cascade_witness :
  Vocabulary.getWordWithMeanings 1 (Vocabulary.deleteWord 1 Samples.twoWordStore)
    = None /\
  Vocabulary.getWordWithMeanings 2 (Vocabulary.deleteWord 1 Samples.twoWordStore)
    = Vocabulary.getWordWithMeanings 2 Samples.twoWordStore.
Proof.
  destruct (deleteWord_cascade (M := SeriesMath.seriesMath) 1 Samples.twoWordStore
              Samples_twoWordStore_reachable) as [Hgone [_ [_ [Hother _]]]].
  split; [exact Hgone|]. apply Hother. lia.
Defined.

Lemma loadFromLocalStorage_counters_witness :
  words (Vocabulary.service
           (Vocabulary.loadFromLocalStorage (localStorage_words Samples.afterGood)
              None None)) = words Samples.afterGood /\
  1 <= nextWordId (Vocabulary.service
           (Vocabulary.loadFromLocalStorage (localStorage_words Samples.afterGood)
              None None)) <= nextWordId Samples.afterGood.
Proof.
  apply (loadFromLocalStorage_counters (M := SeriesMath.seriesMath)
           (localStorage_words Samples.afterGood) None None).
  - intros w Hin. vm_compute in Hin.
    destruct Hin as [<-|[<-|[]]]; vm_compute; discriminate.
  - intros m [].
  - intros e [].
  - exact Samples_afterGood_reachable.
  - reflexivity.
Defined.

(** A stored word whose id is 2^53: the counter restarts at the id itself,
    and the next word saved takes it a second time. *)
Lemma loadFromLocalStorage_beyond_safe_ids :
  let stored :=
    {| id := 2 ^ 53; text := "apple"; phonetic := "ap-l"; createdAt := 1000;
       fsrs_params := Some (ObjectText (Db.saveWord_params 1000)) |} in
  let s := Vocabulary.loadFromLocalStorage (Some [stored]) None None in
  nextWordId (Vocabulary.service s) = 2 ^ 53 /\
  map id (words (snd (Db.saveWord 2000 "banana" "ba-na-na" (Vocabulary.service s))))
    = [2 ^ 53; 2 ^ 53].
Proof. cbv zeta. split; reflexivity. Qed.

Lemma getWeeklyProgressData_slots_witness :
  List.length (WeeklyProgress.getWeeklyProgressData 0 Examples.noon100
                 Examples.streakDb) = 7%nat /\
  nth 6 (map WeeklyProgress.day
           (WeeklyProgress.getWeeklyProgressData 0 Examples.noon100 Examples.streakDb))
      EmptyString =
    WeeklyProgress.weekdayShort (Db.toDateString 0 Examples.noon100 - 6 + Z.of_nat 6) /\
  nth 6 (map WeeklyProgress.learned
           (WeeklyProgress.getWeeklyProgressData 0 Examples.noon100 Examples.streakDb))
      0 =
    Z.of_nat (List.length
      (filter (fun w => WeeklyProgress.inSlotWindow Examples.noon100 6 (createdAt w))
              (words Examples.streakDb))) /\
  nth 6 (map WeeklyProgress.reviewed
           (WeeklyProgress.getWeeklyProgressData 0 Examples.noon100 Examples.streakDb))
      0 =
    Z.of_nat (List.length
      (filter (WeeklyProgress.reviewedInWindow Examples.noon100 6)
              (words Examples.streakDb))).
Proof.
  apply (getWeeklyProgressData_slots 0 Examples.noon100 Examples.streakDb 6).
  lia.
Defined.

Lemma today_reviews_start_streak_witness :
  1 <= Db.calculateStreakDays 0 Examples.noon100 Examples.streakDb.
Proof.
  apply (today_reviews_start_streak 0 Examples.noon100 Examples.streakDb).
  - vm_compute. lia.
  - intros d Hd. vm_compute in Hd. vm_compute. intuition (subst; discriminate).
Defined.

Lemma difficulty_direction_witness :
  exists p' d',
    FSRSService.calculateNextReview (M := SeriesMath.seriesMath) 90000000
      (Examples.reviewedParams 1000) HARD = Normal p' /\
    difficulty p' = Num (Fin d') /\ (3 # 10 <= d')%Q.
Proof.
  assert (E : exists p',
    FSRSService.calculateNextReview (M := SeriesMath.seriesMath) 90000000
      (Examples.reviewedParams 1000) HARD = Normal p')
    by (vm_compute; eexists; reflexivity).
  destruct E as [p' E].
  destruct (difficulty_direction (M := SeriesMath.seriesMath) 90000000
              (Examples.reviewedParams 1000) p' HARD (3 # 10) E eq_refl)
    as [d' [Hd' [Hup _]]].
  - split; unfold Qle; cbn; lia.
  - exists p', d'. split; [exact E|]. split; [exact Hd'|].
    apply Hup. right. reflexivity.
Defined.
(** ** Instances: the review counter and the study sessions *)

Lemma reachable_review_count_witness :
  exists w,
    In w (words Samples.afterGood) /\
    exists p,
      fsrs_params w = Some (ObjectText p) /\
      (last_review p = None -> review_count p = undefined) /\
      (forall last, last_review p = Some last ->
         review_count p = null \/
         exists q n, review_count p = Num (Fin q) /\ (q == inject_Z n)%Q /\ 1 <= n).
Proof.
  assert (Hw : exists w, In w (words Samples.afterGood))
    by (vm_compute; eexists; left; reflexivity).
  destruct Hw as [w Hw]. exists w. split; [exact Hw|].
  apply (reachable_review_count (M := SeriesMath.seriesMath) Samples.afterGood w).
  - exact Samples_afterGood_reachable.
  - exact Hw.
Defined.

Lemma updatedLastSession_latest_witness :
  exists w,
    NoDup (map id (words Samples.twoWords)) /\
    (In w (words Samples.twoWords) ->
     In w (Study.updatedLastSession (words Samples.afterGood)
             (words Samples.twoWords))) /\
    (In w (Study.updatedLastSession (words Samples.afterGood)
             (words Samples.twoWords)) ->
     In (id w) (map id (words Samples.twoWords)) ->
     In w (words Samples.twoWords)).
Proof.
  assert (Hw : exists w, In w (words Samples.twoWords))
    by (vm_compute; eexists; left; reflexivity).
  destruct Hw as [w _]. exists w.
  assert (Hnd : NoDup (map id (words Samples.twoWords))).
  { change (NoDup [1; 2]).
    constructor; [cbn; intros [H|[]]; discriminate|].
    constructor; [intros []|constructor]. }
  split; [exact Hnd|].
  apply (updatedLastSession_latest (words Samples.afterGood)
           (words Samples.twoWords) w Hnd).
Defined.
